(** * LinkedIn extractor: a shallow embedding of [working_linkedin_extractor.py]

    The development follows the Python module top to bottom:
    string primitives, the [re] patterns used by the contact extraction,
    the [LinkedInProfile] dataclass, the Selenium session seen as an
    interface, and the methods of [WorkingLinkedInExtractor].

    Text is modelled as [string] (one [ascii] per character): page markup
    is taken to be ASCII, so [\w], [\d], [\s], [\b] and [str.lower] are
    the ASCII restrictions of Python's behaviour. *)

From Stdlib Require Import String Ascii List Bool Arith ZArith Lia.
Import ListNotations.
Open Scope string_scope.
Open Scope list_scope.

Set Implicit Arguments.

(** ** Python string primitives *)

Module PyStr.

Definition ord (c : ascii) : nat := nat_of_ascii c.

Definition in_range (lo hi c : ascii) : bool :=
  Nat.leb (ord lo) (ord c) && Nat.leb (ord c) (ord hi).

Definition is_digit (c : ascii) : bool := in_range "0"%char "9"%char c.
Definition is_upper (c : ascii) : bool := in_range "A"%char "Z"%char c.
Definition is_lower (c : ascii) : bool := in_range "a"%char "z"%char c.
Definition is_alpha (c : ascii) : bool := is_upper c || is_lower c.

(** [\w] *)
Definition is_word (c : ascii) : bool :=
  is_alpha c || is_digit c || Ascii.eqb c "_"%char.

(** [str.isspace] on one character, also [\s]: TAB..CR, FS..US, space. *)
Definition is_space (c : ascii) : bool :=
  (Nat.leb 9 (ord c) && Nat.leb (ord c) 13) || (Nat.leb 28 (ord c) && Nat.leb (ord c) 32).

Definition lower_char (c : ascii) : ascii :=
  if is_upper c then ascii_of_nat (ord c + 32) else c.

Definition upper_char (c : ascii) : ascii :=
  if is_lower c then ascii_of_nat (ord c - 32) else c.

(** [s.lower()] *)
Fixpoint lower (s : string) : string :=
  match s with
  | EmptyString => EmptyString
  | String c s' => String (lower_char c) (lower s')
  end.

(** [s.lstrip()], [s.rstrip()], [s.strip()] *)
Fixpoint lstrip (s : string) : string :=
  match s with
  | EmptyString => EmptyString
  | String c s' => if is_space c then lstrip s' else s
  end.

Fixpoint rstrip (s : string) : string :=
  match s with
  | EmptyString => EmptyString
  | String c s' =>
      match rstrip s' with
      | EmptyString => if is_space c then EmptyString else String c EmptyString
      | r => String c r
      end
  end.

Definition strip (s : string) : string := rstrip (lstrip s).

(** [bool(s)] *)
Definition truthy (s : string) : bool :=
  match s with EmptyString => false | _ => true end.

Fixpoint startswith (p s : string) : bool :=
  match p, s with
  | EmptyString, _ => true
  | String a p', String b s' => Ascii.eqb a b && startswith p' s'
  | String _ _, EmptyString => false
  end.

(** [needle in hay] on strings *)
Fixpoint str_in (needle hay : string) : bool :=
  startswith needle hay ||
  match hay with
  | EmptyString => false
  | String _ hay' => str_in needle hay'
  end.

(** [x in l] on a list of strings *)
Definition list_in (x : string) (l : list string) : bool :=
  existsb (String.eqb x) l.

(** [s[:n]] and [s[n:]] *)
Fixpoint take (n : nat) (s : string) : string :=
  match n, s with
  | S n', String c s' => String c (take n' s')
  | _, _ => EmptyString
  end.

Fixpoint drop (n : nat) (s : string) : string :=
  match n, s with
  | S n', String _ s' => drop n' s'
  | _, _ => s
  end.

(** [s.split(sep)[-1]] for a non-empty [sep]: the text after the last
    separator found by the left-to-right, non-overlapping scan of
    [str.split].  [skip] counts the characters of a separator still to be
    passed; [cur] is the piece being read. *)
Fixpoint split_last_aux (sep s : string) (skip : nat) (cur : string) : string :=
  match skip with
  | S k =>
      match s with
      | EmptyString => cur
      | String _ s' => split_last_aux sep s' k cur
      end
  | O =>
      match s with
      | EmptyString => cur
      | String c s' =>
          if startswith sep s
          then split_last_aux sep s' (String.length sep - 1) EmptyString
          else split_last_aux sep s' O (String.append cur (String c EmptyString))
      end
  end.

Definition split_last (sep s : string) : string :=
  split_last_aux sep s O EmptyString.

End PyStr.

(** ** The fragment of Python's [re] used by the extractor

    A backtracking matcher with Python's priorities (greedy repetition,
    leftmost alternative first).  In every pattern of the module a
    repetition is applied to a single character class, so [Rep] takes a
    class; [Opt] is the greedy [?] on an arbitrary sub-pattern. *)

Module Re.
Import PyStr.

Inductive regex : Type :=
| Eps
| Chr (p : ascii -> bool)
| Rep (p : ascii -> bool) (lo : nat) (hi : option nat)
| Opt (r : regex)
| Seq (r1 r2 : regex)
| Grp (r : regex)
| WordB.

(** Matcher state: the character before the cursor (for [\b]), the text
    from the cursor on, and the text of group 1 when it has matched. *)
Record mstate : Type := MState {
  prev : option ascii;
  rest : string;
  cap : option string
}.

Definition word_at (o : option ascii) : bool :=
  match o with Some c => is_word c | None => false end.

Definition next_char (s : string) : option ascii :=
  match s with String c _ => Some c | EmptyString => None end.

Definition hi_allows (hi : option nat) : bool :=
  match hi with Some O => false | _ => true end.

(** Greedy [p{lo,hi}]: take one more character while allowed, and fall
    back to stopping here once the minimum is reached. *)
Fixpoint rep (p : ascii -> bool) (lo : nat) (hi : option nat)
    (pv : option ascii) (s : string)
    (k : option ascii -> string -> option mstate) {struct s} : option mstate :=
  let stop := if Nat.eqb lo 0 then k pv s else None in
  match s with
  | String c s' =>
      if p c && hi_allows hi then
        match rep p (Nat.pred lo) (option_map Nat.pred hi) (Some c) s' k with
        | Some r => Some r
        | None => stop
        end
      else stop
  | EmptyString => stop
  end.

Fixpoint run (r : regex) (st : mstate) (k : mstate -> option mstate)
    {struct r} : option mstate :=
  match r with
  | Eps => k st
  | Chr p =>
      match rest st with
      | String c s' => if p c then k (MState (Some c) s' (cap st)) else None
      | EmptyString => None
      end
  | Rep p lo hi =>
      rep p lo hi (prev st) (rest st) (fun pv s' => k (MState pv s' (cap st)))
  | Opt r1 =>
      match run r1 st k with
      | Some x => Some x
      | None => k st
      end
  | Seq r1 r2 => run r1 st (fun st' => run r2 st' k)
  | Grp r1 =>
      run r1 st (fun st' =>
        k (MState (prev st') (rest st')
             (Some (take (String.length (rest st) - String.length (rest st'))
                         (rest st)))))
  | WordB =>
      if xorb (word_at (prev st)) (word_at (next_char (rest st)))
      then k st else None
  end.

(** [pattern.match] at the cursor: the state after the match. *)
Definition match_here (r : regex) (pv : option ascii) (s : string) : option mstate :=
  run r (MState pv s None) Some.

Fixpoint has_group (r : regex) : bool :=
  match r with
  | Grp _ => true
  | Opt r1 => has_group r1
  | Seq r1 r2 => has_group r1 || has_group r2
  | _ => false
  end.

(** What [re.findall] reports for one match: group 1 when the pattern has
    a group, the whole match otherwise. *)
Definition item (r : regex) (s : string) (st : mstate) : string :=
  if has_group r
  then match cap st with Some g => g | None => EmptyString end
  else take (String.length s - String.length (rest st)) s.

(** [re.findall]: leftmost non-overlapping matches, scanning on after
    each one.  [skip] is the number of characters of the last match that
    are still to be passed. *)
Fixpoint scan (r : regex) (pv : option ascii) (s : string) (skip : nat)
    {struct s} : list string :=
  match skip with
  | S n =>
      match s with
      | EmptyString => []
      | String c s' => scan r (Some c) s' n
      end
  | O =>
      match match_here r pv s with
      | Some st =>
          item r s st ::
          match s with
          | EmptyString => []
          | String c s' =>
              scan r (Some c) s' (String.length s - String.length (rest st) - 1)
          end
      | None =>
          match s with
          | EmptyString => []
          | String c s' => scan r (Some c) s' O
          end
      end
  end.

Definition findall (r : regex) (s : string) : list string := scan r None s O.

(** [re.sub(cls, '', s)] for a pattern that is one character class. *)
Fixpoint sub_class_empty (p : ascii -> bool) (s : string) : string :=
  match s with
  | EmptyString => EmptyString
  | String c s' =>
      if p c then sub_class_empty p s' else String c (sub_class_empty p s')
  end.

(** Pattern building blocks. *)
Definition one_of (set : string) (c : ascii) : bool :=
  str_in (String c EmptyString) set.

Definition lit (c : ascii) : regex := Chr (Ascii.eqb c).

(** A literal character under [re.IGNORECASE]. *)
Definition ilit (c : ascii) : regex :=
  Chr (fun x => Ascii.eqb (lower_char x) (lower_char c)).

Fixpoint seq_of (f : ascii -> regex) (s : string) : regex :=
  match s with
  | EmptyString => Eps
  | String c EmptyString => f c
  | String c s' => Seq (f c) (seq_of f s')
  end.

Fixpoint seqs (l : list regex) : regex :=
  match l with
  | [] => Eps
  | [r] => r
  | r :: l' => Seq r (seqs l')
  end.

(** A class under [re.IGNORECASE]. *)
Definition icase (p : ascii -> bool) (c : ascii) : bool :=
  p (lower_char c) || p (upper_char c).

End Re.

(** ** The patterns of the contact extraction *)

Module Patterns.
Import PyStr Re.

Definition email_local (c : ascii) : bool :=
  is_alpha c || is_digit c || one_of "._%+-" c.
Definition email_domain (c : ascii) : bool :=
  is_alpha c || is_digit c || one_of ".-" c.
(** [[A-Z|a-z]]: the bar is a member of the class. *)
Definition email_tld (c : ascii) : bool := is_alpha c || one_of "|" c.
Definition phone_sep (c : ascii) : bool := one_of "-." c || is_space c.
Definition url_host (c : ascii) : bool := one_of "-." c || is_word c.
Definition url_port (c : ascii) : bool := one_of ":" c || is_digit c.
Definition url_path (c : ascii) : bool := is_word c || one_of "/_." c.
Definition url_query (c : ascii) : bool := is_word c || one_of "&=%." c.
Definition url_fragment (c : ascii) : bool := is_word c || one_of "." c.
Definition www_host (c : ascii) : bool := is_word c || one_of ".-" c.

Section Flags.
(** [true] when the call passes [re.IGNORECASE]. *)
Variable ignorecase : bool.

Definition cls (p : ascii -> bool) : ascii -> bool :=
  if ignorecase then icase p else p.
Definition ch (c : ascii) : regex := if ignorecase then ilit c else lit c.
Definition str (s : string) : regex := seq_of ch s.

(** [[A-Za-z0-9._%+-]+@[A-Za-z0-9.-]+\.[A-Z|a-z]{2,}] *)
Definition email_body : regex :=
  seqs [Rep (cls email_local) 1 None; ch "@"; Rep (cls email_domain) 1 None;
        ch "."; Rep (cls email_tld) 2 None].

(** [\b ... \b] around the address *)
Definition email_word : regex := seqs [WordB; email_body; WordB].

(** [mailto:( ... )] *)
Definition email_mailto : regex := seqs [str "mailto:"; Grp email_body].

(** [\+?1?[-.\s]?\(?[0-9]{3}\)?[-.\s]?[0-9]{3}[-.\s]?[0-9]{4}] *)
Definition phone_us : regex :=
  seqs [Opt (ch "+"); Opt (ch "1"); Opt (Chr (cls phone_sep)); Opt (ch "(");
        Rep (cls is_digit) 3 (Some 3); Opt (ch ")"); Opt (Chr (cls phone_sep));
        Rep (cls is_digit) 3 (Some 3); Opt (Chr (cls phone_sep));
        Rep (cls is_digit) 4 (Some 4)].

(** [\+[1-9]\d{1,14}] *)
Definition phone_intl : regex :=
  seqs [ch "+"; Chr (cls (in_range "1" "9")); Rep (cls is_digit) 1 (Some 14)].

(** [\([0-9]{3}\)\s?[0-9]{3}-[0-9]{4}] *)
Definition phone_paren : regex :=
  seqs [ch "("; Rep (cls is_digit) 3 (Some 3); ch ")"; Opt (Chr (cls is_space));
        Rep (cls is_digit) 3 (Some 3); ch "-"; Rep (cls is_digit) 4 (Some 4)].

(** The URL pattern, written with spaces between its parts:
    [https?://  (?:[-\w.])+  (?:[:\d]+)?
     (?: /  (?:[\w/_.])*  (?: \?  (?:[\w&=%.])* )?  (?: #  (?:[\w.])* )?  )?] *)
Definition url_http : regex :=
  seqs [str "http"; Opt (ch "s"); str "://"; Rep (cls url_host) 1 None;
        Opt (Rep (cls url_port) 1 None);
        Opt (seqs [ch "/"; Rep (cls url_path) 0 None;
                   Opt (seqs [ch "?"; Rep (cls url_query) 0 None]);
                   Opt (seqs [ch "#"; Rep (cls url_fragment) 0 None])])].

(** [www\.[\w.-]+\.[a-z]{2,}] *)
Definition url_www : regex :=
  seqs [str "www"; ch "."; Rep (cls www_host) 1 None; ch ".";
        Rep (cls is_lower) 2 None].
End Flags.

(** [[^\d+]]: everything except a digit or a plus sign. *)
Definition not_digit_plus (c : ascii) : bool := negb (is_digit c || one_of "+" c).

End Patterns.

(** ** The [LinkedInProfile] dataclass *)

Module Profile.
Import PyStr.

(** The keyword arguments of the generated [__init__], which are also the
    attributes as it leaves them before [__post_init__] runs.  The five
    contact lists are declared [List[str] = None]: [None] is an argument
    that was not given. *)
Record InitArgs : Type := mkInitArgs {
  arg_full_name : string;
  arg_linkedin_url : string;
  arg_role : string;
  arg_company : string;
  arg_company_linkedin_url : string;
  arg_geography : string;
  arg_date_added : string;
  arg_headline : string;
  arg_about : string;
  arg_location : string;
  arg_connections_count : option Z;
  arg_emails : option (list string);
  arg_phones : option (list string);
  arg_websites : option (list string);
  arg_social_links : option (list string);
  arg_addresses : option (list string);
  arg_profile_type : string;
  arg_extraction_timestamp : string;
  arg_extraction_success : bool
}.

(** The field defaults of the class body: [LinkedInProfile()] passes these. *)
Definition no_args : InitArgs :=
  {| arg_full_name := ""; arg_linkedin_url := ""; arg_role := ""; arg_company := "";
     arg_company_linkedin_url := ""; arg_geography := ""; arg_date_added := "";
     arg_headline := ""; arg_about := ""; arg_location := "";
     arg_connections_count := None;
     arg_emails := None; arg_phones := None; arg_websites := None;
     arg_social_links := None; arg_addresses := None;
     arg_profile_type := "unknown"; arg_extraction_timestamp := "";
     arg_extraction_success := false |}.

(** The object once construction has finished. *)
Record LinkedInProfile : Type := mkProfile {
  full_name : string;
  linkedin_url : string;
  role : string;
  company : string;
  company_linkedin_url : string;
  geography : string;
  date_added : string;
  headline : string;
  about : string;
  location : string;
  connections_count : option Z;
  emails : list string;
  phones : list string;
  websites : list string;
  social_links : list string;
  addresses : list string;
  profile_type : string;
  extraction_timestamp : string;
  extraction_success : bool
}.

(** [if self.x is None: self.x = []] *)
Definition list_or_empty (o : option (list string)) : list string :=
  match o with
  | None => []
  | Some l => l
  end.

(** [__post_init__], run by the generated [__init__] after the attribute
    assignments; [now] is [datetime.utcnow().isoformat()]. *)
Definition __post_init__ (now : string) (a : InitArgs) : LinkedInProfile :=
  {| full_name := arg_full_name a;
     linkedin_url := arg_linkedin_url a;
     role := arg_role a;
     company := arg_company a;
     company_linkedin_url := arg_company_linkedin_url a;
     geography := arg_geography a;
     date_added := arg_date_added a;
     headline := arg_headline a;
     about := arg_about a;
     location := arg_location a;
     connections_count := arg_connections_count a;
     emails := list_or_empty (arg_emails a);
     phones := list_or_empty (arg_phones a);
     websites := list_or_empty (arg_websites a);
     social_links := list_or_empty (arg_social_links a);
     addresses := list_or_empty (arg_addresses a);
     profile_type := arg_profile_type a;
     extraction_timestamp :=
       if negb (truthy (arg_extraction_timestamp a)) then now
       else arg_extraction_timestamp a;
     extraction_success := arg_extraction_success a |}.

(** [LinkedInProfile(x=..., ...)] and [LinkedInProfile()] *)
Definition construct (now : string) (a : InitArgs) : LinkedInProfile := __post_init__ now a.
Definition new_profile (now : string) : LinkedInProfile := construct now no_args.

(** Attribute assignment [profile.x = v], for the attributes the extractor
    writes. *)
Definition set_full_name (v : string) (p : LinkedInProfile) : LinkedInProfile :=
  {| full_name := v; linkedin_url := linkedin_url p; role := role p; company :=
     company p; company_linkedin_url := company_linkedin_url p; geography :=
     geography p; date_added := date_added p; headline := headline p; about :=
     about p; location := location p; connections_count := connections_count p;
     emails := emails p; phones := phones p; websites := websites p;
     social_links := social_links p; addresses := addresses p; profile_type :=
     profile_type p; extraction_timestamp := extraction_timestamp p;
     extraction_success := extraction_success p |}.
Definition set_linkedin_url (v : string) (p : LinkedInProfile) : LinkedInProfile :=
  {| full_name := full_name p; linkedin_url := v; role := role p; company :=
     company p; company_linkedin_url := company_linkedin_url p; geography :=
     geography p; date_added := date_added p; headline := headline p; about :=
     about p; location := location p; connections_count := connections_count p;
     emails := emails p; phones := phones p; websites := websites p;
     social_links := social_links p; addresses := addresses p; profile_type :=
     profile_type p; extraction_timestamp := extraction_timestamp p;
     extraction_success := extraction_success p |}.
Definition set_role (v : string) (p : LinkedInProfile) : LinkedInProfile :=
  {| full_name := full_name p; linkedin_url := linkedin_url p; role := v;
     company := company p; company_linkedin_url := company_linkedin_url p;
     geography := geography p; date_added := date_added p; headline := headline
     p; about := about p; location := location p; connections_count :=
     connections_count p; emails := emails p; phones := phones p; websites :=
     websites p; social_links := social_links p; addresses := addresses p;
     profile_type := profile_type p; extraction_timestamp :=
     extraction_timestamp p; extraction_success := extraction_success p |}.
Definition set_company (v : string) (p : LinkedInProfile) : LinkedInProfile :=
  {| full_name := full_name p; linkedin_url := linkedin_url p; role := role p;
     company := v; company_linkedin_url := company_linkedin_url p; geography :=
     geography p; date_added := date_added p; headline := headline p; about :=
     about p; location := location p; connections_count := connections_count p;
     emails := emails p; phones := phones p; websites := websites p;
     social_links := social_links p; addresses := addresses p; profile_type :=
     profile_type p; extraction_timestamp := extraction_timestamp p;
     extraction_success := extraction_success p |}.
Definition set_geography (v : string) (p : LinkedInProfile) : LinkedInProfile :=
  {| full_name := full_name p; linkedin_url := linkedin_url p; role := role p;
     company := company p; company_linkedin_url := company_linkedin_url p;
     geography := v; date_added := date_added p; headline := headline p; about
     := about p; location := location p; connections_count := connections_count
     p; emails := emails p; phones := phones p; websites := websites p;
     social_links := social_links p; addresses := addresses p; profile_type :=
     profile_type p; extraction_timestamp := extraction_timestamp p;
     extraction_success := extraction_success p |}.
Definition set_about (v : string) (p : LinkedInProfile) : LinkedInProfile :=
  {| full_name := full_name p; linkedin_url := linkedin_url p; role := role p;
     company := company p; company_linkedin_url := company_linkedin_url p;
     geography := geography p; date_added := date_added p; headline := headline
     p; about := v; location := location p; connections_count :=
     connections_count p; emails := emails p; phones := phones p; websites :=
     websites p; social_links := social_links p; addresses := addresses p;
     profile_type := profile_type p; extraction_timestamp :=
     extraction_timestamp p; extraction_success := extraction_success p |}.
Definition set_location (v : string) (p : LinkedInProfile) : LinkedInProfile :=
  {| full_name := full_name p; linkedin_url := linkedin_url p; role := role p;
     company := company p; company_linkedin_url := company_linkedin_url p;
     geography := geography p; date_added := date_added p; headline := headline
     p; about := about p; location := v; connections_count := connections_count
     p; emails := emails p; phones := phones p; websites := websites p;
     social_links := social_links p; addresses := addresses p; profile_type :=
     profile_type p; extraction_timestamp := extraction_timestamp p;
     extraction_success := extraction_success p |}.
Definition set_emails (v : list string) (p : LinkedInProfile) : LinkedInProfile :=
  {| full_name := full_name p; linkedin_url := linkedin_url p; role := role p;
     company := company p; company_linkedin_url := company_linkedin_url p;
     geography := geography p; date_added := date_added p; headline := headline
     p; about := about p; location := location p; connections_count :=
     connections_count p; emails := v; phones := phones p; websites := websites
     p; social_links := social_links p; addresses := addresses p; profile_type
     := profile_type p; extraction_timestamp := extraction_timestamp p;
     extraction_success := extraction_success p |}.
Definition set_phones (v : list string) (p : LinkedInProfile) : LinkedInProfile :=
  {| full_name := full_name p; linkedin_url := linkedin_url p; role := role p;
     company := company p; company_linkedin_url := company_linkedin_url p;
     geography := geography p; date_added := date_added p; headline := headline
     p; about := about p; location := location p; connections_count :=
     connections_count p; emails := emails p; phones := v; websites := websites
     p; social_links := social_links p; addresses := addresses p; profile_type
     := profile_type p; extraction_timestamp := extraction_timestamp p;
     extraction_success := extraction_success p |}.
Definition set_websites (v : list string) (p : LinkedInProfile) : LinkedInProfile :=
  {| full_name := full_name p; linkedin_url := linkedin_url p; role := role p;
     company := company p; company_linkedin_url := company_linkedin_url p;
     geography := geography p; date_added := date_added p; headline := headline
     p; about := about p; location := location p; connections_count :=
     connections_count p; emails := emails p; phones := phones p; websites :=
     v; social_links := social_links p; addresses := addresses p; profile_type
     := profile_type p; extraction_timestamp := extraction_timestamp p;
     extraction_success := extraction_success p |}.
Definition set_profile_type (v : string) (p : LinkedInProfile) : LinkedInProfile :=
  {| full_name := full_name p; linkedin_url := linkedin_url p; role := role p;
     company := company p; company_linkedin_url := company_linkedin_url p;
     geography := geography p; date_added := date_added p; headline := headline
     p; about := about p; location := location p; connections_count :=
     connections_count p; emails := emails p; phones := phones p; websites :=
     websites p; social_links := social_links p; addresses := addresses p;
     profile_type := v; extraction_timestamp := extraction_timestamp p;
     extraction_success := extraction_success p |}.
Definition set_extraction_success (v : bool) (p : LinkedInProfile) : LinkedInProfile :=
  {| full_name := full_name p; linkedin_url := linkedin_url p; role := role p;
     company := company p; company_linkedin_url := company_linkedin_url p;
     geography := geography p; date_added := date_added p; headline := headline
     p; about := about p; location := location p; connections_count :=
     connections_count p; emails := emails p; phones := phones p; websites :=
     websites p; social_links := social_links p; addresses := addresses p;
     profile_type := profile_type p; extraction_timestamp :=
     extraction_timestamp p; extraction_success := v |}.

End Profile.

(** ** Exceptions and the state-and-exception monad of the methods

    A method mutates the profile it was given and drives the browser; an
    exception leaves both as they were when it was raised.  A computation
    is therefore a function from the state to the new state and either a
    value or the exception. *)

Module Exn.

(** The handlers of the module tell [NoSuchElementException] from
    everything else; [WebDriverException] stands for any other exception
    a call into the browser can raise. *)
Inductive exn : Type :=
| NoSuchElementException
| WebDriverException.

Inductive result (A : Type) : Type :=
| Ok (a : A)
| Raise (e : exn).
Arguments Ok {A} a.
Arguments Raise {A} e.

(** [except NoSuchElementException] *)
Definition no_such_element (e : exn) : bool :=
  match e with
  | NoSuchElementException => true
  | WebDriverException => false
  end.

(** [except Exception] and the bare [except] *)
Definition any_exception (e : exn) : bool := true.

Definition M (S A : Type) : Type := S -> S * result A.

Definition ret {S A : Type} (a : A) : M S A := fun s => (s, Ok a).

Definition bind {S A B : Type} (m : M S A) (f : A -> M S B) : M S B :=
  fun s =>
    match m s with
    | (s', Ok a) => f a s'
    | (s', Raise e) => (s', Raise e)
    end.

Definition gets {S A : Type} (f : S -> A) : M S A := fun s => (s, Ok (f s)).

Definition modify {S : Type} (f : S -> S) : M S unit := fun s => (f s, Ok tt).

(** An operation of the environment that reads the state and may raise. *)
Definition ask {S A : Type} (f : S -> result A) : M S A := fun s => (s, f s).

(** [try: m  except <catches>: handler] *)
Definition try_except {S A : Type} (m : M S A) (catches : exn -> bool)
    (handler : M S A) : M S A :=
  fun s =>
    match m s with
    | (s', Ok a) => (s', Ok a)
    | (s', Raise e) => if catches e then handler s' else (s', Raise e)
    end.

(** [for x in l: body], where [body] answers [true] for [break]; the loop
    answers whether it was left by [break]. *)
Fixpoint for_each {S A : Type} (l : list A) (body : A -> M S bool) : M S bool :=
  match l with
  | [] => ret false
  | x :: l' => bind (body x) (fun stop => if stop then ret true else for_each l' body)
  end.

(** [if c: body] *)
Definition when {S : Type} (c : bool) (body : M S unit) : M S unit :=
  if c then body else ret tt.

Definition continue {S : Type} : M S bool := ret false.
Definition break {S : Type} : M S bool := ret true.
Definition pass {S : Type} : M S unit := ret tt.

Module Notations.
Notation "x <- m ;; k" := (bind m (fun x => k))
  (at level 61, m at next level, right associativity).
Notation "m ;;; k" := (bind m (fun _ => k))
  (at level 61, right associativity).
End Notations.

End Exn.

(** ** The Selenium session and BeautifulSoup, as the extractor uses them *)

Module Browser.
Import Exn.

(** [driver] is the state of the browser session; an operation that acts
    on the page answers the state it leaves behind.  [find_element] raises
    [NoSuchElementException] when nothing matches the CSS selector; every
    call may fail with another [WebDriverException]. *)
Class Selenium : Type := {
  driver : Type;
  web_element : Type;
  (** [driver.current_url] *)
  current_url : driver -> string;
  (** [driver.page_source] *)
  page_source : driver -> result string;
  (** [driver.find_element(By.CSS_SELECTOR, sel)] *)
  find_element : driver -> string -> result web_element;
  (** [driver.find_elements(By.CSS_SELECTOR, sel)] *)
  find_elements : driver -> string -> result (list web_element);
  (** [card.find_element(By.CSS_SELECTOR, sel)] *)
  element_find_element : driver -> web_element -> string -> result web_element;
  (** [elem.text] *)
  element_text : driver -> web_element -> result string;
  (** [elem.get_attribute(name)] *)
  element_get_attribute : driver -> web_element -> string -> result (option string);
  (** [elem.click()] *)
  element_click : driver -> web_element -> driver * result unit;
  (** [driver.get(url)] *)
  driver_get : driver -> string -> driver * result unit;
  (** [time.sleep(seconds)]: the page goes on rendering meanwhile *)
  time_sleep : driver -> driver;
  (** [datetime.utcnow().isoformat()] *)
  utcnow_isoformat : driver -> string;
  (** [BeautifulSoup(markup, 'html.parser').select_one(sel)]: the
      [get_text(strip=True)] of the tag found, [None] without a tag *)
  soup_select_one : string -> string -> result (option string);
  (** [BeautifulSoup(markup, 'html.parser').select(sel)]: the
      [get_text(strip=True)] of each tag found *)
  soup_select : string -> string -> result (list string)
}.

End Browser.

(** ** The loops of the contact extraction over the matches of a pattern

    Each loop reads the list held by the profile, tests the match against
    it and appends; nothing in them can raise. *)

Module Contact.
Import PyStr Re Patterns.

(** [for email in emails:
       if email not in profile.emails and '@' in email:
           profile.emails.append(email.lower())] *)
Fixpoint append_emails (found : list string) (emails : list string) : list string :=
  match found with
  | [] => emails
  | email :: found' =>
      if negb (list_in email emails) && str_in "@" email
      then append_emails found' (emails ++ [lower email])
      else append_emails found' emails
  end.

(** [for pattern in email_patterns: emails = re.findall(pattern,
    page_source, re.IGNORECASE); ...] *)
Definition email_patterns : list regex := [email_word true; email_mailto true].

Definition extract_emails (page_source : string) (emails : list string) : list string :=
  fold_left (fun acc pattern => append_emails (findall pattern page_source) acc)
            email_patterns emails.

(** [cleaned_phone = re.sub(r'[^\d+]', '', phone)] *)
Definition cleaned_phone (phone : string) : string :=
  sub_class_empty not_digit_plus phone.

(** [for phone in phones:
       cleaned_phone = ...
       if len(cleaned_phone) >= 10 and cleaned_phone not in profile.phones:
           profile.phones.append(phone)] *)
Fixpoint append_phones (found : list string) (phones : list string) : list string :=
  match found with
  | [] => phones
  | phone :: found' =>
      if Nat.leb 10 (String.length (cleaned_phone phone))
         && negb (list_in (cleaned_phone phone) phones)
      then append_phones found' (phones ++ [phone])
      else append_phones found' phones
  end.

Definition phone_patterns : list regex :=
  [phone_us false; phone_intl false; phone_paren false].

Definition extract_phones (page_source : string) (phones : list string) : list string :=
  fold_left (fun acc pattern => append_phones (findall pattern page_source) acc)
            phone_patterns phones.

(** [for website in websites:
       if website not in profile.websites and 'linkedin.com' not in website:
           profile.websites.append(website)] *)
Fixpoint append_websites (found : list string) (websites : list string) : list string :=
  match found with
  | [] => websites
  | website :: found' =>
      if negb (list_in website websites) && negb (str_in "linkedin.com" website)
      then append_websites found' (websites ++ [website])
      else append_websites found' websites
  end.

Definition url_patterns : list regex := [url_http true; url_www true].

Definition extract_websites (page_source : string) (websites : list string) : list string :=
  fold_left (fun acc pattern => append_websites (findall pattern page_source) acc)
            url_patterns websites.

(** The scan of the contact modal in the Sales Navigator flow:
    [for email in modal_emails:
       if email not in profile.emails: profile.emails.append(email.lower())] *)
Fixpoint append_modal_emails (found : list string) (emails : list string) : list string :=
  match found with
  | [] => emails
  | email :: found' =>
      if negb (list_in email emails)
      then append_modal_emails found' (emails ++ [lower email])
      else append_modal_emails found' emails
  end.

(** The regular-profile flow builds the whole list of additions before it
    extends the profile's list:
    [profile.emails.extend([email.lower() for email in emails
                            if email not in profile.emails])] *)
Definition extend_emails (found : list string) (emails : list string) : list string :=
  emails ++ map lower (filter (fun email => negb (list_in email emails)) found).

Definition extend_phones (found : list string) (phones : list string) : list string :=
  phones ++ filter (fun phone => negb (list_in phone phones)) found.

Definition extend_websites (found : list string) (websites : list string) : list string :=
  websites ++
  filter (fun site => negb (list_in site websites) && negb (str_in "linkedin.com" site))
         found.

End Contact.

(** ** [WorkingLinkedInExtractor] *)

Module Extractor.
Import PyStr Re Patterns Contact Profile Exn Exn.Notations Browser.

Section Methods.
Context {selenium : Selenium}.

(** The profile a method works on, and the browser session. *)
Record state : Type := mkState {
  profile : LinkedInProfile;
  session : driver
}.

Definition X (A : Type) : Type := M state A.

Definition update (f : LinkedInProfile -> LinkedInProfile) : X unit :=
  modify (fun s => mkState (f (profile s)) (session s)).

Definition attr {A : Type} (f : LinkedInProfile -> A) : X A :=
  gets (fun s => f (profile s)).

Definition sleep : X unit :=
  modify (fun s => mkState (profile s) (time_sleep (session s))).

Definition get_page_source : X string := ask (fun s => page_source (session s)).

Definition driver_find_element (sel : string) : X web_element :=
  ask (fun s => find_element (session s) sel).

Definition driver_find_elements (sel : string) : X (list web_element) :=
  ask (fun s => find_elements (session s) sel).

Definition card_find_element (card : web_element) (sel : string) : X web_element :=
  ask (fun s => element_find_element (session s) card sel).

Definition text (e : web_element) : X string :=
  ask (fun s => element_text (session s) e).

Definition get_attribute (e : web_element) (name : string) : X (option string) :=
  ask (fun s => element_get_attribute (session s) e name).

Definition click (e : web_element) : X unit :=
  fun s =>
    let (d, r) := element_click (session s) e in
    (mkState (profile s) d, r).

(** *** [detect_page_type]

    The method reads the session and changes nothing: it is a function
    of the session. *)
Definition detect_page_type (d : driver) : result string :=
  let current := current_url d in
  if str_in "/sales/lead/" current then Ok "sales_navigator_profile"
  else if str_in "/sales/search/" current || str_in "/sales/lists/" current
  then Ok "sales_navigator_search"
  else if str_in "/in/" current then
    match find_element d ".pv-text-details__right-panel" with
    | Ok _ => Ok "authenticated_profile"
    | Raise e => if no_such_element e then Ok "public_profile" else Raise e
    end
  else if str_in "/company/" current then Ok "company_page"
  else Ok "unknown".

(** *** [_extract_about_section] *)
Definition about_selectors : list string :=
  [".pv-about__text"; ".summary"; "[data-section='summary']";
   ".pv-about-section .pv-about__text"].

Definition _extract_about_section : X unit :=
  try_except
    (for_each about_selectors (fun selector =>
       try_except
         (about_elem <- driver_find_element selector ;;
          raw <- text about_elem ;;
          let about_text := strip raw in
          if truthy about_text && Nat.ltb 20 (String.length about_text)
          then update (set_about about_text) ;;; break
          else continue)
         no_such_element
         continue) ;;;
     pass)
    any_exception
    pass.

(** *** [_extract_linkedin_profile_url] *)
Definition profile_link_selectors : list string :=
  ["a[href*='/in/']"; ".profile-topcard-person-entity__name a";
   "a[data-control-name='view_linkedin']"].

Definition _extract_linkedin_profile_url : X unit :=
  try_except
    (for_each profile_link_selectors (fun selector =>
       try_except
         (link_elem <- driver_find_element selector ;;
          href <- get_attribute link_elem "href" ;;
          match href with
          | Some h =>
              if truthy h && str_in "/in/" h
              then update (set_linkedin_url h) ;;; break
              else continue
          | None => continue
          end)
         no_such_element
         continue) ;;;
     pass)
    any_exception
    pass.

(** *** [_extract_sales_navigator_contact_info] *)
Definition scan_contact_modal : X unit :=
  modal_content <- get_page_source ;;
  update (fun p =>
    set_emails (append_modal_emails (findall (email_word false) modal_content)
                                    (emails p)) p).

Definition close_modal (sel : string) : X unit :=
  try_except
    (close_button <- driver_find_element sel ;;
     click close_button ;;;
     sleep)
    any_exception
    pass.

Definition _extract_sales_navigator_contact_info : X unit :=
  try_except
    (sleep ;;;
     page_source <- get_page_source ;;
     update (fun p => set_emails (extract_emails page_source (emails p)) p) ;;;
     update (fun p => set_phones (extract_phones page_source (phones p)) p) ;;;
     update (fun p => set_websites (extract_websites page_source (websites p)) p) ;;;
     try_except
       (contact_buttons <-
          driver_find_elements "button[aria-label*='contact'], .contact-info" ;;
        for_each (firstn 2 contact_buttons) (fun button =>
          try_except
            (click button ;;;
             sleep ;;;
             scan_contact_modal ;;;
             close_modal "button[aria-label='Close'], .artdeco-modal__dismiss" ;;;
             continue)
            any_exception
            continue) ;;;
        pass)
       any_exception
       pass)
    any_exception
    pass.

(** *** [_extract_contact_info] *)
Definition _extract_contact_info : X unit :=
  try_except
    (try_except
       (contact_button <-
          driver_find_element "a[data-control-name='contact_see_more']" ;;
        click contact_button ;;;
        sleep ;;;
        page_source <- get_page_source ;;
        update (fun p =>
          set_emails (extend_emails (findall (email_word false) page_source)
                                    (emails p)) p) ;;;
        update (fun p =>
          set_phones (extend_phones (findall (phone_us false) page_source)
                                    (phones p)) p) ;;;
        update (fun p =>
          set_websites (extend_websites (findall (url_http false) page_source)
                                        (websites p)) p) ;;;
        close_modal "button[aria-label='Dismiss'], .artdeco-modal__dismiss")
       no_such_element
       pass)
    any_exception
    pass.
(** *** [extract_sales_navigator_profile] *)

(** The four selector loops over the parsed page:
    [for selector in selectors:
       try:
         elem = soup.select_one(selector)
         if elem and elem.get_text(strip=True):
           profile.<field> = elem.get_text(strip=True); break
       except: continue] *)
Definition soup_first_text (soup : string) (selectors : list string)
    (assign : string -> LinkedInProfile -> LinkedInProfile) : X unit :=
  for_each selectors (fun selector =>
    try_except
      (elem <- ask (fun _ => soup_select_one soup selector) ;;
       match elem with
       | Some t => if truthy t then update (assign t) ;;; break else continue
       | None => continue
       end)
      any_exception
      continue) ;;;
  pass.

Definition sn_name_selectors : list string :=
  [".profile-topcard-person-entity__name"; ".artdeco-entity-lockup__title";
   ".profile-topcard__name"; "h1"].
Definition sn_role_selectors : list string :=
  [".profile-topcard-person-entity__title"; ".artdeco-entity-lockup__subtitle";
   ".profile-topcard__occupation"].
Definition sn_company_selectors : list string :=
  [".profile-topcard-person-entity__company"; ".profile-topcard__summary-company"].
Definition sn_location_selectors : list string :=
  [".profile-topcard-person-entity__location"; ".profile-topcard__summary-location"].

(** [profile.extraction_success = bool(profile.full_name)] *)
Definition derive_success : X unit :=
  update (fun p => set_extraction_success (truthy (full_name p)) p).

Definition sales_navigator_body : X unit :=
  sleep ;;;
  page_source <- get_page_source ;;
  let soup := page_source in
  soup_first_text soup sn_name_selectors set_full_name ;;;
  soup_first_text soup sn_role_selectors set_role ;;;
  soup_first_text soup sn_company_selectors set_company ;;;
  soup_first_text soup sn_location_selectors set_geography ;;;
  _extract_sales_navigator_contact_info ;;;
  _extract_about_section ;;;
  _extract_linkedin_profile_url ;;;
  derive_success.

(** [except Exception as e: ...; profile.extraction_success = False] *)
Definition on_error : X unit := update (set_extraction_success false).

Definition extract_sales_navigator_profile (d : driver) : driver * LinkedInProfile :=
  let profile0 :=
    set_linkedin_url (current_url d)
      (set_profile_type "sales_navigator" (new_profile (utcnow_isoformat d))) in
  let (s, _) :=
    try_except sales_navigator_body any_exception on_error (mkState profile0 d) in
  (session s, profile s).

(** *** [extract_regular_profile] *)
Definition name_selectors : list string :=
  ["h1.text-heading-xlarge"; ".pv-text-details__left-panel h1"; ".ph5.pb5 h1";
   "h1"; ".pv-top-card--list h1"].
Definition role_selectors : list string :=
  [".text-body-medium.break-words"; ".pv-text-details__left-panel .text-body-medium";
   ".ph5.pb5 .text-body-medium"; ".pv-top-card--list .text-body-medium";
   "div[data-generated-suggestion-target]"; ".pv-entity__summary-info"].
Definition company_selectors : list string :=
  [".pv-text-details__left-panel .text-body-medium:contains('at')";
   ".experience-item__title"; ".pv-entity__summary-info-v2"].
Definition location_selectors : list string :=
  [".text-body-small.inline.t-black--light.break-words";
   ".pv-text-details__left-panel .text-body-small"; "[data-anonymize='location']"].
Definition role_skip_words : list string :=
  ["contact info"; "message"; "connect"; "follow"].

Definition regular_name : X unit :=
  for_each name_selectors (fun selector =>
    try_except
      (name_elem <- driver_find_element selector ;;
       t <- text name_elem ;;
       if truthy (strip t)
       then t' <- text name_elem ;; update (set_full_name (strip t')) ;;; break
       else continue)
      no_such_element
      continue) ;;;
  pass.

Definition regular_role : X unit :=
  for_each role_selectors (fun selector =>
    try_except
      (role_elems <- driver_find_elements selector ;;
       for_each role_elems (fun elem =>
         raw <- text elem ;;
         let t := strip raw in
         if truthy t && negb (existsb (fun skip => str_in skip (lower t)) role_skip_words)
         then
           if Nat.ltb 10 (String.length t) && Nat.ltb (String.length t) 200
           then update (set_role t) ;;; break
           else continue
         else continue))
      no_such_element
      continue) ;;;
  pass.

Definition regular_company : X unit :=
  for_each company_selectors (fun selector =>
    try_except
      (if str_in "contains" selector then
         page_source <- get_page_source ;;
         elems <- ask (fun _ =>
           soup_select page_source ".pv-text-details__left-panel .text-body-medium") ;;
         for_each elems (fun t =>
           if str_in " at " t then
             let company_part := split_last " at " t in
             if truthy company_part && Nat.ltb (String.length company_part) 100
             then update (set_company company_part) ;;; break
             else continue
           else continue) ;;;
         continue
       else
         elem <- driver_find_element selector ;;
         t <- text elem ;;
         if truthy (strip t)
         then t' <- text elem ;; update (set_company (strip t')) ;;; break
         else continue)
      any_exception
      continue) ;;;
  pass.

Definition regular_location : X unit :=
  for_each location_selectors (fun selector =>
    try_except
      (elem <- driver_find_element selector ;;
       raw <- text elem ;;
       let t := strip raw in
       if truthy t && Nat.ltb (String.length t) 100
       then update (set_location t) ;;; break
       else continue)
      no_such_element
      continue) ;;;
  pass.

Definition regular_body : X unit :=
  page_type <- ask (fun s => detect_page_type (session s)) ;;
  update (set_profile_type page_type) ;;;
  sleep ;;;
  regular_name ;;;
  regular_role ;;;
  regular_company ;;;
  regular_location ;;;
  _extract_about_section ;;;
  profile_type_now <- attr profile_type ;;
  when (String.eqb profile_type_now "authenticated_profile") _extract_contact_info ;;;
  derive_success.

Definition extract_regular_profile (d : driver) : driver * LinkedInProfile :=
  let profile0 := set_linkedin_url (current_url d) (new_profile (utcnow_isoformat d)) in
  let (s, _) :=
    try_except regular_body any_exception on_error (mkState profile0 d) in
  (session s, profile s).

(** *** [extract_sales_navigator_search_results] *)
Definition card_name_selectors : list string :=
  [".search-results__result-item__name"; ".name"; "h3"; "h4"].
Definition card_role_selectors : list string :=
  [".search-results__result-item__title"; ".title"; ".subtitle"].
Definition card_company_selectors : list string :=
  [".search-results__result-item__company"; ".company"; ".organization"].
Definition card_location_selectors : list string :=
  [".search-results__result-item__location"; ".location"; ".geography"].

(** The four selector loops over one card:
    [for selector in selectors:
       try:
         elem = card.find_element(By.CSS_SELECTOR, selector)
         if elem.text.strip():
           profile.<field> = elem.text.strip(); break
       except NoSuchElementException: continue] *)
Definition card_first_text (card : web_element) (selectors : list string)
    (assign : string -> LinkedInProfile -> LinkedInProfile) : X unit :=
  for_each selectors (fun selector =>
    try_except
      (elem <- card_find_element card selector ;;
       t <- text elem ;;
       if truthy (strip t)
       then t' <- text elem ;; update (assign (strip t')) ;;; break
       else continue)
      no_such_element
      continue) ;;;
  pass.

Definition card_link (card : web_element) : X unit :=
  try_except
    (profile_link <- card_find_element card "a" ;;
     href <- get_attribute profile_link "href" ;;
     match href with
     | Some h => when (truthy h) (update (set_linkedin_url h))
     | None => pass
     end)
    no_such_element
    pass.

(** The body of the per-card [try], up to the derived flag. *)
Definition card_body (card : web_element) : X unit :=
  update (set_profile_type "sales_navigator_search") ;;;
  card_first_text card card_name_selectors set_full_name ;;;
  card_first_text card card_role_selectors set_role ;;;
  card_first_text card card_company_selectors set_company ;;;
  card_first_text card card_location_selectors set_geography ;;;
  card_link card ;;;
  derive_success.

(** [for i, card in enumerate(cards): try: ... if
    profile.extraction_success: profiles.append(profile)
    except Exception: continue] *)
Fixpoint collect_cards (cards : list web_element) (d : driver)
    (profiles : list LinkedInProfile) : driver * list LinkedInProfile :=
  match cards with
  | [] => (d, profiles)
  | card :: cards' =>
      let (s, r) := card_body card (mkState (new_profile (utcnow_isoformat d)) d) in
      match r with
      | Ok _ =>
          if extraction_success (profile s)
          then collect_cards cards' (session s) (profiles ++ [profile s])
          else collect_cards cards' (session s) profiles
      | Raise _ => collect_cards cards' (session s) profiles
      end
  end.

Definition find_profile_cards (d : driver) : result (list web_element) :=
  match find_elements d ".search-results__result-item" with
  | Ok [] => find_elements d "[data-anonymize='person']"
  | Ok profile_cards => Ok profile_cards
  | Raise e => Raise e
  end.

Definition extract_sales_navigator_search_results (d : driver)
    : driver * list LinkedInProfile :=
  let d1 := time_sleep d in
  match find_profile_cards d1 with
  | Ok profile_cards => collect_cards (firstn 10 profile_cards) d1 []
  | Raise _ => (d1, [])
  end.

(** *** [extract_profile] *)

(** [Union[LinkedInProfile, List[LinkedInProfile]]] *)
Inductive extracted : Type :=
| One (p : LinkedInProfile)
| Many (l : list LinkedInProfile).

(** [if url: self.driver.get(url); time.sleep(3)] *)
Definition navigate (url : option string) (d : driver) : driver * result unit :=
  match url with
  | Some u =>
      if truthy u then
        let (d', r) := driver_get d u in
        match r with
        | Ok _ => (time_sleep d', Ok tt)
        | Raise e => (d', Raise e)
        end
      else (d, Ok tt)
  | None => (d, Ok tt)
  end.

Definition dispatch (page_type : string) (d : driver) : driver * extracted :=
  if String.eqb page_type "sales_navigator_profile" then
    let (d', p) := extract_sales_navigator_profile d in (d', One p)
  else if String.eqb page_type "sales_navigator_search" then
    let (d', l) := extract_sales_navigator_search_results d in (d', Many l)
  else if list_in page_type ["authenticated_profile"; "public_profile"] then
    let (d', p) := extract_regular_profile d in (d', One p)
  else (d, One (new_profile (utcnow_isoformat d))).

Definition extract_profile (url : option string) (d : driver)
    : driver * result extracted :=
  let (d1, arrived) := navigate url d in
  match arrived with
  | Raise e => (d1, Raise e)
  | Ok _ =>
      match detect_page_type d1 with
      | Raise e => (d1, Raise e)
      | Ok page_type => let (d2, out) := dispatch page_type d1 in (d2, Ok out)
      end
  end.
End Methods.
End Extractor.

(** ** A scripted browser

    A small instance of the session interface, for running the methods on
    concrete pages: one heading, the authenticated-only panel, a contact
    link that opens a modal, and the cards of a result list. *)

Module Scripted.
Import PyStr Exn Browser.

Record page : Type := mkPage {
  location : string;
  markup : string;
  (** [.pv-text-details__right-panel] is on the page *)
  right_panel : bool;
  (** the text of the [h1] element; empty when there is none *)
  heading : string;
  (** the markup once the [contact_see_more] link has been clicked *)
  contact_modal : option string;
  (** the result cards, each by the text of its [h3]; empty: no [h3] *)
  card_names : list string;
  (** with the flaky driver, [find_elements] fails on this page *)
  lists_fail : bool
}.

Inductive node : Type :=
| RightPanel
| Heading
| ContactLink
| Card (name : string)
| CardName (name : string).

Definition lookup (p : page) (sel : string) : result node :=
  if String.eqb sel ".pv-text-details__right-panel" then
    if right_panel p then Ok RightPanel else Raise NoSuchElementException
  else if String.eqb sel "h1" then
    if truthy (heading p) then Ok Heading else Raise NoSuchElementException
  else if String.eqb sel "a[data-control-name='contact_see_more']" then
    match contact_modal p with
    | Some _ => Ok ContactLink
    | None => Raise NoSuchElementException
    end
  else Raise NoSuchElementException.

Definition lookup_all (p : page) (sel : string) : result (list node) :=
  if String.eqb sel ".search-results__result-item"
  then Ok (map Card (card_names p))
  else Ok [].

Definition lookup_all_flaky (p : page) (sel : string) : result (list node) :=
  if lists_fail p then Raise WebDriverException else lookup_all p sel.

Definition lookup_in (p : page) (n : node) (sel : string) : result node :=
  match n with
  | Card name =>
      if String.eqb sel "h3" && truthy name then Ok (CardName name)
      else Raise NoSuchElementException
  | _ => Raise NoSuchElementException
  end.

Definition text_of (p : page) (n : node) : result string :=
  match n with
  | Heading => Ok (heading p)
  | CardName name => Ok name
  | _ => Ok EmptyString
  end.

Definition press (p : page) (n : node) : page * result unit :=
  match n, contact_modal p with
  | ContactLink, Some shown =>
      (mkPage (location p) shown (right_panel p) (heading p) (contact_modal p)
              (card_names p) (lists_fail p), Ok tt)
  | _, _ => (p, Ok tt)
  end.

Definition goto (p : page) (url : string) : page * result unit :=
  (mkPage url (markup p) (right_panel p) (heading p) (contact_modal p)
          (card_names p) (lists_fail p), Ok tt).

#[export] Instance scripted : Selenium := {|
  driver := page;
  web_element := node;
  current_url := location;
  page_source := fun p => Ok (markup p);
  find_element := lookup;
  find_elements := lookup_all;
  element_find_element := lookup_in;
  element_text := text_of;
  element_get_attribute := fun _ _ _ => Ok None;
  element_click := press;
  driver_get := goto;
  time_sleep := fun p => p;
  utcnow_isoformat := fun _ => "2024-01-01T00:00:00";
  soup_select_one := fun _ _ => Ok None;
  soup_select := fun _ _ => Ok []
|}.

(** The same browser with a driver that can fail while listing elements. *)
Definition flaky : Selenium := {|
  driver := page;
  web_element := node;
  current_url := location;
  page_source := fun p => Ok (markup p);
  find_element := lookup;
  find_elements := lookup_all_flaky;
  element_find_element := lookup_in;
  element_text := text_of;
  element_get_attribute := fun _ _ _ => Ok None;
  element_click := press;
  driver_get := goto;
  time_sleep := fun p => p;
  utcnow_isoformat := fun _ => "2024-01-01T00:00:00";
  soup_select_one := fun _ _ => Ok None;
  soup_select := fun _ _ => Ok []
|}.

End Scripted.

(** ** The vocabulary of the specification *)

Module Spec.
Import PyStr Re Patterns Contact Profile Exn Browser Extractor.

(** The success flag says exactly whether a name was found. *)
Definition success_iff_name (p : LinkedInProfile) : Prop :=
  extraction_success p = true <-> full_name p <> EmptyString.

(** The flag as the extraction methods derive it. *)
Definition derived (p : LinkedInProfile) : Prop :=
  extraction_success p = truthy (full_name p).

Definition contact_lists_empty (p : LinkedInProfile) : Prop :=
  emails p = [] /\ phones p = [] /\ websites p = [] /\
  social_links p = [] /\ addresses p = [].

(** The decision order of the Page Classifier, in the words of the
    specification: an ordered table of rules, each a test on the location
    and the category it yields given the marker probe; the first rule
    whose test holds decides, and without one the page is [unknown]. *)
Definition rule : Type := (string -> bool) * (bool -> string).

Definition decision_order : list rule :=
  [ (fun loc : string => str_in "/sales/lead/" loc,
     fun _ : bool => "sales_navigator_profile");
    (fun loc : string => str_in "/sales/search/" loc || str_in "/sales/lists/" loc,
     fun _ : bool => "sales_navigator_search");
    (fun loc : string => str_in "/in/" loc,
     fun marker : bool => if marker then "authenticated_profile" else "public_profile");
    (fun loc : string => str_in "/company/" loc,
     fun _ : bool => "company_page") ].

Fixpoint first_match (rules : list rule) (loc : string) (marker : bool) : string :=
  match rules with
  | [] => "unknown"
  | (applies, category) :: rules' =>
      if applies loc then category marker else first_match rules' loc marker
  end.

Definition page_classifier (loc : string) (marker : bool) : string :=
  first_match decision_order loc marker.

(** The locations on which the third rule is the first to apply: only
    there does the category depend on the marker. *)
Definition reaches_profile_rule (loc : string) : bool :=
  negb (str_in "/sales/lead/" loc) &&
  negb (str_in "/sales/search/" loc || str_in "/sales/lists/" loc) &&
  str_in "/in/" loc.

(** The one DOM probe: is the authenticated-only element there? *)
Definition marker_probe {selenium : Selenium} (d : driver) : result bool :=
  match find_element d ".pv-text-details__right-panel" with
  | Ok _ => Ok true
  | Raise e => if no_such_element e then Ok false else Raise e
  end.

(** The comparison key the specification describes for phone numbers:
    the digits of the match, everything else stripped. *)
Definition digits_only (phone : string) : string :=
  sub_class_empty (fun c => negb (is_digit c)) phone.

(** One run of the three pattern steps over the markup, on the lists a
    record holds. *)
Definition pattern_extraction (page_source : string)
    (lists : list string * list string * list string)
    : list string * list string * list string :=
  let '(emails, phones, websites) := lists in
  (extract_emails page_source emails,
   extract_phones page_source phones,
   extract_websites page_source websites).

(** The same entries, whatever their order and however often each is
    stored. *)
Definition same_entries (l l' : list string) : Prop :=
  forall x, In x l <-> In x l'.

(** [l'] is [l] followed by further entries: what [l] holds keeps its
    place. *)
Definition continues (l l' : list string) : Prop :=
  exists added, l' = l ++ added.

(** The lists after a second run, against the lists after the first: the
    same three sets, the first run's entries first and in their order. *)
Definition second_run_stable (once twice : list string * list string * list string)
    : Prop :=
  let '(emails1, phones1, websites1) := once in
  let '(emails2, phones2, websites2) := twice in
  (same_entries emails1 emails2 /\ continues emails1 emails2) /\
  (same_entries phones1 phones2 /\ continues phones1 phones2) /\
  (same_entries websites1 websites2 /\ continues websites1 websites2).

(** The category is outside the dispatch table of [extract_profile]. *)
Definition unsupported (page_type : string) : Prop :=
  page_type = "company_page" \/ page_type = "unknown".

(** The contact lists are still empty and the recorded category is [t]. *)
Definition no_contacts_as (t : string) (p : LinkedInProfile) : Prop :=
  contact_lists_empty p /\ profile_type p = t.

(** A property of the profile, read on the state of a method. *)
Definition on_profile {selenium : Selenium} (J : LinkedInProfile -> Prop)
    (s : state) : Prop :=
  J (profile s).

(** The state in which [extract_regular_profile] enters its [try]. *)
Definition regular_start {selenium : Selenium} (d : driver) : state :=
  mkState (set_linkedin_url (current_url d) (new_profile (utcnow_isoformat d))) d.

(** A driver whose only failure is a missing element: no lookup and no
    text read ends in another [WebDriverException]. *)
Definition benign {selenium : Selenium} : Prop :=
  (forall d sel, find_element d sel <> Raise WebDriverException) /\
  (forall d sel, find_elements d sel <> Raise WebDriverException) /\
  (forall d e, element_text d e <> Raise WebDriverException).

(** The body of [extract_regular_profile] ran to its end: no exception
    reached the handler of the method. *)
Definition regular_completes {selenium : Selenium} (d : driver) : Prop :=
  exists s, regular_body (regular_start d) = (s, Ok tt).

End Spec.

(** ** Sample inputs *)

Module Samples.
Import Profile Scripted.

(** [LinkedInProfile(full_name=..., linkedin_url=..., role=..., company=...,
    emails=[...], phones=[...])], as in the repository's
    [test_profile_with_data]. *)
Definition john_doe_args : InitArgs :=
  {| arg_full_name := "John Doe";
     arg_linkedin_url := "https://linkedin.com/in/johndoe";
     arg_role := "Software Engineer"; arg_company := "Tech Corp";
     arg_company_linkedin_url := ""; arg_geography := ""; arg_date_added := "";
     arg_headline := ""; arg_about := ""; arg_location := "";
     arg_connections_count := None;
     arg_emails := Some ["john@example.com"]; arg_phones := Some ["+1234567890"];
     arg_websites := None; arg_social_links := None; arg_addresses := None;
     arg_profile_type := "unknown"; arg_extraction_timestamp := "";
     arg_extraction_success := false |}.

Definition clock : string := "2024-01-01T00:00:00".

(** A public profile: a heading, no authenticated-only panel. *)
Definition public_alice : page :=
  mkPage "https://www.linkedin.com/in/alice" "<h1>Alice</h1> alice@example.com"
         false "Alice" None [] false.

(** An authenticated profile whose contact modal shows one external link,
    as its address and as its text. *)
Definition authenticated_alice : page :=
  mkPage "https://www.linkedin.com/in/alice" "<h1>Alice</h1>"
         true "Alice"
         (Some "<a href='https://janedoe.dev'>https://janedoe.dev</a>") [] false.

(** The same profile on a page where the flaky driver fails to list
    elements. *)
Definition failing_alice : page :=
  mkPage "https://www.linkedin.com/in/alice" "<h1>Alice</h1>"
         true "Alice" None [] true.

(** A Sales Navigator lead whose markup shows one address twice. *)
Definition lead_jane : page :=
  mkPage "https://www.linkedin.com/sales/lead/123"
         "Jane@Example.COM Jane@Example.COM" false "" None [] false.


(** A result list of twelve cards, the second one without a name. *)
Definition search_page : page :=
  mkPage "https://www.linkedin.com/sales/search/people" "" false "" None
         ["a"; ""; "c"; "d"; "e"; "f"; "g"; "h"; "i"; "j"; "k"; "l"] false.

End Samples.

(** ** A unary program logic for the monad

    [triple P m Q E]: from a state satisfying [P], [m] either returns [a]
    in a state satisfying [Q a], or raises [e] in a state satisfying
    [E e]. *)

Module Logic.
Import Exn.

Section Triples.
Context {S : Type}.

Definition triple {A : Type} (P : S -> Prop) (m : M S A)
    (Q : A -> S -> Prop) (E : exn -> S -> Prop) : Prop :=
  forall s, P s ->
    match m s with
    | (s', Ok a) => Q a s'
    | (s', Raise e) => E e s'
    end.

(** Invariants: [keeps I m] whatever the outcome of [m]. *)
Definition keeps {A : Type} (I : S -> Prop) (m : M S A) : Prop :=
  triple I m (fun _ => I) (fun _ => I).

(** Computations that never raise. *)
Definition safe {A : Type} (m : M S A) : Prop :=
  triple (fun _ => True) m (fun _ _ => True) (fun _ _ => False).

(** Computations that raise at most [NoSuchElementException]. *)
Definition mild {A : Type} (m : M S A) : Prop :=
  triple (fun _ => True) m (fun _ _ => True)
         (fun e _ => e = NoSuchElementException).
End Triples.

End Logic.

(** ** Vocabulary for the properties of the methods *)

Module Coverage.
Import PyStr Re Patterns Contact Profile Exn Browser Extractor.

(** [l'] is [l] with further entries appended. *)
Definition grows (l l' : list string) : Prop := exists added, l' = l ++ added.

(** [q] is [p] up to its [emails], [phones] and [websites]. *)
Definition only_contacts_differ (p q : LinkedInProfile) : Prop :=
  q = set_emails (emails q) (set_phones (phones q) (set_websites (websites q) p)).

(** [q] is [p] with entries appended to its [emails], [phones] and
    [websites], and nothing else changed. *)
Definition contacts_grow (p q : LinkedInProfile) : Prop :=
  only_contacts_differ p q /\
  grows (emails p) (emails q) /\
  grows (phones p) (phones q) /\
  grows (websites p) (websites q).

(** The test a role text passes before [extract_regular_profile] keeps it. *)
Definition role_plausible (t : string) : Prop :=
  10 < String.length t /\ String.length t < 200 /\
  existsb (fun skip => str_in skip (lower t)) role_skip_words = false.

(** The fields of a regular profile as the selector loops can leave them. *)
Definition regular_fields_filtered (p : LinkedInProfile) : Prop :=
  (role p = EmptyString \/ role_plausible (role p)) /\
  (location p = EmptyString \/ String.length (location p) < 100) /\
  (about p = EmptyString \/ 20 < String.length (about p)).

(** What a record of the search collector lacks: it holds the four card
    fields and the link, and nothing of the contact lists, the about text
    or the location. *)
Definition card_record (p : LinkedInProfile) : Prop :=
  emails p = [] /\ phones p = [] /\ websites p = [] /\
  about p = EmptyString /\ location p = EmptyString.

(** The category [extract_regular_profile] records: the one detected, or
    the default of the dataclass when detection itself failed. *)
Definition recorded_page_type {selenium : Selenium} (d : driver) : string :=
  match detect_page_type d with
  | Ok t => t
  | Raise _ => "unknown"
  end.

(** The fields no extraction method assigns. *)
Definition never_assigned (p : LinkedInProfile) : Prop :=
  social_links p = [] /\ addresses p = [] /\ headline p = EmptyString /\
  date_added p = EmptyString /\ company_linkedin_url p = EmptyString /\
  connections_count p = None.

(** The state in which [extract_sales_navigator_profile] enters its [try]. *)
Definition sales_navigator_start {selenium : Selenium} (d : driver) : state :=
  mkState (set_linkedin_url (current_url d)
             (set_profile_type "sales_navigator" (new_profile (utcnow_isoformat d)))) d.

(** The state in which the search collector starts on a card. *)
Definition card_start {selenium : Selenium} (d : driver) : state :=
  mkState (new_profile (utcnow_isoformat d)) d.

(** A property of whatever [extract_profile] returns: of the profile, or of
    each profile of the list. *)
Definition every_profile {selenium : Selenium} (Q : LinkedInProfile -> Prop)
    (r : result extracted) : Prop :=
  match r with
  | Ok (One p) => Q p
  | Ok (Many l) => Forall Q l
  | Raise _ => True
  end.

End Coverage.

(** ** Counting what a method does to the page

    Any browser can be run with a tally beside it: the clicks made and
    the pages visited.  The browser behaves as before; the methods cannot
    read the tally. *)

Module Instrumented.
Import Exn Browser Extractor.

Record tally : Type := mkTally {
  clicks : nat;
  visits : nat
}.

Definition counting (base : Selenium) : Selenium := {|
  driver := (@driver base * tally)%type;
  web_element := @web_element base;
  current_url := fun d => @current_url base (fst d);
  page_source := fun d => @page_source base (fst d);
  find_element := fun d sel => @find_element base (fst d) sel;
  find_elements := fun d sel => @find_elements base (fst d) sel;
  element_find_element := fun d e sel => @element_find_element base (fst d) e sel;
  element_text := fun d e => @element_text base (fst d) e;
  element_get_attribute := fun d e name => @element_get_attribute base (fst d) e name;
  element_click := fun d e =>
    let (d', r) := @element_click base (fst d) e in
    ((d', mkTally (S (clicks (snd d))) (visits (snd d))), r);
  driver_get := fun d url =>
    let (d', r) := @driver_get base (fst d) url in
    ((d', mkTally (clicks (snd d)) (S (visits (snd d)))), r);
  time_sleep := fun d => (@time_sleep base (fst d), snd d);
  utcnow_isoformat := fun d => @utcnow_isoformat base (fst d);
  soup_select_one := @soup_select_one base;
  soup_select := @soup_select base
|}.

(** The tally of a session of the counting browser. *)
Definition tally_of {base : Selenium} (d : @driver (counting base)) : tally := snd d.

(** [m] makes at most [n] clicks and visits no page. *)
Definition spends {base : Selenium} {A : Type} (n : nat)
    (m : @X (counting base) A) : Prop :=
  forall s,
    clicks (tally_of (session (fst (m s)))) <= clicks (tally_of (session s)) + n /\
    visits (tally_of (session (fst (m s)))) = visits (tally_of (session s)).

End Instrumented.

(** ** The profile sink, as its callers use it ([database_storage.py]) *)

Module Sink.
Import Profile.

(** [storage.save_profile(profile)] answers the row id, or raises (the
    method logs and re-raises whatever the database raised). *)
Class Storage : Type := {
  database : Type;
  save_profile : database -> LinkedInProfile -> database * option Z
}.

End Sink.

(** ** [contact_extraction_demo.py] *)

Module Demo.
Import PyStr Profile Exn Browser Extractor Sink.

(** What can end a method of the callers: an exception out of the
    extractor, one out of the storage, or a division by zero. *)
Inductive failure : Type :=
| BrowserError (e : exn)
| StorageError
| ZeroDivisionError.

Inductive outcome (A : Type) : Type :=
| Done (a : A)
| Failed (f : failure).
Arguments Done {A} a.
Arguments Failed {A} f.

(** [bool(l)] on a list *)
Definition nonempty {A : Type} (l : list A) : bool :=
  match l with
  | [] => false
  | _ :: _ => true
  end.

(** The dictionaries of [demonstrate_contact_extraction]. *)
Record profile_info : Type := mkProfileInfo {
  info_name : string;
  info_title : string;
  info_company : string;
  info_location : string;
  info_linkedin_url : string
}.

Record contact_information : Type := mkContactInformation {
  info_emails : list string;
  info_phones : list string;
  info_websites : list string;
  info_social_links : list string;
  info_addresses : list string
}.

Record extraction_metadata : Type := mkExtractionMetadata {
  meta_profile_type : string;
  meta_extraction_timestamp : string;
  meta_contact_points_found : nat;
  meta_data_sources : list string
}.

Record contact_data : Type := mkContactData {
  the_profile_info : profile_info;
  the_contact_information : contact_information;
  the_extraction_metadata : extraction_metadata;
  database_id : Z
}.

(** [_identify_data_sources] *)
Definition _identify_data_sources (profile : LinkedInProfile) : list string :=
  let sources := [] in
  let sources :=
    if nonempty (emails profile)
    then sources ++ ["LinkedIn Sales Navigator Contact Modal"] else sources in
  let sources :=
    if nonempty (phones profile)
    then sources ++ ["LinkedIn Phone Directory"] else sources in
  let sources :=
    if nonempty (websites profile)
    then sources ++ ["LinkedIn Profile Websites Section"] else sources in
  let sources :=
    if nonempty (social_links profile)
    then sources ++ ["LinkedIn Social Media Links"] else sources in
  let sources :=
    if truthy (about profile)
    then sources ++ ["LinkedIn About Section"] else sources in
  if nonempty sources then sources else ["LinkedIn Public Profile"].

(** [_identify_social_platform] *)
Definition _identify_social_platform (url : string) : string :=
  if str_in "twitter.com" url || str_in "x.com" url then "Twitter/X"
  else if str_in "facebook.com" url then "Facebook"
  else if str_in "instagram.com" url then "Instagram"
  else if str_in "github.com" url then "GitHub"
  else if str_in "pinterest.com" url then "Pinterest"
  else "Other".

(** [_calculate_contact_quality] *)
Definition _calculate_contact_quality (contacts : contact_information) : nat :=
  let score := 0 in
  let score :=
    if nonempty (info_emails contacts)
    then score + Nat.min (length (info_emails contacts) * 3) 5 else score in
  let score :=
    if nonempty (info_phones contacts)
    then score + Nat.min (length (info_phones contacts) * 2) 3 else score in
  let score :=
    if nonempty (info_websites contacts)
    then score + Nat.min (length (info_websites contacts)) 1 else score in
  let score :=
    if nonempty (info_social_links contacts)
    then score + Nat.min (length (info_social_links contacts)) 1 else score in
  Nat.min score 10.

Section Methods.
Context {selenium : Selenium} {storage : Storage}.

(** The extractor's browser and the storage's database. *)
Record world : Type := mkWorld {
  browser : driver;
  store : database
}.

(** [profile.location or profile.geography] *)
Definition location_or_geography (profile : LinkedInProfile) : string :=
  if truthy (location profile) then location profile else geography profile.

(** The dictionary built from a profile, before the row id is known. *)
Definition build_contact_data (profile : LinkedInProfile) (profile_id : Z)
    : contact_data :=
  mkContactData
    (mkProfileInfo (full_name profile) (role profile) (company profile)
       (location_or_geography profile) (linkedin_url profile))
    (mkContactInformation (emails profile) (phones profile) (websites profile)
       (social_links profile) (addresses profile))
    (mkExtractionMetadata (profile_type profile) (extraction_timestamp profile)
       (length (emails profile) + length (phones profile) + length (websites profile))
       (_identify_data_sources profile))
    profile_id.

(** [demonstrate_contact_extraction]: [None] is the empty dictionary; an
    exception of the extractor or of the storage is not caught here. *)
Definition demonstrate_contact_extraction (profile_url : string) (w : world)
    : world * outcome (option contact_data) :=
  let (d, extracted_) := extract_profile (Some profile_url) (browser w) in
  match extracted_ with
  | Raise e => (mkWorld d (store w), Failed (BrowserError e))
  | Ok (Many _) => (mkWorld d (store w), Done None)
  | Ok (One profile) =>
      if negb (extraction_success profile) then (mkWorld d (store w), Done None)
      else
        let (db, saved) := save_profile (store w) profile in
        match saved with
        | Some profile_id =>
            (mkWorld d db, Done (Some (build_contact_data profile profile_id)))
        | None => (mkWorld d db, Failed StorageError)
        end
  end.

(** The loop of [bulk_contact_extraction_demo]; [i] counts from 1 and
    [n] is [len(profile_urls)]. *)
Fixpoint bulk_demo_loop (i n : nat) (profile_urls : list string) (w : world)
    (results : list contact_data) : world * list contact_data :=
  match profile_urls with
  | [] => (w, results)
  | url :: rest =>
      let (w1, r) := demonstrate_contact_extraction url w in
      match r with
      | Done found =>
          let results1 :=
            match found with
            | Some data => results ++ [data]
            | None => results
            end in
          let w2 :=
            if Nat.ltb i n
            then mkWorld (time_sleep (browser w1)) (store w1) else w1 in
          bulk_demo_loop (S i) n rest w2 results1
      | Failed _ => bulk_demo_loop (S i) n rest w1 results
      end
  end.

(** [bulk_contact_extraction_demo] *)
Definition bulk_contact_extraction_demo (profile_urls : list string) (w : world)
    : world * list contact_data :=
  bulk_demo_loop 1 (length profile_urls) profile_urls w [].
End Methods.

End Demo.

(** ** [main.py] *)

Module Main.
Import PyStr Profile Exn Browser Extractor Sink Demo.

(** [load_urls_from_file]: [lines] is what iterating the open file yields,
    [None] when opening or reading it raised. *)
Definition load_urls_from_file (lines : option (list string)) : list string :=
  match lines with
  | Some ls =>
      map strip
          (filter (fun line => truthy (strip line) && negb (startswith "#" line)) ls)
  | None => []
  end.

Section Methods.
Context {selenium : Selenium} {storage : Storage}.

(** [extract_single_profile] *)
Definition extract_single_profile (profile_url : string) (w : world)
    : world * option LinkedInProfile :=
  let (d, extracted_) := extract_profile (Some profile_url) (browser w) in
  match extracted_ with
  | Raise _ => (mkWorld d (store w), None)
  | Ok (Many _) => (mkWorld d (store w), None)
  | Ok (One profile) =>
      if extraction_success profile then
        let (db, saved) := save_profile (store w) profile in
        match saved with
        | Some _ => (mkWorld d db, Some profile)
        | None => (mkWorld d db, None)
        end
      else (mkWorld d (store w), None)
  end.

(** The loop of [extract_bulk_profiles]; [i] counts from 1 and [n] is
    [len(profile_urls)]. *)
Fixpoint bulk_loop (i n : nat) (profile_urls : list string) (w : world)
    (results : list LinkedInProfile) : world * list LinkedInProfile :=
  match profile_urls with
  | [] => (w, results)
  | url :: rest =>
      let (w1, profile) := extract_single_profile url w in
      let results1 :=
        match profile with
        | Some p => results ++ [p]
        | None => results
        end in
      let w2 :=
        if Nat.ltb i n then mkWorld (time_sleep (browser w1)) (store w1) else w1 in
      bulk_loop (S i) n rest w2 results1
  end.

(** [extract_bulk_profiles]: the success rate logged after the loop
    divides by [len(profile_urls)]. *)
Definition extract_bulk_profiles (profile_urls : list string) (w : world)
    : world * outcome (list LinkedInProfile) :=
  let (w', results) := bulk_loop 1 (length profile_urls) profile_urls w [] in
  if Nat.eqb (length profile_urls) 0 then (w', Failed ZeroDivisionError)
  else (w', Done results).

(** The loop of [extract_sales_navigator_search] over the profiles found:
    [None] when a save raised. *)
Fixpoint save_all (profiles : list LinkedInProfile) (db : database)
    : database * option unit :=
  match profiles with
  | [] => (db, Some tt)
  | profile :: rest =>
      if extraction_success profile then
        let (db1, saved) := save_profile db profile in
        match saved with
        | Some _ => save_all rest db1
        | None => (db1, None)
        end
      else save_all rest db
  end.

(** [extract_sales_navigator_search] *)
Definition extract_sales_navigator_search (search_url : string) (w : world)
    : world * list LinkedInProfile :=
  let (d, extracted_) := extract_profile (Some search_url) (browser w) in
  match extracted_ with
  | Raise _ => (mkWorld d (store w), [])
  | Ok (One _) => (mkWorld d (store w), [])
  | Ok (Many profiles) =>
      let (db, saved) := save_all profiles (store w) in
      match saved with
      | Some _ => (mkWorld d db, profiles)
      | None => (mkWorld d db, [])
      end
  end.
End Methods.

End Main.

(** ** Recording what reaches the storage

    Any storage, with the list of the profiles passed to [save_profile]
    kept beside its database. *)

Module Logged.
Import Profile Sink.

Definition logging (base : Storage) : Storage := {|
  database := (@database base * list LinkedInProfile)%type;
  save_profile := fun db profile =>
    let (db', saved) := @save_profile base (fst db) profile in
    ((db', snd db ++ [profile]), saved)
|}.

Definition log_of {base : Storage} (db : @database (logging base))
    : list LinkedInProfile := snd db.

End Logged.

(** ** Vocabulary for the properties of the callers *)

Module Callers.
Import PyStr Profile Exn Browser Extractor Coverage Sink Demo Main Logged.

(** A profile flagged successful that carries a name. *)
Definition named (p : LinkedInProfile) : Prop :=
  extraction_success p = true /\ full_name p <> EmptyString.

(** What holds of a dictionary returned by the demo. *)
Definition demo_record (data : contact_data) : Prop :=
  info_name (the_profile_info data) <> EmptyString /\
  meta_contact_points_found (the_extraction_metadata data) =
    length (info_emails (the_contact_information data)) +
    length (info_phones (the_contact_information data)) +
    length (info_websites (the_contact_information data)) /\
  info_social_links (the_contact_information data) = [] /\
  info_addresses (the_contact_information data) = [] /\
  _calculate_contact_quality (the_contact_information data) <= 9 /\
  meta_data_sources (the_extraction_metadata data) <> [] /\
  ~ In "LinkedIn Social Media Links" (meta_data_sources (the_extraction_metadata data)).

(** What the extractor guarantees of a profile it hands to a caller. *)
Definition handed_over (p : LinkedInProfile) : Prop :=
  (extraction_success p = true -> full_name p <> EmptyString) /\ never_assigned p.

(** What holds after [demonstrate_contact_extraction], started in [w],
    ended with [r]. *)
Definition demonstrated {selenium : Selenium} {storage : Storage}
    (w : world) (r : world * outcome (option contact_data)) : Prop :=
  match snd r with
  | Done (Some data) => demo_record data
  | Done None => store (fst r) = store w
  | Failed (BrowserError _) => store (fst r) = store w
  | Failed StorageError => True
  | Failed ZeroDivisionError => False
  end.

(** The profiles a method passed to [save_profile]: at most [n], named
    ones, appended to the record [before]. *)
Definition stored {selenium : Selenium} {base : Storage}
    (before : list LinkedInProfile) (n : nat)
    (after : @world selenium (logging base)) (added : list LinkedInProfile) : Prop :=
  log_of (store after) = before ++ added /\
  length added <= n /\
  Forall named added.

End Callers.

(** ** [database_storage.py]: what is computed around the queries

    As shipped, the file is not a Python program: from line 125 on, every
    docstring and every query text in triple quotes has a backslash written
    before each of its quotes, which the parser refuses, so that importing
    the module raises [SyntaxError] and none of its methods can run.  The
    definitions of this module embed the method bodies as they read once
    those quotes are written plainly, the one repair the file needs; what
    is proved of them is proved of the file so repaired, not of the file
    as shipped. *)

Module Database.
Import PyStr Profile.

(** A row as [_save_contact_info] prepares it:
    [(profile_id, contact_type, contact_value, contact_platform)]. *)
Definition contact_row : Type := (Z * string * string * option string)%type.

Definition contact_type (row : contact_row) : string := snd (fst (fst row)).
Definition contact_value (row : contact_row) : string := snd (fst row).
Definition contact_platform (row : contact_row) : option string := snd row.

(** The platform test on a social link. *)
Definition platform_of (social : string) : option string :=
  if str_in "twitter.com" social then Some "twitter"
  else if str_in "facebook.com" social then Some "facebook"
  else if str_in "instagram.com" social then Some "instagram"
  else if str_in "github.com" social then Some "github"
  else None.

(** The list [contact_data] of [_save_contact_info], as its five loops
    fill it. *)
Definition contact_data_rows (profile_id : Z) (profile : LinkedInProfile)
    : list contact_row :=
  map (fun email => (profile_id, "email", email, None)) (emails profile) ++
  map (fun phone => (profile_id, "phone", phone, None)) (phones profile) ++
  map (fun website => (profile_id, "website", website, None)) (websites profile) ++
  map (fun social => (profile_id, "social", social, platform_of social))
      (social_links profile) ++
  map (fun address => (profile_id, "address", address, None)) (addresses profile).

(** What [SELECT contact_type, contact_value] shows of a row. *)
Definition selected (row : contact_row) : string * string :=
  (contact_type row, contact_value row).

(** The dictionary of [_get_profile_contacts], in insertion order. *)
Definition contacts : Type := list (string * list string).

Definition no_contacts : contacts :=
  [("emails", []); ("phones", []); ("websites", []); ("social_links", []);
   ("addresses", [])].

(** [key in contacts] *)
Fixpoint has_key (key : string) (d : contacts) : bool :=
  match d with
  | [] => false
  | (k, _) :: rest => String.eqb k key || has_key key rest
  end.

(** [contacts[key].append(value)], on a key that is present *)
Fixpoint append_at (key value : string) (d : contacts) : contacts :=
  match d with
  | [] => []
  | (k, l) :: rest =>
      if String.eqb k key then (k, l ++ [value]) :: rest
      else (k, l) :: append_at key value rest
  end.

(** The body of the loop over the fetched rows. *)
Definition file_contact (d : contacts) (row : string * string) : contacts :=
  let (contact_type, contact_value) := row in
  if has_key contact_type d then append_at contact_type contact_value d
  else if String.eqb contact_type "social" then append_at "social_links" contact_value d
  else d.

(** [_get_profile_contacts]: [fetched] is what the query returned, [None]
    when the connection or the query raised. *)
Definition _get_profile_contacts (fetched : option (list (string * string)))
    : contacts :=
  match fetched with
  | Some rows => fold_left file_contact rows no_contacts
  | None => no_contacts
  end.

(** [cursor.fetchone()] on the rows not yet fetched. *)
Definition fetchone {A : Type} (cursor : list A) : list A * option A :=
  match cursor with
  | [] => ([], None)
  | row :: rest => (rest, Some row)
  end.

(** [get_profile_by_url]: [matching] is the result set of the query,
    [None] when the connection or the query raised; a row is a dictionary
    from column names to values.  [dict(None)] raises [TypeError], which
    the method catches. *)
Definition get_profile_by_url {V : Type} (matching : option (list (list (string * V))))
    : option (list (string * V)) :=
  match matching with
  | None => None
  | Some cursor =>
      let (cursor1, tested) := fetchone cursor in
      let found :=
        match tested with
        | Some row => match row with [] => false | _ :: _ => true end
        | None => false
        end in
      if found then
        let (_, row) := fetchone cursor1 in
        match row with
        | Some columns => Some columns
        | None => None
        end
      else None
  end.

(** The keyword arguments of [search_profiles] that reach the [WHERE]
    clause; [None] is an absent key. *)
Record filters : Type := mkFilters {
  by_company : option string;
  by_role : option string;
  by_location : option string;
  by_profile_type : option string;
  by_has_contact_info : option bool
}.

(** [filters.get(key)] as a condition *)
Definition given (v : option string) : bool :=
  match v with
  | Some text => truthy text
  | None => false
  end.

Definition text_of (v : option string) : string :=
  match v with
  | Some text => text
  | None => EmptyString
  end.

(** The lists [conditions] and [params] of [search_profiles]. *)
Definition conditions_and_params (f : filters) : list string * list string :=
  let conditions : list string := [] in
  let params : list string := [] in
  let (conditions, params) :=
    if given (by_company f)
    then (conditions ++ ["company ILIKE %s"],
          params ++ [("%" ++ text_of (by_company f) ++ "%")%string])
    else (conditions, params) in
  let (conditions, params) :=
    if given (by_role f)
    then (conditions ++ ["role ILIKE %s"],
          params ++ [("%" ++ text_of (by_role f) ++ "%")%string])
    else (conditions, params) in
  let (conditions, params) :=
    if given (by_location f)
    then (conditions ++ ["(geography ILIKE %s OR location ILIKE %s)"],
          params ++ [("%" ++ text_of (by_location f) ++ "%")%string;
                     ("%" ++ text_of (by_location f) ++ "%")%string])
    else (conditions, params) in
  let (conditions, params) :=
    if given (by_profile_type f)
    then (conditions ++ ["profile_type = %s"], params ++ [text_of (by_profile_type f)])
    else (conditions, params) in
  let conditions :=
    match by_has_contact_info f with
    | Some true => conditions ++ ["(emails_count > 0 OR phones_count > 0)"]
    | _ => conditions
    end in
  (conditions, params).

(** [where_clause] *)
Definition where_clause (f : filters) : string :=
  match fst (conditions_and_params f) with
  | [] => EmptyString
  | conditions => ("WHERE " ++ String.concat " AND " conditions)%string
  end.

(** The number of [%s] in a query text. *)
Fixpoint placeholders (query : string) : nat :=
  match query with
  | EmptyString => 0
  | String c rest =>
      (if startswith "%s" query then 1 else 0) + placeholders rest
  end.

(** ** Vocabulary for the properties of the storage *)

(** The dictionary of [_get_profile_contacts] with entries under
    [social_links] only. *)
Definition only_social (socials : list string) : contacts :=
  [("emails", []); ("phones", []); ("websites", []); ("social_links", socials);
   ("addresses", [])].

(** The types [_save_contact_info] writes. *)
Definition written_types : list string :=
  ["email"; "phone"; "website"; "social"; "address"].

Definition is_social (row : string * string) : bool := String.eqb (fst row) "social".

(** A row of [linkedin_profiles] as a dictionary of column texts, the
    table as the list of its rows. *)
Definition profile_row : Type := list (string * string).

Fixpoint column (name : string) (row : profile_row) : option string :=
  match row with
  | [] => None
  | (k, v) :: rest => if String.eqb k name then Some v else column name rest
  end.

(** [SELECT * FROM linkedin_profiles WHERE linkedin_url = %s] *)
Definition select_by_url (linkedin_url : string) (table : list profile_row)
    : list profile_row :=
  filter (fun row =>
            match column "linkedin_url" row with
            | Some v => String.eqb v linkedin_url
            | None => false
            end) table.

(** [linkedin_url VARCHAR(500) UNIQUE NOT NULL] *)
Definition unique_urls (table : list profile_row) : Prop :=
  Forall (fun row => column "linkedin_url" row <> None) table /\
  NoDup (map (column "linkedin_url") table).

(** The same filters given, whatever their texts. *)
Definition same_filters_given (f g : filters) : Prop :=
  given (by_company g) = given (by_company f) /\
  given (by_role g) = given (by_role f) /\
  given (by_location g) = given (by_location f) /\
  given (by_profile_type g) = given (by_profile_type f) /\
  (by_has_contact_info g = Some true <-> by_has_contact_info f = Some true).

Definition no_filter_given (f : filters) : Prop :=
  given (by_company f) = false /\ given (by_role f) = false /\
  given (by_location f) = false /\ given (by_profile_type f) = false /\
  by_has_contact_info f <> Some true.

End Database.

(** ** What a pattern can match

    A reading of the patterns that does not run the matcher: the words a
    pattern derives, with the text of group 1 before and after, and three
    bounds computed from the pattern.

    The classes are those of [PyStr] and [Patterns], which read digits,
    word characters and white space on ASCII text.  What is proved with
    them is proved for pages of ASCII text: on other pages Python also
    takes, for instance, a no-break space for white space, and stores
    entries that the shapes below do not describe. *)

Module Shape.
Import PyStr Re Patterns Contact.

Fixpoint all_chars (p : ascii -> bool) (w : string) : bool :=
  match w with
  | EmptyString => true
  | String c w' => p c && all_chars p w'
  end.

Fixpoint count_chars (p : ascii -> bool) (w : string) : nat :=
  match w with
  | EmptyString => 0
  | String c w' => (if p c then 1 else 0) + count_chars p w'
  end.

Definition within (hi : option nat) (n : nat) : Prop :=
  match hi with
  | Some h => n <= h
  | None => True
  end.

(** [derives r w c c']: pattern [r] can match the word [w], turning the
    text of group 1 from [c] into [c'].  The word boundary is read as the
    empty word, whatever stands around it. *)
Inductive derives : regex -> string -> option string -> option string -> Prop :=
| derives_Eps (c : option string) : derives Eps EmptyString c c
| derives_Chr (p : ascii -> bool) (a : ascii) (c : option string) :
    p a = true -> derives (Chr p) (String a EmptyString) c c
| derives_Rep (p : ascii -> bool) (lo : nat) (hi : option nat) (w : string)
    (c : option string) :
    all_chars p w = true -> lo <= String.length w -> within hi (String.length w) ->
    derives (Rep p lo hi) w c c
| derives_Opt_skip (r : regex) (c : option string) : derives (Opt r) EmptyString c c
| derives_Opt_take (r : regex) (w : string) (c c' : option string) :
    derives r w c c' -> derives (Opt r) w c c'
| derives_Seq (r1 r2 : regex) (w1 w2 : string) (c c1 c2 : option string) :
    derives r1 w1 c c1 -> derives r2 w2 c1 c2 ->
    derives (Seq r1 r2) (w1 ++ w2) c c2
| derives_Grp (r : regex) (w : string) (c c' : option string) :
    derives r w c c' -> derives (Grp r) w c (Some w)
| derives_WordB (c : option string) : derives WordB EmptyString c c.

(** [w] stands somewhere in [s]. *)
Definition occurs_in (w s : string) : Prop :=
  exists before after, s = (before ++ w ++ after)%string.

(** What [re.findall] reports of a match of [r] on the word [w] that left
    group 1 as [c]. *)
Definition item_of (r : regex) (w : string) (c : option string) : string :=
  if has_group r
  then match c with Some g => g | None => EmptyString end
  else w.

(** The 256 characters, and inclusion and disjointness of classes decided
    on them. *)
Definition every_ascii : list ascii := map ascii_of_nat (seq 0 256).

Definition subclass (p q : ascii -> bool) : bool :=
  forallb (fun c => implb (p c) (q c)) every_ascii.

Definition disjoint (p q : ascii -> bool) : bool :=
  forallb (fun c => negb (p c && q c)) every_ascii.

(** The characters that can stand in a match of [r]. *)
Fixpoint alphabet (r : regex) (a : ascii) : bool :=
  match r with
  | Eps => false
  | Chr p => p a
  | Rep p _ _ => p a
  | Opt r1 => alphabet r1 a
  | Seq r1 r2 => alphabet r1 a || alphabet r2 a
  | Grp r1 => alphabet r1 a
  | WordB => false
  end.

(** A number of characters of class [q] every match of [r] has. *)
Fixpoint least (q : ascii -> bool) (r : regex) : nat :=
  match r with
  | Eps => 0
  | Chr p => if subclass p q then 1 else 0
  | Rep p lo _ => if subclass p q then lo else 0
  | Opt _ => 0
  | Seq r1 r2 => least q r1 + least q r2
  | Grp r1 => least q r1
  | WordB => 0
  end.

(** A number of characters of class [q] no match of [r] exceeds; [None]
    when the pattern sets no bound. *)
Fixpoint most (q : ascii -> bool) (r : regex) : option nat :=
  match r with
  | Eps => Some 0
  | Chr p => if disjoint p q then Some 0 else Some 1
  | Rep p _ hi => if disjoint p q then Some 0 else hi
  | Opt r1 => most q r1
  | Seq r1 r2 =>
      match most q r1, most q r2 with
      | Some a, Some b => Some (a + b)
      | _, _ => None
      end
  | Grp r1 => most q r1
  | WordB => Some 0
  end.

(** The shape of an address: local part, [@], domain, a dot, and two or
    more letters (or bars). *)
Definition address_shape (w : string) : Prop :=
  exists l d t,
    w = (l ++ "@" ++ d ++ "." ++ t)%string /\
    1 <= String.length l /\ all_chars email_local l = true /\
    1 <= String.length d /\ all_chars email_domain d = true /\
    2 <= String.length t /\ all_chars email_tld t = true.

(** An entry of [emails] as the extractor makes it. *)
Definition email_entry (e : string) : Prop :=
  exists w, e = lower w /\ address_shape w.

Definition is_plus (c : ascii) : bool := one_of "+" c.

Definition phone_char (c : ascii) : bool :=
  is_digit c || one_of "+()-." c || is_space c.

(** An entry of [phones]: digits and punctuation only, nine to fifteen
    digits, seventeen characters at most. *)
Definition phone_entry (p : string) : Prop :=
  all_chars phone_char p = true /\
  9 <= count_chars is_digit p /\ count_chars is_digit p <= 15 /\
  String.length p <= 17.

(** The bounds of [phone_entry], computed on a pattern. *)
Definition phone_bounds (r : regex) : bool :=
  subclass (alphabet r) phone_char &&
  match most is_digit r, most is_plus r, most (fun _ => true) r with
  | Some digits, Some plus, Some chars =>
      Nat.leb digits 15 && Nat.leb plus 1 && Nat.leb chars 17
  | _, _, _ => false
  end.

(** An entry of [websites]: it starts like an address of the web, in any
    letter case, and does not contain [linkedin.com] in lower case. *)
Definition website_entry (w : string) : Prop :=
  (startswith "http://" (lower w) || startswith "https://" (lower w)
   || startswith "www." (lower w)) = true /\
  str_in "linkedin.com" w = false.

(** The three lists of a profile hold such entries only. *)
Definition contact_entries (p : Profile.LinkedInProfile) : Prop :=
  Forall email_entry (Profile.emails p) /\
  Forall phone_entry (Profile.phones p) /\
  Forall website_entry (Profile.websites p).

End Shape.

(** ** [stealth_browser.py] *)

Module Stealth.
Import PyStr Shape.

(** [BrowserConfig]: the settings the functions below read. *)
Record BrowserConfig : Type := mkBrowserConfig {
  headless : bool;
  timeout : Z;
  stealth_mode : bool;
  rotate_user_agent : bool;
  window_size : string;
  disable_images : bool
}.

(** What ends the creation of a browser: the [ImportError] of the missing
    module, the [ValueError] of the unpacking, the exception of a start
    that failed ([LaunchFailed]), or one raised by a browser that was
    started ([DriverError]). *)
Inductive launch_error : Type :=
| ImportError
| ValueError
| LaunchFailed
| DriverError.

Inductive launched (A : Type) : Type :=
| Started (a : A)
| Failed (e : launch_error).
Arguments Started {A} a.
Arguments Failed {A} e.

(** [s.split(sep)] for a separator of one character. *)
Fixpoint split_on (sep : ascii) (s : string) : list string :=
  match s with
  | EmptyString => [EmptyString]
  | String c s' =>
      if Ascii.eqb c sep then EmptyString :: split_on sep s'
      else
        match split_on sep s' with
        | piece :: pieces => String c piece :: pieces
        | [] => [String c EmptyString]
        end
  end.

(** [width, height = config.window_size.split(',')] followed by
    [f"--window-size={width},{height}"]; [None] is the [ValueError] of the
    unpacking. *)
Definition window_size_argument (config : BrowserConfig) : option string :=
  match split_on "," (window_size config) with
  | [width; height] => Some ("--window-size=" ++ width ++ "," ++ height)%string
  | _ => None
  end.

Definition is_comma (c : ascii) : bool := Ascii.eqb c ",".

(** The machine on which browsers are started, one operation for each
    call the functions make to the outside; [None] is an exception.
    - [uc_Chrome]: [uc.Chrome(options=options, version_main=None)], with
      the arguments added to the options;
    - [ChromeDriverManager_install]: [ChromeDriverManager().install()],
      the path of the driver;
    - [which_chromedriver]: [subprocess.run(['which', 'chromedriver'], ...)],
      the stripped output when the return code is 0;
    - [webdriver_Chrome]: [ChromeService(driver_path)] and
      [webdriver.Chrome(service=service, options=options)];
    - [set_timeouts]: [implicitly_wait] and [set_page_load_timeout];
    - [enhance_browser_stealth], which catches what its scripts raise;
    - [add_random_delay]. *)
Class Launcher : Type := {
  chrome : Type;
  machine : Type;
  STEALTH_AVAILABLE : bool;
  get_random_user_agent : machine -> machine * string;
  uc_Chrome : machine -> list string -> machine * option chrome;
  ChromeDriverManager_install : machine -> machine * option string;
  which_chromedriver : machine -> machine * option string;
  webdriver_Chrome : machine -> string -> list string -> machine * option chrome;
  set_timeouts : machine -> chrome -> Z -> machine * option unit;
  enhance_browser_stealth : machine -> chrome -> machine;
  add_random_delay : machine -> machine
}.

Section Functions.
Context {launcher : Launcher}.

(** The arguments [get_original_selenium_driver] adds to its options. *)
Definition original_arguments (config : BrowserConfig) : option (list string) :=
  let arguments := if headless config then ["--headless"] else [] in
  let arguments := arguments ++ ["--no-sandbox"; "--disable-dev-shm-usage"] in
  match window_size_argument config with
  | Some size => Some (arguments ++ [size])
  | None => None
  end.

(** The handler of [get_original_selenium_driver]: the driver of the
    system, when there is one. *)
Definition system_chromedriver (arguments : list string) (m : machine)
    : machine * option chrome :=
  let (m1, found) := which_chromedriver m in
  match found with
  | Some driver_path => webdriver_Chrome m1 driver_path arguments
  | None => (m1, None)
  end.

(** Its [try] with that handler: the driver of the manager first. *)
Definition managed_or_system_chromedriver (arguments : list string) (m : machine)
    : machine * option chrome :=
  let (m1, installed) := ChromeDriverManager_install m in
  match installed with
  | Some driver_path =>
      let (m2, driver) := webdriver_Chrome m1 driver_path arguments in
      match driver with
      | Some d => (m2, Some d)
      | None => system_chromedriver arguments m2
      end
  | None => system_chromedriver arguments m1
  end.

(** [get_original_selenium_driver] *)
Definition get_original_selenium_driver (config : BrowserConfig) (m : machine)
    : machine * launched chrome :=
  match original_arguments config with
  | None => (m, Failed ValueError)
  | Some arguments =>
      let (m1, driver) := managed_or_system_chromedriver arguments m in
      match driver with
      | None => (m1, Failed LaunchFailed)
      | Some d =>
          let (m2, done) := set_timeouts m1 d (timeout config) in
          match done with
          | Some _ => (m2, Started d)
          | None => (m2, Failed DriverError)
          end
      end
  end.

(** [get_undetected_chrome_driver] *)
Definition get_undetected_chrome_driver (config : BrowserConfig) (m : machine)
    : machine * launched chrome :=
  if negb STEALTH_AVAILABLE then (m, Failed ImportError)
  else
    let arguments := if headless config then ["--headless=new"] else [] in
    match window_size_argument config with
    | None => (m, Failed ValueError)
    | Some size =>
        let arguments :=
          arguments ++ [size] ++
          ["--no-first-run"; "--no-service-autorun"; "--password-store=basic"] in
        let (m1, arguments) :=
          if rotate_user_agent config then
            let (m1, user_agent) := get_random_user_agent m in
            (m1, arguments ++ [("--user-agent=" ++ user_agent)%string])
          else (m, arguments) in
        let (m2, driver) := uc_Chrome m1 arguments in
        match driver with
        | None => (m2, Failed LaunchFailed)
        | Some d =>
            let (m3, done) := set_timeouts m2 d (timeout config) in
            match done with
            | Some _ => (enhance_browser_stealth m3 d, Started d)
            | None => (m3, Failed DriverError)
            end
        end
    end.

(** The mode [create_enhanced_browser] settles on. *)
Definition settled_stealth (use_stealth : option bool) (config : BrowserConfig) : bool :=
  match use_stealth with
  | None => STEALTH_AVAILABLE && stealth_mode config
  | Some true => if negb STEALTH_AVAILABLE then false else true
  | Some false => false
  end.

(** The [try] block of [create_enhanced_browser] once the mode is settled. *)
Definition create_in_mode (use_stealth : bool) (config : BrowserConfig) (m : machine)
    : machine * launched chrome :=
  let (m1, driver) :=
    if use_stealth then get_undetected_chrome_driver config m
    else get_original_selenium_driver config m in
  match driver with
  | Started d => (add_random_delay m1, Started d)
  | Failed e => (m1, Failed e)
  end.

(** [create_enhanced_browser] for a given [config].  The call it makes to
    itself in the handler passes [use_stealth=False], which settles on the
    standard mode and whose own handler re-raises. *)
Definition create_enhanced_browser (use_stealth : option bool) (config : BrowserConfig)
    (m : machine) : machine * launched chrome :=
  let use_stealth := settled_stealth use_stealth config in
  let (m1, driver) := create_in_mode use_stealth config m in
  match driver with
  | Started d => (m1, Started d)
  | Failed e =>
      if use_stealth then create_in_mode false config m1
      else (m1, Failed e)
  end.
End Functions.

(** Any launcher, with the numbers of browsers it was asked to start, of
    each kind, kept beside its machine. *)
Record starts : Type := mkStarts {
  undetected_starts : nat;
  standard_starts : nat
}.

Definition counting_starts (base : Launcher) : Launcher := {|
  chrome := @chrome base;
  machine := (@machine base * starts)%type;
  STEALTH_AVAILABLE := @STEALTH_AVAILABLE base;
  get_random_user_agent := fun m =>
    let (m', user_agent) := @get_random_user_agent base (fst m) in
    ((m', snd m), user_agent);
  uc_Chrome := fun m arguments =>
    let (m', driver) := @uc_Chrome base (fst m) arguments in
    ((m', mkStarts (S (undetected_starts (snd m))) (standard_starts (snd m))), driver);
  ChromeDriverManager_install := fun m =>
    let (m', installed) := @ChromeDriverManager_install base (fst m) in
    ((m', snd m), installed);
  which_chromedriver := fun m =>
    let (m', found) := @which_chromedriver base (fst m) in
    ((m', snd m), found);
  webdriver_Chrome := fun m driver_path arguments =>
    let (m', driver) := @webdriver_Chrome base (fst m) driver_path arguments in
    ((m', mkStarts (undetected_starts (snd m)) (S (standard_starts (snd m)))), driver);
  set_timeouts := fun m d seconds =>
    let (m', done) := @set_timeouts base (fst m) d seconds in
    ((m', snd m), done);
  enhance_browser_stealth := fun m d => (@enhance_browser_stealth base (fst m) d, snd m);
  add_random_delay := fun m => (@add_random_delay base (fst m), snd m)
|}.

(** What [create_enhanced_browser] does with the starts, from the count
    [before] to the one of its result [r], in the mode [settled]. *)
Definition starts_accounted {base : Launcher} (settled : bool) (before : starts)
    (r : @machine (counting_starts base) * launched (@chrome base)) : Prop :=
  let after := snd (fst r) in
  (undetected_starts before <= undetected_starts after /\
   undetected_starts after <= 1 + undetected_starts before) /\
  (standard_starts before <= standard_starts after /\
   standard_starts after <= 2 + standard_starts before) /\
  (settled = false -> undetected_starts after = undetected_starts before) /\
  (settled = true -> snd r <> Failed ValueError ->
   undetected_starts after = 1 + undetected_starts before) /\
  match snd r with
  | Failed ImportError => False
  | Failed ValueError => after = before
  | Failed LaunchFailed => True
  | Failed DriverError => 1 + standard_starts before <= standard_starts after
  | Started _ =>
      1 + undetected_starts before + standard_starts before
      <= undetected_starts after + standard_starts after
  end.

(** A launcher for running the functions: the undetected browser does not
    start, nor does the standard one on the driver of the manager; it does
    on the driver of the system. *)
Definition plain_launcher : Launcher := {|
  chrome := list string;
  machine := unit;
  STEALTH_AVAILABLE := true;
  get_random_user_agent := fun m => (m, "Mozilla/5.0");
  uc_Chrome := fun m _ => (m, None);
  ChromeDriverManager_install := fun m => (m, Some "/root/.wdm/chromedriver");
  which_chromedriver := fun m => (m, Some "/usr/bin/chromedriver");
  webdriver_Chrome := fun m driver_path arguments =>
    (m, if String.eqb driver_path "/usr/bin/chromedriver" then Some arguments else None);
  set_timeouts := fun m _ _ => (m, Some tt);
  enhance_browser_stealth := fun m _ => m;
  add_random_delay := fun m => m
|}.

End Stealth.

(** * Reasoning about the methods *)

(** ** The rules of the program logic *)

Module LogicFacts.
Import Exn Logic.

Section Triples.
Context {S : Type}.


Lemma triple_conseq {A : Type} (P P' : S -> Prop) (m : M S A)
    (Q Q' : A -> S -> Prop) (E E' : exn -> S -> Prop) :
  triple P m Q E ->
  (forall s, P' s -> P s) ->
  (forall a s, Q a s -> Q' a s) ->
  (forall e s, E e s -> E' e s) ->
  triple P' m Q' E'.
Proof.
  intros Hm HP HQ HE s Hs. specialize (Hm s (HP s Hs)).
  destruct (m s) as [s' [a|e]]; auto.
Qed.

Lemma triple_ret {A : Type} (P : S -> Prop) (a : A) (Q : A -> S -> Prop) E :
  (forall s, P s -> Q a s) -> triple P (ret a) Q E.
Proof. intros H s Hs. simpl. auto. Qed.

Lemma triple_bind {A B : Type} (P : S -> Prop) (m : M S A) (f : A -> M S B)
    (R : A -> S -> Prop) (Q : B -> S -> Prop) E :
  triple P m R E ->
  (forall a, triple (R a) (f a) Q E) ->
  triple P (bind m f) Q E.
Proof.
  intros Hm Hf s Hs. unfold bind. specialize (Hm s Hs).
  destruct (m s) as [s' [a|e]]; [apply Hf; exact Hm | exact Hm].
Qed.

Lemma triple_try {A : Type} (P : S -> Prop) (m h : M S A) (catches : exn -> bool)
    (Q : A -> S -> Prop) (E' E : exn -> S -> Prop) :
  triple P m Q E' ->
  triple (fun s => exists e, catches e = true /\ E' e s) h Q E ->
  (forall e s, catches e = false -> E' e s -> E e s) ->
  triple P (try_except m catches h) Q E.
Proof.
  intros Hm Hh Hpass s Hs. unfold try_except. specialize (Hm s Hs).
  destruct (m s) as [s' [a|e]]; [exact Hm|].
  destruct (catches e) eqn:Hc.
  - apply Hh. exists e. split; assumption.
  - apply Hpass; assumption.
Qed.

Lemma triple_gets {A : Type} (P : S -> Prop) (f : S -> A) (Q : A -> S -> Prop) E :
  (forall s, P s -> Q (f s) s) -> triple P (gets f) Q E.
Proof. intros H s Hs. simpl. auto. Qed.

Lemma triple_modify (P : S -> Prop) (f : S -> S) (Q : unit -> S -> Prop) E :
  (forall s, P s -> Q tt (f s)) -> triple P (modify f) Q E.
Proof. intros H s Hs. simpl. auto. Qed.


Lemma keeps_ret {A : Type} (I : S -> Prop) (a : A) : keeps I (ret a).
Proof. apply triple_ret. auto. Qed.

Lemma keeps_bind {A B : Type} (I : S -> Prop) (m : M S A) (f : A -> M S B) :
  keeps I m -> (forall a, keeps I (f a)) -> keeps I (bind m f).
Proof. intros Hm Hf. eapply triple_bind; [exact Hm | exact Hf]. Qed.

Lemma keeps_try {A : Type} (I : S -> Prop) (m h : M S A) catches :
  keeps I m -> keeps I h -> keeps I (try_except m catches h).
Proof.
  intros Hm Hh. eapply triple_try; [exact Hm | | auto].
  eapply triple_conseq; [exact Hh | | auto | auto].
  intros s [e [_ Hs]]. exact Hs.
Qed.

Lemma keeps_for_each {A : Type} (I : S -> Prop) (l : list A) (body : A -> M S bool) :
  (forall x, keeps I (body x)) -> keeps I (for_each l body).
Proof.
  intros Hb. induction l as [|x l IH]; simpl.
  - apply keeps_ret.
  - apply keeps_bind; [apply Hb|]. intros [|]; [apply keeps_ret | exact IH].
Qed.

Lemma keeps_gets {A : Type} (I : S -> Prop) (f : S -> A) : keeps I (gets f).
Proof. apply triple_gets. auto. Qed.

Lemma keeps_ask {A : Type} (I : S -> Prop) (f : S -> result A) : keeps I (ask f).
Proof. intros s Hs. unfold ask. destruct (f s); exact Hs. Qed.

Lemma keeps_modify (I : S -> Prop) (f : S -> S) :
  (forall s, I s -> I (f s)) -> keeps I (modify f).
Proof. intros H. apply triple_modify. exact H. Qed.

Lemma keeps_when (I : S -> Prop) (c : bool) (m : M S unit) :
  (c = true -> keeps I m) -> keeps I (when c m).
Proof. destruct c; simpl; intros H; [auto | apply keeps_ret]. Qed.


Lemma triple_any {A : Type} (m : M S A) :
  triple (fun _ => True) m (fun _ _ => True) (fun _ _ => True).
Proof. intros s _. destruct (m s) as [s' [a|e]]; trivial. Qed.

Lemma safe_ret {A : Type} (a : A) : safe (ret (S:=S) a).
Proof. apply triple_ret. auto. Qed.

Lemma safe_bind {A B : Type} (m : M S A) (f : A -> M S B) :
  safe m -> (forall a, safe (f a)) -> safe (bind m f).
Proof. intros Hm Hf. eapply triple_bind; [exact Hm | intros a; apply Hf]. Qed.

Lemma safe_try_any {A : Type} (m h : M S A) :
  safe h -> safe (try_except m any_exception h).
Proof.
  intros Hh. apply triple_try with (E' := fun _ _ => True).
  - apply triple_any.
  - eapply triple_conseq; [exact Hh | | | ]; simpl; auto.
  - intros e s Hc. discriminate Hc.
Qed.

Lemma safe_for_each {A : Type} (l : list A) (body : A -> M S bool) :
  (forall x, safe (body x)) -> safe (for_each l body).
Proof.
  intros Hb. induction l as [|x l IH]; simpl.
  - apply safe_ret.
  - apply safe_bind; [apply Hb|]. intros [|]; [apply safe_ret | exact IH].
Qed.

Lemma safe_modify (f : S -> S) : safe (modify f).
Proof. apply triple_modify. auto. Qed.

Lemma safe_gets {A : Type} (f : S -> A) : safe (gets f).
Proof. apply triple_gets. auto. Qed.

Lemma mild_ret {A : Type} (a : A) : mild (ret (S:=S) a).
Proof. apply triple_ret. auto. Qed.

Lemma mild_bind {A B : Type} (m : M S A) (f : A -> M S B) :
  mild m -> (forall a, mild (f a)) -> mild (bind m f).
Proof. intros Hm Hf. eapply triple_bind; [exact Hm | intros a; apply Hf]. Qed.

Lemma mild_for_each {A : Type} (l : list A) (body : A -> M S bool) :
  (forall x, mild (body x)) -> mild (for_each l body).
Proof.
  intros Hb. induction l as [|x l IH]; simpl.
  - apply mild_ret.
  - apply mild_bind; [apply Hb|]. intros [|]; [apply mild_ret | exact IH].
Qed.

Lemma mild_modify (f : S -> S) : mild (modify f).
Proof. apply triple_modify. auto. Qed.

Lemma mild_ask {A : Type} (f : S -> result A) :
  (forall s, f s <> Raise WebDriverException) -> mild (ask f).
Proof.
  intros H s _. unfold ask. specialize (H s).
  destruct (f s) as [a|[|]]; [trivial | reflexivity | exfalso; apply H; reflexivity].
Qed.

Lemma safe_try_no_such_element {A : Type} (m h : M S A) :
  mild m -> safe h -> safe (try_except m no_such_element h).
Proof.
  intros Hm Hh. apply triple_try with (E' := fun e _ => e = NoSuchElementException).
  - exact Hm.
  - eapply triple_conseq; [exact Hh | | | ]; simpl; auto.
  - intros e s Hc He. subst e. discriminate Hc.
Qed.

Lemma safe_ask {A : Type} (f : S -> result A) :
  (forall s, exists a, f s = Ok a) -> safe (ask f).
Proof.
  intros H s _. unfold ask. destruct (H s) as [a Ha]. rewrite Ha. trivial.
Qed.

Lemma safe_run {A : Type} (m : M S A) (s : S) :
  safe m -> exists s' a, m s = (s', Ok a).
Proof.
  intros H. unfold safe, triple in H. specialize (H s).
  destruct (m s) as [s' [a|e]]; [eauto | destruct H; trivial].
Qed.
End Triples.

End LogicFacts.

(** ** Strings and lists *)

Module StrFacts.
Import PyStr.

Lemma truthy_true_iff (s : string) : truthy s = true <-> s <> EmptyString.
Proof.
  destruct s; simpl; split; intros H; try reflexivity; try discriminate.
  exfalso. apply H. reflexivity.
Qed.

Lemma list_in_true_iff (x : string) (l : list string) :
  list_in x l = true <-> In x l.
Proof.
  unfold list_in. rewrite existsb_exists. split.
  - intros [y [Hy Heq]]. apply String.eqb_eq in Heq. subst y. exact Hy.
  - intros H. exists x. split; [exact H | apply String.eqb_refl].
Qed.

Lemma list_in_false_iff (x : string) (l : list string) :
  list_in x l = false <-> ~ In x l.
Proof.
  rewrite <- list_in_true_iff. destruct (list_in x l); split; intros H;
    try reflexivity; try discriminate.
  exfalso. apply H. reflexivity.
Qed.

End StrFacts.

(** ** The patterns on sample text *)

Module PatternExamples.
Import Re Patterns.

Example findall_email_word :
  findall (email_word true) "Contact: jane@Example.COM, bob.smith+x@mail.example.co.uk."
  = ["jane@Example.COM"; "bob.smith+x@mail.example.co.uk"].
Proof. vm_compute. reflexivity. Qed.

Example findall_email_mailto :
  findall (email_mailto true) "<a href='MAILTO:Q@W.io'>write</a>" = ["Q@W.io"].
Proof. vm_compute. reflexivity. Qed.

(** The US pattern takes the separator that precedes the number. *)
Example findall_phone_us :
  findall (phone_us false) "call (415) 555-0100 or +1 415-555-0199"
  = [" (415) 555-0100"; "+1 415-555-0199"].
Proof. vm_compute. reflexivity. Qed.

Example findall_phone_intl :
  findall (phone_intl false) "+123456789 and +4915112345678901234"
  = ["+123456789"; "+491511234567890"].
Proof. vm_compute. reflexivity. Qed.

Example findall_phone_paren :
  findall (phone_paren false) "call (415) 555-0100, (212)555-9876"
  = ["(415) 555-0100"; "(212)555-9876"].
Proof. vm_compute. reflexivity. Qed.

Example findall_url_http :
  findall (url_http true)
          "visit https://janedoe.dev or HTTP://h:8080/p/q_r.html?x=%20&y=1#top."
  = ["https://janedoe.dev"; "HTTP://h:8080/p/q_r.html?x=%20&y=1#top."].
Proof. vm_compute. reflexivity. Qed.

Example findall_url_www :
  findall (url_www true) "see www.Foo-bar.ORG." = ["www.Foo-bar.ORG"].
Proof. vm_compute. reflexivity. Qed.

End PatternExamples.

(** ** The dataclass *)

Module ProfileFacts.
Import PyStr Profile Spec Samples.

(** C9.  After construction each of the five contact lists is a list: the
    one that was passed, or the empty list when the argument was left at
    [None]; a default-constructed profile has all five empty. *)
Theorem contact_lists_after_construction (now : string) (a : InitArgs) :
  emails (construct now a) = match arg_emails a with Some l => l | None => [] end /\
  phones (construct now a) = match arg_phones a with Some l => l | None => [] end /\
  websites (construct now a) = match arg_websites a with Some l => l | None => [] end /\
  social_links (construct now a) =
    match arg_social_links a with Some l => l | None => [] end /\
  addresses (construct now a) = match arg_addresses a with Some l => l | None => [] end /\
  contact_lists_empty (new_profile now).
Proof.
  unfold construct, __post_init__, list_or_empty, contact_lists_empty; simpl.
  destruct (arg_emails a), (arg_phones a), (arg_websites a),
    (arg_social_links a), (arg_addresses a); repeat split; reflexivity.
Qed.

Lemma new_profile_unsuccessful (now : string) :
  extraction_success (new_profile now) = false /\
  full_name (new_profile now) = EmptyString.
Proof. split; reflexivity. Qed.

(** Direct construction stores the flag it was given. *)
Lemma construct_keeps_flag (now : string) (a : InitArgs) :
  extraction_success (construct now a) = arg_extraction_success a /\
  full_name (construct now a) = arg_full_name a.
Proof. split; reflexivity. Qed.

(** C1, as stated, fails for direct construction: the profile of the
    repository's own test has a name and an unset flag. *)
Lemma direct_construction_breaks_success_iff_name :
  ~ success_iff_name (construct clock john_doe_args).
Proof.
  unfold success_iff_name. simpl. intros [_ H].
  assert (Hne : "John Doe" <> EmptyString) by discriminate.
  specialize (H Hne). discriminate H.
Qed.

End ProfileFacts.

(** ** The contact loops *)

Module ContactFacts.
Import PyStr Re Patterns Contact Spec StrFacts.

Lemma NoDup_snoc (l : list string) (x : string) :
  NoDup l -> ~ In x l -> NoDup (l ++ [x]).
Proof.
  intros Hl Hx. apply NoDup_app.
  - exact Hl.
  - constructor; [intros [] | constructor].
  - intros a Ha [Heq | []]. subst a. exact (Hx Ha).
Qed.

(** *** Websites *)

Lemma append_websites_origin (found websites : list string) (w : string) :
  In w (append_websites found websites) ->
  In w websites \/ (In w found /\ str_in "linkedin.com" w = false).
Proof.
  revert websites. induction found as [|x found IH]; intros websites H; simpl in H.
  - left. exact H.
  - destruct (negb (list_in x websites) && negb (str_in "linkedin.com" x)) eqn:Hc.
    + apply andb_true_iff in Hc. destruct Hc as [_ Hself].
      apply negb_true_iff in Hself.
      destruct (IH _ H) as [Hin | [Hin Hw]].
      * apply in_app_iff in Hin. destruct Hin as [Hin | [Heq | []]].
        -- left. exact Hin.
        -- subst x. right. split; [left; reflexivity | exact Hself].
      * right. split; [right; exact Hin | exact Hw].
    + destruct (IH _ H) as [Hin | [Hin Hw]].
      * left. exact Hin.
      * right. split; [right; exact Hin | exact Hw].
Qed.

Lemma append_websites_NoDup (found websites : list string) :
  NoDup websites -> NoDup (append_websites found websites).
Proof.
  revert websites. induction found as [|x found IH]; intros websites H; simpl.
  - exact H.
  - destruct (negb (list_in x websites) && negb (str_in "linkedin.com" x)) eqn:Hc.
    + apply IH. apply andb_true_iff in Hc. destruct Hc as [Hnew _].
      apply negb_true_iff in Hnew. apply list_in_false_iff in Hnew.
      apply NoDup_snoc; assumption.
    + apply IH. exact H.
Qed.

Lemma append_websites_extends (found websites : list string) (w : string) :
  In w websites -> In w (append_websites found websites).
Proof.
  revert websites. induction found as [|x found IH]; intros websites H; simpl.
  - exact H.
  - destruct (negb (list_in x websites) && negb (str_in "linkedin.com" x)).
    + apply IH. apply in_app_iff. left. exact H.
    + apply IH. exact H.
Qed.

Lemma append_websites_collects (found websites : list string) (w : string) :
  In w found -> str_in "linkedin.com" w = false ->
  In w (append_websites found websites).
Proof.
  revert websites. induction found as [|x found IH]; intros websites H Hw; simpl.
  - destruct H.
  - destruct H as [Heq | H].
    + subst x. rewrite Hw. simpl. rewrite andb_true_r.
      destruct (list_in w websites) eqn:Hin; simpl.
      * apply append_websites_extends. apply list_in_true_iff. exact Hin.
      * apply append_websites_extends. apply in_app_iff. right. left. reflexivity.
    + destruct (negb (list_in x websites) && negb (str_in "linkedin.com" x));
        apply IH; assumption.
Qed.

Lemma append_websites_stable (found websites : list string) :
  (forall w, In w found -> str_in "linkedin.com" w = false -> In w websites) ->
  append_websites found websites = websites.
Proof.
  induction found as [|x found IH]; intros H; simpl.
  - reflexivity.
  - destruct (str_in "linkedin.com" x) eqn:Hself.
    + rewrite andb_false_r. apply IH. intros w Hw. apply H. right. exact Hw.
    + assert (Hin : list_in x websites = true).
      { apply list_in_true_iff. apply H; [left; reflexivity | exact Hself]. }
      rewrite Hin. simpl. apply IH. intros w Hw. apply H. right. exact Hw.
Qed.

(** No website collected by the Sales Navigator step is a self-link, and
    the step adds no website twice. *)
Lemma extract_websites_no_self_link (page_source : string) (websites : list string)
    (w : string) :
  In w (extract_websites page_source websites) ->
  In w websites \/ str_in "linkedin.com" w = false.
Proof.
  unfold extract_websites, url_patterns. simpl. intros H.
  apply append_websites_origin in H. destruct H as [H | [_ H]]; [|right; exact H].
  apply append_websites_origin in H. destruct H as [H | [_ H]]; [left | right]; exact H.
Qed.

Lemma extract_websites_NoDup (page_source : string) (websites : list string) :
  NoDup websites -> NoDup (extract_websites page_source websites).
Proof.
  intros H. unfold extract_websites, url_patterns. simpl.
  apply append_websites_NoDup. apply append_websites_NoDup. exact H.
Qed.

(** The website step alone does reach a fixed point on a second run. *)
Lemma extract_websites_idempotent (page_source : string) (websites : list string) :
  extract_websites page_source (extract_websites page_source websites) =
  extract_websites page_source websites.
Proof.
  unfold extract_websites, url_patterns. simpl.
  set (f1 := findall (url_http true) page_source).
  set (f2 := findall (url_www true) page_source).
  set (once := append_websites f2 (append_websites f1 websites)).
  assert (H1 : append_websites f1 once = once).
  { apply append_websites_stable. intros w Hw Hself. unfold once.
    apply append_websites_extends. apply append_websites_collects; assumption. }
  rewrite H1. apply append_websites_stable. intros w Hw Hself. unfold once.
  apply append_websites_collects; assumption.
Qed.

(** The regular-profile flow filters self-links too. *)
Lemma extend_websites_no_self_link (found websites : list string) (w : string) :
  In w (extend_websites found websites) ->
  In w websites \/ str_in "linkedin.com" w = false.
Proof.
  unfold extend_websites. intros H. apply in_app_iff in H.
  destruct H as [H | H]; [left; exact H|].
  apply filter_In in H. destruct H as [_ H]. apply andb_true_iff in H.
  destruct H as [_ H]. apply negb_true_iff in H. right. exact H.
Qed.

(** *** Phones *)

Lemma append_phones_origin (found phones : list string) (phone : string) :
  In phone (append_phones found phones) ->
  In phone phones \/
  (In phone found /\ 10 <= String.length (cleaned_phone phone)).
Proof.
  revert phones. induction found as [|x found IH]; intros phones H;
    cbn [append_phones] in H.
  - left. exact H.
  - destruct (Nat.leb 10 (String.length (cleaned_phone x))
              && negb (list_in (cleaned_phone x) phones)) eqn:Hc.
    + apply andb_true_iff in Hc. destruct Hc as [Hlen _].
      apply Nat.leb_le in Hlen.
      destruct (IH _ H) as [Hin | [Hin Hk]].
      * apply in_app_iff in Hin. destruct Hin as [Hin | [Heq | []]].
        -- left. exact Hin.
        -- subst x. right. split; [left; reflexivity | exact Hlen].
      * right. split; [right; exact Hin | exact Hk].
    + destruct (IH _ H) as [Hin | [Hin Hk]].
      * left. exact Hin.
      * right. split; [right; exact Hin | exact Hk].
Qed.

(** C4, as stated, fails: a nine-digit international number is kept,
    because the comparison key keeps the plus sign and so has length ten. *)
Lemma nine_digit_phone_is_kept :
  ~ (forall phone, In phone (extract_phones "+123456789" []) ->
       10 <= String.length (digits_only phone)).
Proof.
  intros H. specialize (H "+123456789").
  assert (Hin : In "+123456789" (extract_phones "+123456789" [])).
  { vm_compute. left. reflexivity. }
  specialize (H Hin). vm_compute in H. lia.
Qed.

(** C4, amended.  Every phone the step adds is a match of one of the
    three patterns, kept as matched, and its comparison key (the match
    without the characters other than digits and plus signs) has length
    at least ten. *)
Theorem phones_kept_as_matched_with_long_key
    (page_source : string) (phones : list string) (phone : string) :
  In phone (extract_phones page_source phones) ->
  In phone phones \/
  ((exists pattern, In pattern phone_patterns /\
                    In phone (findall pattern page_source)) /\
   10 <= String.length (cleaned_phone phone)).
Proof.
  unfold extract_phones, phone_patterns. simpl. intros H.
  apply append_phones_origin in H. destruct H as [H | [H Hk]].
  - apply append_phones_origin in H. destruct H as [H | [H Hk]].
    + apply append_phones_origin in H. destruct H as [H | [H Hk]].
      * left. exact H.
      * right. split; [|exact Hk]. exists (phone_us false). simpl. auto.
    + right. split; [|exact Hk]. exists (phone_intl false). simpl. auto.
  - right. split; [|exact Hk]. exists (phone_paren false). simpl. auto.
Qed.

Lemma phones_kept_as_matched_with_long_key_witness :
  In "+123456789" [] \/
  ((exists pattern, In pattern phone_patterns /\
                    In "+123456789" (findall pattern "+123456789")) /\
   10 <= String.length (cleaned_phone "+123456789")).
Proof.
  apply (phones_kept_as_matched_with_long_key "+123456789" [] "+123456789").
  vm_compute. left. reflexivity.
Defined.

(** The comparison with the collected phones is made on the key against
    the stored matches, so a number written with punctuation is added
    again each time it is met. *)
Lemma punctuated_phone_is_added_twice :
  extract_phones "(415) 555-0100 (415) 555-0100" [] =
  ["(415) 555-0100"; " (415) 555-0100"; "(415) 555-0100"; "(415) 555-0100"].
Proof. vm_compute. reflexivity. Qed.

(** *** Emails *)

Lemma lower_char_idempotent (c : ascii) : lower_char (lower_char c) = lower_char c.
Proof.
  destruct c as [[|] [|] [|] [|] [|] [|] [|] [|]]; vm_compute; reflexivity.
Qed.

Lemma lower_idempotent (s : string) : lower (lower s) = lower s.
Proof.
  induction s as [|c s IH]; simpl; [reflexivity|].
  rewrite lower_char_idempotent, IH. reflexivity.
Qed.

Lemma append_emails_origin (found emails : list string) (e : string) :
  In e (append_emails found emails) ->
  In e emails \/ (exists m, In m found /\ e = lower m).
Proof.
  revert emails. induction found as [|x found IH]; intros emails H; simpl in H.
  - left. exact H.
  - destruct (negb (list_in x emails) && str_in "@" x).
    + destruct (IH _ H) as [Hin | [m [Hm He]]].
      * apply in_app_iff in Hin. destruct Hin as [Hin | [Heq | []]].
        -- left. exact Hin.
        -- right. exists x. split; [left; reflexivity | symmetry; exact Heq].
      * right. exists m. split; [right; exact Hm | exact He].
    + destruct (IH _ H) as [Hin | [m [Hm He]]].
      * left. exact Hin.
      * right. exists m. split; [right; exact Hm | exact He].
Qed.

(** The normalisation holds: whatever the step adds is in lower case. *)
Lemma extract_emails_lowercase (page_source : string) (e : string) :
  In e (extract_emails page_source []) -> lower e = e.
Proof.
  unfold extract_emails, email_patterns. simpl. intros H.
  apply append_emails_origin in H. destruct H as [H | [m [_ He]]].
  - apply append_emails_origin in H. destruct H as [[] | [m [_ He]]].
    subst e. apply lower_idempotent.
  - subst e. apply lower_idempotent.
Qed.

(** C2.  The membership test is made on the match as found, the stored
    value is its lower-case form: an address written with a capital is
    added once per occurrence. *)
Theorem email_with_capitals_is_added_per_occurrence :
  extract_emails "Jane@Example.COM Jane@Example.COM" [] =
    ["jane@example.com"; "jane@example.com"] /\
  extract_emails "jane@example.com jane@example.com" [] = ["jane@example.com"].
Proof. split; vm_compute; reflexivity. Qed.

(** The lists are not fixed by a second run: over the markup of the
    specification's own scenario the address and the phone numbers are
    stored again, entries that the lists already hold. *)
Example second_run_repeats_entries :
  let markup :=
    "Contact: jane@Example.COM, call (415) 555-0100, visit https://janedoe.dev" in
  let once := pattern_extraction markup ([], [], []) in
  once = (["jane@example.com"],
          [" (415) 555-0100"; "(415) 555-0100"],
          ["https://janedoe.dev"]) /\
  pattern_extraction markup once =
         (["jane@example.com"; "jane@example.com"],
          [" (415) 555-0100"; "(415) 555-0100"; " (415) 555-0100"; "(415) 555-0100"],
          ["https://janedoe.dev"]).
Proof. split; vm_compute; reflexivity. Qed.

End ContactFacts.

(** ** A second run over the same markup *)

Module RerunFacts.
Import PyStr Re Patterns Contact Spec StrFacts.

(** The three loops have one form: an entry found passes a test of its
    own, its key is looked up in the list, and a form of it is stored. *)
Section Loop.
Variable passes : string -> bool.
Variables key stored : string -> string.
Variable loop : list string -> list string -> list string.
Hypothesis loop_nil : forall l, loop [] l = l.
Hypothesis loop_cons :
  forall x found l,
    loop (x :: found) l =
    loop found (if passes x && negb (list_in (key x) l) then l ++ [stored x] else l).

Lemma loop_continues (found : list string) :
  forall l, continues l (loop found l).
Proof.
  induction found as [|x found IH]; intros l.
  - exists []. rewrite loop_nil, app_nil_r. reflexivity.
  - rewrite loop_cons. destruct (passes x && negb (list_in (key x) l)).
    + destruct (IH (l ++ [stored x])) as [added H]. exists (stored x :: added).
      rewrite H, <- app_assoc. reflexivity.
    + apply IH.
Qed.

Lemma loop_incl (found l : list string) : incl l (loop found l).
Proof.
  destruct (loop_continues found l) as [added H]. rewrite H.
  apply incl_appl. apply incl_refl.
Qed.

(** After the loop, each entry that passes its test has its key or its
    stored form in the list. *)
Lemma loop_settles (found : list string) :
  forall l x,
    In x found -> passes x = true ->
    In (key x) (loop found l) \/ In (stored x) (loop found l).
Proof.
  induction found as [|y found IH]; intros l x Hin Hp; [destruct Hin|].
  rewrite loop_cons. destruct Hin as [->|Hin].
  - rewrite Hp. cbn [andb]. destruct (list_in (key x) l) eqn:Hk; cbn [negb].
    + left. apply loop_incl. apply list_in_true_iff. exact Hk.
    + right. apply loop_incl. apply in_or_app. right. left. reflexivity.
  - apply IH; assumption.
Qed.

(** On a list with the entries of a settled one, the loop adds nothing
    new. *)
Lemma loop_inside (found settled : list string) :
  (forall x, In x found -> passes x = true ->
             In (key x) settled \/ In (stored x) settled) ->
  forall l, incl settled l -> incl l settled -> incl (loop found l) settled.
Proof.
  induction found as [|x found IH]; intros Hset l Hsub Hsup.
  - rewrite loop_nil. exact Hsup.
  - rewrite loop_cons.
    assert (Hrest : forall y, In y found -> passes y = true ->
                              In (key y) settled \/ In (stored y) settled).
    { intros y Hy. apply Hset. right. exact Hy. }
    destruct (passes x) eqn:Hp; cbn [andb]; [|apply IH; assumption].
    destruct (list_in (key x) l) eqn:Hk; cbn [negb]; [apply IH; assumption|].
    assert (Hin : In (stored x) settled).
    { destruct (Hset x (or_introl eq_refl) Hp) as [H|H]; [|exact H].
      apply Hsub in H. apply list_in_true_iff in H. rewrite H in Hk. discriminate Hk. }
    apply IH; [exact Hrest | |].
    + apply incl_appl. exact Hsub.
    + apply incl_app; [exact Hsup|]. intros y [<-|[]]. exact Hin.
Qed.

(** The loops of several patterns, one after the other. *)
Lemma loops_continue (founds : list (list string)) :
  forall l, continues l (fold_left (fun acc found => loop found acc) founds l).
Proof.
  induction founds as [|found founds IH]; intros l; cbn [fold_left].
  - exists []. rewrite app_nil_r. reflexivity.
  - destruct (loop_continues found l) as [a1 H1].
    destruct (IH (loop found l)) as [a2 H2].
    exists (a1 ++ a2). rewrite H2, H1, app_assoc. reflexivity.
Qed.

Lemma loops_incl (founds : list (list string)) (l : list string) :
  incl l (fold_left (fun acc found => loop found acc) founds l).
Proof.
  destruct (loops_continue founds l) as [added H]. rewrite H.
  apply incl_appl. apply incl_refl.
Qed.

Lemma loops_settle (founds : list (list string)) :
  forall l found x,
    In found founds -> In x found -> passes x = true ->
    In (key x) (fold_left (fun acc found => loop found acc) founds l) \/
    In (stored x) (fold_left (fun acc found => loop found acc) founds l).
Proof.
  induction founds as [|found0 founds IH]; intros l found x Hf Hx Hp; [destruct Hf|].
  cbn [fold_left]. destruct Hf as [->|Hf].
  - destruct (@loop_settles found l x Hx Hp) as [H|H]; [left | right];
      apply loops_incl; exact H.
  - apply IH with (found := found); assumption.
Qed.

Lemma loops_inside (founds : list (list string)) (settled : list string) :
  (forall found x, In found founds -> In x found -> passes x = true ->
                   In (key x) settled \/ In (stored x) settled) ->
  forall l, incl settled l -> incl l settled ->
            incl (fold_left (fun acc found => loop found acc) founds l) settled.
Proof.
  induction founds as [|found founds IH]; intros Hset l Hsub Hsup; cbn [fold_left].
  - exact Hsup.
  - apply IH.
    + intros f x Hf. apply Hset. right. exact Hf.
    + intros y Hy. apply loop_incl. apply Hsub. exact Hy.
    + apply loop_inside; [|exact Hsub|exact Hsup].
      intros x Hx. apply (Hset found x). left. reflexivity. exact Hx.
Qed.

Lemma loops_rerun (founds : list (list string)) (l : list string) :
  same_entries
    (fold_left (fun acc found => loop found acc) founds l)
    (fold_left (fun acc found => loop found acc) founds
       (fold_left (fun acc found => loop found acc) founds l)) /\
  continues
    (fold_left (fun acc found => loop found acc) founds l)
    (fold_left (fun acc found => loop found acc) founds
       (fold_left (fun acc found => loop found acc) founds l)).
Proof.
  split; [|apply loops_continue].
  intros x. split.
  - apply loops_incl.
  - apply loops_inside; [|apply incl_refl|apply incl_refl].
    intros found y Hf Hy Hp. apply loops_settle with (found := found); assumption.
Qed.
End Loop.

Lemma append_emails_loop (x : string) (found l : list string) :
  append_emails (x :: found) l =
  append_emails found
    (if str_in "@" x && negb (list_in x l) then l ++ [lower x] else l).
Proof. cbn [append_emails]. rewrite andb_comm. destruct (_ && _); reflexivity. Qed.

Lemma append_phones_loop (x : string) (found l : list string) :
  append_phones (x :: found) l =
  append_phones found
    (if Nat.leb 10 (String.length (cleaned_phone x))
        && negb (list_in (cleaned_phone x) l)
     then l ++ [x] else l).
Proof. cbn [append_phones]. destruct (_ && _); reflexivity. Qed.

Lemma append_websites_loop (x : string) (found l : list string) :
  append_websites (x :: found) l =
  append_websites found
    (if negb (str_in "linkedin.com" x) && negb (list_in x l) then l ++ [x] else l).
Proof. cbn [append_websites]. rewrite andb_comm. destruct (_ && _); reflexivity. Qed.

(** C7.  Running the three pattern steps a second time over the same
    markup, on the lists the first run left, changes none of the three
    sets: every entry of the second run's lists is an entry of the first
    run's.  The first run's entries stay first and in their order, that
    of first occurrence; what a second run can add are repeats of
    entries already stored. *)
Theorem second_run_keeps_the_sets (page_source : string)
    (lists : list string * list string * list string) :
  second_run_stable (pattern_extraction page_source lists)
    (pattern_extraction page_source (pattern_extraction page_source lists)).
Proof.
  destruct lists as [[emails phones] websites].
  unfold second_run_stable, pattern_extraction. split; [|split].
  - exact (loops_rerun (str_in "@") (fun x => x) lower append_emails
             (fun l => eq_refl) append_emails_loop
             (map (fun pattern => findall pattern page_source) email_patterns) emails).
  - exact (loops_rerun (fun x => Nat.leb 10 (String.length (cleaned_phone x)))
             cleaned_phone (fun x => x) append_phones
             (fun l => eq_refl) append_phones_loop
             (map (fun pattern => findall pattern page_source) phone_patterns) phones).
  - exact (loops_rerun (fun x => negb (str_in "linkedin.com" x)) (fun x => x)
             (fun x => x) append_websites
             (fun l => eq_refl) append_websites_loop
             (map (fun pattern => findall pattern page_source) url_patterns) websites).
Qed.

End RerunFacts.

(** ** The Page Classifier *)

Module ClassifierFacts.
Import PyStr Profile Exn Browser Extractor Spec Samples Scripted.

Section Classifier.
Context {selenium : Selenium}.

(** C3.  [detect_page_type] follows the decision order of the
    specification: given the outcome of the marker probe it returns the
    category of the first rule that applies to the location; on a
    location that the third rule does not decide, the probe is not
    consulted and the category is the same whatever the page holds. *)
Theorem detect_page_type_decision_order (d : driver) (present : bool) :
  marker_probe d = Ok present \/ reaches_profile_rule (current_url d) = false ->
  detect_page_type d = Ok (page_classifier (current_url d) present).
Proof.
  unfold detect_page_type, page_classifier, marker_probe, reaches_profile_rule.
  simpl.
  destruct (str_in "/sales/lead/" (current_url d)); [reflexivity|].
  destruct (str_in "/sales/search/" (current_url d) ||
            str_in "/sales/lists/" (current_url d)); [reflexivity|].
  destruct (str_in "/in/" (current_url d)).
  - simpl. intros [H | H]; [|discriminate H].
    destruct (find_element d ".pv-text-details__right-panel") as [e|e].
    + injection H as <-. reflexivity.
    + destruct (no_such_element e); [|discriminate H].
      injection H as <-. reflexivity.
  - intros _. destruct (str_in "/company/" (current_url d)); reflexivity.
Qed.

(** The category depends on the location and the probe only. *)
Lemma detect_page_type_pure (d d' : driver) :
  current_url d = current_url d' ->
  marker_probe d = marker_probe d' ->
  detect_page_type d = detect_page_type d'.
Proof.
  unfold detect_page_type, marker_probe. intros Hu Hp. rewrite <- Hu.
  destruct (str_in "/sales/lead/" (current_url d)); [reflexivity|].
  destruct (str_in "/sales/search/" (current_url d) ||
            str_in "/sales/lists/" (current_url d)); [reflexivity|].
  destruct (str_in "/in/" (current_url d)); [|reflexivity].
  destruct (find_element d ".pv-text-details__right-panel") as [e|e],
           (find_element d' ".pv-text-details__right-panel") as [e'|e'];
    try reflexivity.
  - destruct (no_such_element e'); [discriminate Hp | congruence].
  - destruct (no_such_element e); [discriminate Hp | congruence].
  - destruct (no_such_element e) eqn:He, (no_such_element e') eqn:He';
      try reflexivity; try discriminate Hp. congruence.
Qed.
End Classifier.

(** The decision order on the locations the specification names. *)
Example classify_sales_lead (marker : bool) :
  page_classifier "https://www.linkedin.com/sales/lead/123" marker
  = "sales_navigator_profile".
Proof. destruct marker; reflexivity. Qed.

Example classify_lead_before_profile (marker : bool) :
  page_classifier "https://www.linkedin.com/sales/lead/123/in/alice" marker
  = "sales_navigator_profile".
Proof. destruct marker; reflexivity. Qed.

Example classify_profile :
  page_classifier "https://www.linkedin.com/in/alice" false = "public_profile" /\
  page_classifier "https://www.linkedin.com/in/alice" true = "authenticated_profile".
Proof. split; reflexivity. Qed.

Example classify_company_and_unknown :
  page_classifier "https://linkedin.com/company/acme" true = "company_page" /\
  page_classifier "https://www.linkedin.com/feed" true = "unknown".
Proof. split; reflexivity. Qed.

Lemma detect_page_type_decision_order_witness :
  detect_page_type (selenium := scripted) public_alice = Ok "public_profile".
Proof.
  apply (@detect_page_type_decision_order scripted public_alice false).
  left. reflexivity.
Defined.

End ClassifierFacts.

(** ** The extraction methods *)

Module ExtractorFacts.
Import PyStr Re Patterns Contact Profile Exn Exn.Notations Browser Extractor.
Import Logic LogicFacts Spec StrFacts Samples Scripted.

Section Methods.
Context {selenium : Selenium}.

(** *** Frame rules for the primitives *)
Lemma keeps_update (J : LinkedInProfile -> Prop)
    (f : LinkedInProfile -> LinkedInProfile) :
  (forall p, J p -> J (f p)) -> keeps (on_profile J) (update f).
Proof. intros H. apply keeps_modify. intros s Hs. apply H. exact Hs. Qed.

Lemma keeps_sleep (J : LinkedInProfile -> Prop) : keeps (on_profile J) sleep.
Proof. apply keeps_modify. intros s Hs. exact Hs. Qed.

Lemma keeps_click (J : LinkedInProfile -> Prop) (e : web_element) :
  keeps (on_profile J) (click e).
Proof.
  intros s Hs. unfold click.
  destruct (element_click (session s) e) as [d [[]|x]]; exact Hs.
Qed.

Lemma triple_bind_safe {A B : Type} (m : X A) (f : A -> X B)
    (Q : B -> state -> Prop) (E : exn -> state -> Prop) :
  safe m ->
  (forall a, triple (fun _ => True) (f a) Q E) ->
  triple (fun _ => True) (bind m f) Q E.
Proof.
  intros Hm Hf. apply triple_bind with (R := fun _ _ => True).
  - eapply triple_conseq; [exact Hm | auto | auto | ]. intros e s [].
  - exact Hf.
Qed.

Lemma triple_bind_any {A B : Type} (m : X A) (f : A -> X B)
    (Q : B -> state -> Prop) :
  (forall a, triple (fun _ => True) (f a) Q (fun _ _ => True)) ->
  triple (fun _ => True) (bind m f) Q (fun _ _ => True).
Proof.
  intros Hf. apply triple_bind with (R := fun _ _ => True).
  - apply triple_any.
  - exact Hf.
Qed.

Lemma derive_success_derives (E : exn -> state -> Prop) :
  triple (fun _ => True) derive_success (fun _ => on_profile derived) E.
Proof. apply triple_modify. intros s _. reflexivity. Qed.

(** *** The helper methods never raise *)
Lemma safe_soup_first_text (soup : string) (selectors : list string)
    (assign : string -> LinkedInProfile -> LinkedInProfile) :
  safe (soup_first_text soup selectors assign).
Proof.
  unfold soup_first_text. apply safe_bind.
  - apply safe_for_each. intros selector. apply safe_try_any. apply safe_ret.
  - intros _. apply safe_ret.
Qed.

Lemma safe_extract_sales_navigator_contact_info :
  safe _extract_sales_navigator_contact_info.
Proof. apply safe_try_any. apply safe_ret. Qed.

Lemma safe_extract_about_section : safe _extract_about_section.
Proof. apply safe_try_any. apply safe_ret. Qed.

Lemma safe_extract_linkedin_profile_url : safe _extract_linkedin_profile_url.
Proof. apply safe_try_any. apply safe_ret. Qed.

(** *** [extract_sales_navigator_profile] *)
Lemma sales_navigator_body_spec :
  triple (on_profile (fun p => full_name p = EmptyString))
         sales_navigator_body
         (fun _ => on_profile derived)
         (fun _ => on_profile (fun p => full_name p = EmptyString)).
Proof.
  unfold sales_navigator_body.
  apply triple_bind with (R := fun _ => on_profile (fun p => full_name p = EmptyString)).
  { apply keeps_sleep. }
  intros _.
  apply triple_bind with (R := fun _ _ => True).
  { intros s Hs. unfold get_page_source, ask.
    destruct (page_source (session s)); [trivial | exact Hs]. }
  intros soup.
  eapply triple_conseq with (P := fun _ => True) (E := fun _ _ => False);
    [ | auto | intros a s H; exact H | intros e s [] ].
  apply triple_bind_safe; [apply safe_soup_first_text | intros _].
  apply triple_bind_safe; [apply safe_soup_first_text | intros _].
  apply triple_bind_safe; [apply safe_soup_first_text | intros _].
  apply triple_bind_safe; [apply safe_soup_first_text | intros _].
  apply triple_bind_safe; [apply safe_extract_sales_navigator_contact_info | intros _].
  apply triple_bind_safe; [apply safe_extract_about_section | intros _].
  apply triple_bind_safe; [apply safe_extract_linkedin_profile_url | intros _].
  apply derive_success_derives.
Qed.

Lemma on_error_after_no_name :
  triple (on_profile (fun p => full_name p = EmptyString)) on_error
         (fun _ => on_profile derived) (fun _ _ => False).
Proof.
  apply triple_modify. intros s Hs. unfold on_profile, derived in *. simpl.
  rewrite Hs. reflexivity.
Qed.

Lemma extract_sales_navigator_profile_derived (d : driver) :
  derived (snd (extract_sales_navigator_profile d)).
Proof.
  unfold extract_sales_navigator_profile.
  set (s0 := mkState _ d).
  assert (H : triple (on_profile (fun p => full_name p = EmptyString))
                     (try_except sales_navigator_body any_exception on_error)
                     (fun _ => on_profile derived) (fun _ _ => False)).
  { eapply triple_try.
    - apply sales_navigator_body_spec.
    - eapply triple_conseq; [apply on_error_after_no_name | | auto | auto].
      intros s [e [_ Hs]]. exact Hs.
    - intros e s Hc. discriminate Hc. }
  specialize (H s0 eq_refl).
  destruct (try_except sales_navigator_body any_exception on_error s0)
    as [s [a|e]]; [exact H | destruct H].
Qed.

Lemma derived_success_iff_name (p : LinkedInProfile) :
  derived p -> success_iff_name p.
Proof.
  unfold derived, success_iff_name. intros H. rewrite H. apply truthy_true_iff.
Qed.

(** *** [extract_regular_profile] *)
Lemma regular_body_derives :
  triple (fun _ => True) regular_body
         (fun _ => on_profile derived) (fun _ _ => True).
Proof.
  unfold regular_body.
  repeat (apply triple_bind_any; intros ?).
  apply derive_success_derives.
Qed.

Lemma extract_regular_profile_flag (d : driver) :
  (extraction_success (snd (extract_regular_profile d)) = true ->
   full_name (snd (extract_regular_profile d)) <> EmptyString) /\
  (regular_completes d -> success_iff_name (snd (extract_regular_profile d))).
Proof.
  unfold extract_regular_profile, regular_completes.
  change (mkState (set_linkedin_url (current_url d)
                     (new_profile (utcnow_isoformat d))) d)
    with (regular_start d).
  unfold try_except.
  pose proof regular_body_derives as Hd. unfold triple in Hd.
  specialize (Hd (regular_start d)).
  destruct (regular_body (regular_start d)) as [s [a|e]]; simpl.
  - assert (Hs : derived (profile s)) by (apply Hd; trivial).
    split.
    + apply (derived_success_iff_name Hs).
    + intros _. apply derived_success_iff_name. exact Hs.
  - split.
    + intros H. discriminate H.
    + intros [s' H]. discriminate H.
Qed.

(** *** [extract_sales_navigator_search_results] *)
Lemma card_body_derives (card : web_element) :
  triple (fun _ => True) (card_body card)
         (fun _ => on_profile derived) (fun _ _ => True).
Proof.
  unfold card_body.
  repeat (apply triple_bind_any; intros ?).
  apply derive_success_derives.
Qed.

Lemma collect_cards_spec (cards : list web_element) (d : driver)
    (profiles : list LinkedInProfile) :
  length (snd (collect_cards cards d profiles)) <= length profiles + length cards /\
  (Forall (fun p => extraction_success p = true /\ full_name p <> EmptyString)
          profiles ->
   Forall (fun p => extraction_success p = true /\ full_name p <> EmptyString)
          (snd (collect_cards cards d profiles))).
Proof.
  revert d profiles. induction cards as [|card cards IH]; intros d profiles; simpl.
  - split; [lia | auto].
  - pose proof (card_body_derives card) as Hd. unfold triple in Hd.
    specialize (Hd (mkState (new_profile (utcnow_isoformat d)) d)).
    destruct (card_body card (mkState (new_profile (utcnow_isoformat d)) d))
      as [s [a|e]].
    + destruct (extraction_success (profile s)) eqn:Hflag.
      * destruct (IH (session s) (profiles ++ [profile s])) as [Hlen Hall].
        rewrite length_app in Hlen. simpl in Hlen. split; [lia|].
        intros Hp. apply Hall. apply Forall_app. split; [exact Hp|].
        constructor; [|constructor]. split; [exact Hflag|].
        assert (Hs : derived (profile s)) by (apply Hd; trivial).
        apply (derived_success_iff_name Hs). exact Hflag.
      * destruct (IH (session s) profiles) as [Hlen Hall]. split; [lia | exact Hall].
    + destruct (IH (session s) profiles) as [Hlen Hall]. split; [lia | exact Hall].
Qed.

Lemma search_results_spec (d : driver) :
  length (snd (extract_sales_navigator_search_results d)) <= 10 /\
  Forall (fun p => extraction_success p = true /\ full_name p <> EmptyString)
         (snd (extract_sales_navigator_search_results d)).
Proof.
  unfold extract_sales_navigator_search_results. cbv zeta.
  destruct (find_profile_cards (time_sleep d)) as [cards|e].
  - destruct (collect_cards_spec (firstn 10 cards) (time_sleep d) []) as [Hlen Hall].
    split.
    + pose proof (firstn_le_length 10 cards) as Hcap.
      change (length (@nil LinkedInProfile)) with 0 in Hlen. lia.
    + apply Hall. constructor.
  - split; [apply Nat.le_0_l | constructor].
Qed.

(** C6.  The collector returns at most ten profiles, however many cards
    the page shows, and every profile it returns has a name and a true
    flag: a card without a name is left out. *)
Theorem search_results_capped_and_named (d : driver) :
  length (snd (extract_sales_navigator_search_results d)) <= 10 /\
  Forall (fun p => extraction_success p = true /\ full_name p <> EmptyString)
         (snd (extract_sales_navigator_search_results d)).
Proof. apply search_results_spec. Qed.

Lemma search_results_success_iff_name (d : driver) :
  Forall success_iff_name (snd (extract_sales_navigator_search_results d)).
Proof.
  destruct (search_results_spec d) as [_ H].
  eapply Forall_impl; [|exact H].
  intros p [Hflag Hname]. unfold success_iff_name. split; auto.
Qed.

(** *** With a benign driver the regular flow runs to its end *)
Section Benign.
Hypothesis driver_benign : benign.

Lemma mild_find_element (sel : string) : mild (driver_find_element sel).
Proof. apply mild_ask. intros s. apply driver_benign. Qed.

Lemma mild_find_elements (sel : string) : mild (driver_find_elements sel).
Proof. apply mild_ask. intros s. apply driver_benign. Qed.

Lemma mild_text (e : web_element) : mild (text e).
Proof. apply mild_ask. intros s. apply driver_benign. Qed.

Ltac mildly :=
  repeat first
    [ apply mild_ret
    | apply mild_modify
    | apply mild_find_element
    | apply mild_find_elements
    | apply mild_text
    | apply mild_bind; [| intros ?]
    | apply mild_for_each; intros ?
    | match goal with
      | |- mild (if ?c then _ else _) => destruct c
      end ].

Lemma detect_page_type_answers (d : driver) :
  exists t, detect_page_type d = Ok t.
Proof.
  unfold detect_page_type.
  destruct (str_in "/sales/lead/" (current_url d)); [eauto|].
  destruct (str_in "/sales/search/" (current_url d) ||
            str_in "/sales/lists/" (current_url d)); [eauto|].
  destruct (str_in "/in/" (current_url d)).
  - destruct driver_benign as [Hfind _].
    specialize (Hfind d ".pv-text-details__right-panel").
    destruct (find_element d ".pv-text-details__right-panel") as [e|[|]];
      [eauto | simpl; eauto | exfalso; apply Hfind; reflexivity].
  - destruct (str_in "/company/" (current_url d)); eauto.
Qed.

Lemma safe_regular_name : safe regular_name.
Proof.
  unfold regular_name. apply safe_bind; [|intros _; apply safe_ret].
  apply safe_for_each. intros selector.
  apply safe_try_no_such_element; [mildly | apply safe_ret].
Qed.

Lemma safe_regular_role : safe regular_role.
Proof.
  unfold regular_role. apply safe_bind; [|intros _; apply safe_ret].
  apply safe_for_each. intros selector.
  apply safe_try_no_such_element; [mildly | apply safe_ret].
Qed.

Lemma safe_regular_company : safe regular_company.
Proof.
  unfold regular_company. apply safe_bind; [|intros _; apply safe_ret].
  apply safe_for_each. intros selector. apply safe_try_any. apply safe_ret.
Qed.

Lemma safe_regular_location : safe regular_location.
Proof.
  unfold regular_location. apply safe_bind; [|intros _; apply safe_ret].
  apply safe_for_each. intros selector.
  apply safe_try_no_such_element; [mildly | apply safe_ret].
Qed.

Lemma safe_extract_contact_info : safe _extract_contact_info.
Proof. apply safe_try_any. apply safe_ret. Qed.

Lemma safe_regular_body : safe regular_body.
Proof.
  unfold regular_body.
  apply safe_bind.
  { apply safe_ask. intros s. apply detect_page_type_answers. }
  intros page_type.
  apply safe_bind; [apply safe_modify | intros _].
  apply safe_bind; [apply safe_modify | intros _].
  apply safe_bind; [apply safe_regular_name | intros _].
  apply safe_bind; [apply safe_regular_role | intros _].
  apply safe_bind; [apply safe_regular_company | intros _].
  apply safe_bind; [apply safe_regular_location | intros _].
  apply safe_bind; [apply safe_extract_about_section | intros _].
  apply safe_bind; [apply safe_gets | intros t].
  apply safe_bind; [|intros _; apply safe_modify].
  unfold when. destruct (String.eqb t "authenticated_profile");
    [apply safe_extract_contact_info | apply safe_ret].
Qed.

Lemma benign_driver_completes (d : driver) : regular_completes d.
Proof.
  destruct (safe_run (regular_start d) safe_regular_body) as [s [[] H]].
  exists s. exact H.
Qed.
End Benign.

(** C1, amended.  A default-constructed profile has no name and a false
    flag.  On every profile returned by [extract_sales_navigator_profile]
    and on every profile in the list returned by
    [extract_sales_navigator_search_results] the flag is true exactly
    when the name is not empty.  On a profile returned by
    [extract_regular_profile] a true flag implies a name, and the flag
    is true exactly when the name is not empty whenever the body of the
    method ran to its end, as it does with a driver whose only failure
    is a missing element. *)
Theorem success_flag_follows_name (now : string) (d : driver) :
  success_iff_name (new_profile now) /\
  success_iff_name (snd (extract_sales_navigator_profile d)) /\
  Forall success_iff_name (snd (extract_sales_navigator_search_results d)) /\
  (extraction_success (snd (extract_regular_profile d)) = true ->
   full_name (snd (extract_regular_profile d)) <> EmptyString) /\
  (regular_completes d -> success_iff_name (snd (extract_regular_profile d))) /\
  (benign -> success_iff_name (snd (extract_regular_profile d))).
Proof.
  split; [|split; [|split; [|split; [|split]]]].
  - apply derived_success_iff_name. reflexivity.
  - apply derived_success_iff_name. apply extract_sales_navigator_profile_derived.
  - apply search_results_success_iff_name.
  - exact (proj1 (extract_regular_profile_flag d)).
  - exact (proj2 (extract_regular_profile_flag d)).
  - intros Hb. apply (proj2 (extract_regular_profile_flag d)).
    apply benign_driver_completes. exact Hb.
Qed.

(** *** [extract_profile] *)


(** *** The regular flow leaves the contact lists alone unless the page
    is an authenticated profile *)

(** Frame reasoning for a property that no assignment in the program at
    hand can affect: walk the program, and close each assignment by
    conversion. *)
Ltac frame :=
  repeat first
    [ apply keeps_ret
    | apply keeps_gets
    | apply keeps_ask
    | apply keeps_sleep
    | apply keeps_click
    | apply keeps_update; intros ? HJ; exact HJ
    | apply keeps_bind; [| intros ?]
    | apply keeps_try
    | apply keeps_for_each; intros ?
    | match goal with
      | |- keeps _ (if ?c then _ else _) => destruct c
      | |- keeps _ (match ?x with _ => _ end) => destruct x
      end ].

Lemma keeps_regular_name (t : string) :
  keeps (on_profile (no_contacts_as t)) regular_name.
Proof. unfold regular_name. frame. Qed.

Lemma keeps_regular_role (t : string) :
  keeps (on_profile (no_contacts_as t)) regular_role.
Proof. unfold regular_role. frame. Qed.

Lemma keeps_regular_company (t : string) :
  keeps (on_profile (no_contacts_as t)) regular_company.
Proof. unfold regular_company. frame. Qed.

Lemma keeps_regular_location (t : string) :
  keeps (on_profile (no_contacts_as t)) regular_location.
Proof. unfold regular_location. frame. Qed.

Lemma keeps_extract_about_section (t : string) :
  keeps (on_profile (no_contacts_as t)) _extract_about_section.
Proof. unfold _extract_about_section. frame. Qed.

Lemma contact_flow_skipped (t : string) :
  t <> "authenticated_profile" ->
  keeps (on_profile (no_contacts_as t))
        (profile_type_now <- attr profile_type ;;
         when (String.eqb profile_type_now "authenticated_profile")
              _extract_contact_info ;;;
         derive_success).
Proof.
  intros Hne s Hs. unfold bind at 1. unfold attr, gets.
  destruct Hs as [Hce Ht]. rewrite Ht.
  apply String.eqb_neq in Hne. rewrite Hne. simpl.
  split; [exact Hce | exact Ht].
Qed.

Lemma regular_body_without_contact (d : driver) :
  detect_page_type d <> Ok "authenticated_profile" ->
  triple (fun s => session s = d /\ contact_lists_empty (profile s))
         regular_body
         (fun _ => on_profile contact_lists_empty)
         (fun _ => on_profile contact_lists_empty).
Proof.
  intros Hne. unfold regular_body.
  apply triple_bind
    with (R := fun t s => contact_lists_empty (profile s) /\
                          t <> "authenticated_profile").
  { intros s [Hs Hce]. unfold ask. rewrite Hs.
    destruct (detect_page_type d) as [t|e] eqn:Hdet.
    - split; [exact Hce|]. intros ->. apply Hne. reflexivity.
    - exact Hce. }
  intros t.
  apply triple_bind
    with (R := fun _ s => no_contacts_as t (profile s) /\
                          t <> "authenticated_profile").
  { apply triple_modify. intros s [Hce Hne']. split; [|exact Hne'].
    split; [exact Hce | reflexivity]. }
  intros _.
  destruct (String.eqb_spec t "authenticated_profile") as [Heq | Hne'].
  { intros s [_ Hne']. contradiction. }
  apply triple_conseq
    with (P := on_profile (no_contacts_as t))
         (Q := fun _ : unit => on_profile (no_contacts_as t))
         (E := fun _ : exn => on_profile (no_contacts_as t)).
  - apply keeps_bind; [apply keeps_sleep | intros _].
    apply keeps_bind; [apply keeps_regular_name | intros _].
    apply keeps_bind; [apply keeps_regular_role | intros _].
    apply keeps_bind; [apply keeps_regular_company | intros _].
    apply keeps_bind; [apply keeps_regular_location | intros _].
    apply keeps_bind; [apply keeps_extract_about_section | intros _].
    apply contact_flow_skipped. exact Hne'.
  - intros s [H _]. exact H.
  - intros a s [H _]. exact H.
  - intros e s [H _]. exact H.
Qed.

Lemma contact_flow_only_when_authenticated (d : driver) :
  detect_page_type d <> Ok "authenticated_profile" ->
  contact_lists_empty (snd (extract_regular_profile d)).
Proof.
  intros Hne. unfold extract_regular_profile.
  set (s0 := mkState _ d).
  pose proof (regular_body_without_contact Hne) as Hb. unfold triple in Hb.
  specialize (Hb s0). unfold try_except.
  destruct (regular_body s0) as [s [a|e]]; simpl.
  - apply Hb. split; [reflexivity | repeat split].
  - apply Hb. split; [reflexivity | repeat split].
Qed.

(** C10.  On a page classified as a public profile the regular flow
    returns a profile whose five contact lists are empty. *)
Theorem public_profile_has_no_contacts (d : driver) :
  detect_page_type d = Ok "public_profile" ->
  contact_lists_empty (snd (extract_regular_profile d)).
Proof.
  intros H. apply contact_flow_only_when_authenticated.
  rewrite H. discriminate.
Qed.
End Methods.
End ExtractorFacts.

(** ** The methods on the sample pages *)

Module Runs.
Import PyStr Contact Profile Exn Browser Extractor Spec Samples Scripted.
Import ExtractorFacts.

(** The scripted driver is benign, so the regular flow always runs to its
    end on it. *)
Lemma scripted_benign : benign (selenium := scripted).
Proof.
  repeat split.
  - intros d sel. simpl. unfold lookup.
    repeat match goal with
           | |- context [if ?c then _ else _] => destruct c
           | |- context [match ?x with _ => _ end] => destruct x
           end; discriminate.
  - intros d sel. simpl. unfold lookup_all.
    destruct (String.eqb sel ".search-results__result-item"); discriminate.
  - intros d e. simpl. destruct e; discriminate.
Qed.

Lemma success_flag_follows_name_witness :
  full_name (snd (extract_regular_profile (selenium := scripted) public_alice))
    <> EmptyString /\
  success_iff_name (snd (extract_regular_profile (selenium := scripted) public_alice)).
Proof.
  pose proof (@success_flag_follows_name scripted clock public_alice)
    as [_ [_ [_ [Hflag [Hends Hbenign]]]]].
  split.
  - apply Hflag. vm_compute. reflexivity.
  - assert (Hrun : regular_completes (selenium := scripted) public_alice).
    { exists (fst (@regular_body scripted (@regular_start scripted public_alice))).
      vm_compute. reflexivity. }
    pose proof (Hends Hrun) as _.
    apply Hbenign. exact scripted_benign.
Defined.

(** When the driver fails after the name was read, the handler of
    [extract_regular_profile] clears the flag and the name stays. *)
Example regular_profile_error_after_name :
  let p := snd (extract_regular_profile (selenium := flaky) failing_alice) in
  full_name p = "Alice" /\ extraction_success p = false.
Proof. vm_compute. split; reflexivity. Qed.


Lemma public_profile_has_no_contacts_witness :
  contact_lists_empty (snd (extract_regular_profile (selenium := scripted) public_alice)).
Proof.
  apply (@public_profile_has_no_contacts scripted public_alice).
  reflexivity.
Defined.

(** C5.  In the regular-profile flow the additions are filtered against
    the list as it was before the scan, so a link that the contact modal
    shows twice is stored twice; the Sales Navigator step keeps one. *)
Theorem regular_flow_stores_a_link_twice :
  websites (snd (extract_regular_profile (selenium := scripted) authenticated_alice))
    = ["https://janedoe.dev"; "https://janedoe.dev"] /\
  extract_websites "<a href='https://janedoe.dev'>https://janedoe.dev</a>" []
    = ["https://janedoe.dev"].
Proof. split; vm_compute; reflexivity. Qed.

(** The duplicate address of C2, through the whole Sales Navigator method. *)
Example sales_navigator_profile_duplicate_email :
  emails (snd (extract_sales_navigator_profile (selenium := scripted) lead_jane))
    = ["jane@example.com"; "jane@example.com"].
Proof. vm_compute. reflexivity. Qed.

(** Twelve cards, one without a name: the first ten are read, nine kept. *)
Example search_page_results :
  map full_name
      (snd (extract_sales_navigator_search_results (selenium := scripted) search_page))
    = ["a"; "c"; "d"; "e"; "f"; "g"; "h"; "i"; "j"].
Proof. vm_compute. reflexivity. Qed.

End Runs.

(** * Further properties of the methods *)

(** ** What the extraction methods write *)

Module MethodFacts.
Import PyStr Re Patterns Contact Profile Exn Exn.Notations Browser Extractor.
Import Logic LogicFacts Spec StrFacts ExtractorFacts Coverage.

(** Walk a program with the frame rules; [side] closes the obligation of
    each assignment, with the tests passed on the way among the
    hypotheses. *)
Ltac walk side :=
  repeat first
    [ apply keeps_ret
    | apply keeps_gets
    | apply keeps_ask
    | apply keeps_sleep
    | apply keeps_click
    | apply keeps_update; intros ? ?; side
    | apply keeps_bind; [| intros ?]
    | apply keeps_try
    | apply keeps_for_each; intros ?
    | apply keeps_when; intros ?
    | match goal with
      | |- keeps _ (if ?c then _ else _) => destruct c eqn:?
      | |- keeps _ (match ?x with _ => _ end) => destruct x eqn:?
      end ].

Lemma grows_refl (l : list string) : grows l l.
Proof. exists []. symmetry. apply app_nil_r. Qed.

Lemma grows_trans (l1 l2 l3 : list string) : grows l1 l2 -> grows l2 l3 -> grows l1 l3.
Proof.
  intros [a ->] [b ->]. exists (a ++ b). symmetry. apply app_assoc.
Qed.

Lemma append_emails_grows (found emails : list string) :
  grows emails (append_emails found emails).
Proof.
  revert emails. induction found as [|x found IH]; intros emails; simpl.
  - apply grows_refl.
  - destruct (negb (list_in x emails) && str_in "@" x); [|apply IH].
    eapply grows_trans; [|apply IH]. exists [lower x]. reflexivity.
Qed.

Lemma append_modal_emails_grows (found emails : list string) :
  grows emails (append_modal_emails found emails).
Proof.
  revert emails. induction found as [|x found IH]; intros emails; simpl.
  - apply grows_refl.
  - destruct (negb (list_in x emails)); [|apply IH].
    eapply grows_trans; [|apply IH]. exists [lower x]. reflexivity.
Qed.

Lemma append_phones_grows (found phones : list string) :
  grows phones (append_phones found phones).
Proof.
  revert phones. induction found as [|x found IH]; intros phones;
    cbn [append_phones].
  - apply grows_refl.
  - destruct (Nat.leb 10 (String.length (cleaned_phone x))
              && negb (list_in (cleaned_phone x) phones)); [|apply IH].
    eapply grows_trans; [|apply IH]. exists [x]. reflexivity.
Qed.

Lemma append_websites_grows (found websites : list string) :
  grows websites (append_websites found websites).
Proof.
  revert websites. induction found as [|x found IH]; intros websites; simpl.
  - apply grows_refl.
  - destruct (negb (list_in x websites) && negb (str_in "linkedin.com" x));
      [|apply IH].
    eapply grows_trans; [|apply IH]. exists [x]. reflexivity.
Qed.

Lemma extract_emails_grows (page_source : string) (emails : list string) :
  grows emails (extract_emails page_source emails).
Proof.
  unfold extract_emails, email_patterns. simpl.
  eapply grows_trans; apply append_emails_grows.
Qed.

Lemma extract_phones_grows (page_source : string) (phones : list string) :
  grows phones (extract_phones page_source phones).
Proof.
  unfold extract_phones, phone_patterns. simpl.
  eapply grows_trans; [eapply grows_trans|]; apply append_phones_grows.
Qed.

Lemma extract_websites_grows (page_source : string) (websites : list string) :
  grows websites (extract_websites page_source websites).
Proof.
  unfold extract_websites, url_patterns. simpl.
  eapply grows_trans; apply append_websites_grows.
Qed.

Lemma contacts_grow_refl (p : LinkedInProfile) : contacts_grow p p.
Proof.
  unfold contacts_grow, only_contacts_differ.
  repeat split; try apply grows_refl. destruct p; reflexivity.
Qed.

Lemma contacts_grow_emails (p0 p : LinkedInProfile) (l : list string) :
  contacts_grow p0 p -> grows (emails p) l -> contacts_grow p0 (set_emails l p).
Proof.
  unfold contacts_grow, only_contacts_differ.
  intros (Hd & He & Hp & Hw) Hl. repeat split; simpl; try assumption.
  - rewrite Hd at 1. reflexivity.
  - eapply grows_trans; eassumption.
Qed.

Lemma contacts_grow_phones (p0 p : LinkedInProfile) (l : list string) :
  contacts_grow p0 p -> grows (phones p) l -> contacts_grow p0 (set_phones l p).
Proof.
  unfold contacts_grow, only_contacts_differ.
  intros (Hd & He & Hp & Hw) Hl. repeat split; simpl; try assumption.
  - rewrite Hd at 1. reflexivity.
  - eapply grows_trans; eassumption.
Qed.

Lemma contacts_grow_websites (p0 p : LinkedInProfile) (l : list string) :
  contacts_grow p0 p -> grows (websites p) l -> contacts_grow p0 (set_websites l p).
Proof.
  unfold contacts_grow, only_contacts_differ.
  intros (Hd & He & Hp & Hw) Hl. repeat split; simpl; try assumption.
  - rewrite Hd at 1. reflexivity.
  - eapply grows_trans; eassumption.
Qed.

Ltac grow_side :=
  first
    [ apply contacts_grow_emails;
        [assumption
        | first [apply extract_emails_grows | apply append_modal_emails_grows
                | eexists; reflexivity]]
    | apply contacts_grow_phones;
        [assumption | first [apply extract_phones_grows | eexists; reflexivity]]
    | apply contacts_grow_websites;
        [assumption | first [apply extract_websites_grows | eexists; reflexivity]] ].

Section Methods.
Context {selenium : Selenium}.

Lemma keeps_sales_navigator_contact_info (p0 : LinkedInProfile) :
  keeps (on_profile (contacts_grow p0)) _extract_sales_navigator_contact_info.
Proof.
  unfold _extract_sales_navigator_contact_info, scan_contact_modal, close_modal.
  walk grow_side.
Qed.

Lemma keeps_contact_info (p0 : LinkedInProfile) :
  keeps (on_profile (contacts_grow p0)) _extract_contact_info.
Proof.
  unfold _extract_contact_info, close_modal, extend_emails, extend_phones,
    extend_websites.
  walk grow_side.
Qed.

(** X1.  Neither contact method raises, and each leaves the profile as it
    was except that entries may have been appended to its emails, phones
    and websites: nothing already collected is dropped or reordered. *)
Theorem contact_methods_only_append (s : state) :
  (snd (_extract_sales_navigator_contact_info s) = Ok tt /\
   contacts_grow (profile s) (profile (fst (_extract_sales_navigator_contact_info s)))) /\
  (snd (_extract_contact_info s) = Ok tt /\
   contacts_grow (profile s) (profile (fst (_extract_contact_info s)))).
Proof.
  split.
  - pose proof (@keeps_sales_navigator_contact_info (profile s)) as Hk.
    unfold keeps, triple in Hk. specialize (Hk s (contacts_grow_refl (profile s))).
    destruct (safe_run s safe_extract_sales_navigator_contact_info) as [s' [[] Hs]].
    rewrite Hs in *. split; [reflexivity | exact Hk].
  - pose proof (@keeps_contact_info (profile s)) as Hk.
    unfold keeps, triple in Hk. specialize (Hk s (contacts_grow_refl (profile s))).
    destruct (safe_run s safe_extract_contact_info) as [s' [[] Hs]].
    rewrite Hs in *. split; [reflexivity | exact Hk].
Qed.

(** *** Invariants carried through the three extraction methods *)

Lemma sales_navigator_result (J : LinkedInProfile -> Prop) (d : driver) :
  J (profile (sales_navigator_start d)) ->
  keeps (on_profile J) sales_navigator_body ->
  (forall p, J p -> J (set_extraction_success false p)) ->
  J (snd (extract_sales_navigator_profile d)).
Proof.
  intros H0 Hbody Herr. unfold extract_sales_navigator_profile.
  change (mkState (set_linkedin_url (current_url d)
            (set_profile_type "sales_navigator" (new_profile (utcnow_isoformat d)))) d)
    with (sales_navigator_start d).
  assert (Hk : keeps (on_profile J)
                 (try_except sales_navigator_body any_exception on_error)).
  { apply keeps_try; [exact Hbody | apply keeps_update; exact Herr]. }
  unfold keeps, triple in Hk. specialize (Hk (sales_navigator_start d) H0).
  destruct (try_except sales_navigator_body any_exception on_error
              (sales_navigator_start d)) as [s [a|e]]; exact Hk.
Qed.

Lemma regular_result (J : LinkedInProfile -> Prop) (d : driver) :
  J (profile (regular_start d)) ->
  keeps (on_profile J) regular_body ->
  (forall p, J p -> J (set_extraction_success false p)) ->
  J (snd (extract_regular_profile d)).
Proof.
  intros H0 Hbody Herr. unfold extract_regular_profile.
  change (mkState (set_linkedin_url (current_url d)
            (new_profile (utcnow_isoformat d))) d)
    with (regular_start d).
  assert (Hk : keeps (on_profile J)
                 (try_except regular_body any_exception on_error)).
  { apply keeps_try; [exact Hbody | apply keeps_update; exact Herr]. }
  unfold keeps, triple in Hk. specialize (Hk (regular_start d) H0).
  destruct (try_except regular_body any_exception on_error (regular_start d))
    as [s [a|e]]; exact Hk.
Qed.

Lemma collect_cards_Forall (Q : LinkedInProfile -> Prop) :
  (forall card d, Q (profile (fst (card_body card (card_start d))))) ->
  forall cards d profiles,
    Forall Q profiles -> Forall Q (snd (collect_cards cards d profiles)).
Proof.
  intros Hcard cards. induction cards as [|card cards IH]; intros d profiles Hp; simpl.
  - exact Hp.
  - specialize (Hcard card d). unfold card_start in Hcard.
    destruct (card_body card (mkState (new_profile (utcnow_isoformat d)) d))
      as [s [a|e]]; simpl in Hcard.
    + destruct (extraction_success (profile s)).
      * apply IH. apply Forall_app. split; [exact Hp | constructor; [exact Hcard | constructor]].
      * apply IH. exact Hp.
    + apply IH. exact Hp.
Qed.

Lemma search_result (Q : LinkedInProfile -> Prop) (d : driver) :
  (forall card d', Q (profile (fst (card_body card (card_start d'))))) ->
  Forall Q (snd (extract_sales_navigator_search_results d)).
Proof.
  intros Hcard. unfold extract_sales_navigator_search_results. cbv zeta.
  destruct (find_profile_cards (time_sleep d)) as [cards|e].
  - apply collect_cards_Forall; [exact Hcard | constructor].
  - constructor.
Qed.

Lemma card_result (J : LinkedInProfile -> Prop) (card : web_element) (d : driver) :
  J (profile (card_start d)) ->
  keeps (on_profile J) (card_body card) ->
  J (profile (fst (card_body card (card_start d)))).
Proof.
  intros H0 Hk. unfold keeps, triple in Hk. specialize (Hk (card_start d) H0).
  destruct (card_body card (card_start d)) as [s [a|e]]; exact Hk.
Qed.

(** What [extract_profile] returns comes from one of the three methods or
    is a fresh profile. *)
Lemma extract_profile_result (Q : LinkedInProfile -> Prop) (url : option string)
    (d : driver) :
  (forall d', Q (snd (extract_sales_navigator_profile d'))) ->
  (forall d', Q (snd (extract_regular_profile d'))) ->
  (forall d', Forall Q (snd (extract_sales_navigator_search_results d'))) ->
  (forall now, Q (new_profile now)) ->
  every_profile Q (snd (extract_profile url d)).
Proof.
  intros Hsn Hreg Hsearch Hnew. unfold extract_profile.
  destruct (navigate url d) as [d1 [[]|e]]; [|exact I].
  destruct (detect_page_type d1) as [t|e]; [|exact I].
  unfold dispatch.
  destruct (String.eqb t "sales_navigator_profile").
  { specialize (Hsn d1). destruct (extract_sales_navigator_profile d1). exact Hsn. }
  destruct (String.eqb t "sales_navigator_search").
  { specialize (Hsearch d1). destruct (extract_sales_navigator_search_results d1).
    exact Hsearch. }
  destruct (list_in t ["authenticated_profile"; "public_profile"]).
  { specialize (Hreg d1). destruct (extract_regular_profile d1). exact Hreg. }
  apply Hnew.
Qed.

Ltac unfold_methods :=
  unfold sales_navigator_body, regular_body, card_body, soup_first_text,
    card_first_text, card_link, regular_name, regular_role, regular_company,
    regular_location, _extract_about_section, _extract_linkedin_profile_url,
    _extract_sales_navigator_contact_info, _extract_contact_info,
    scan_contact_modal, close_modal, derive_success, on_error.

Ltac same_side :=
  idtac;
  match goal with
  | H : ?J ?p |- _ => exact H
  end.

(** *** Fields that stay at their defaults *)
Lemma never_assigned_sales_navigator (d : driver) :
  never_assigned (snd (extract_sales_navigator_profile d)).
Proof.
  apply sales_navigator_result.
  - repeat split.
  - unfold_methods. walk same_side.
  - intros p H. exact H.
Qed.

Lemma never_assigned_regular (d : driver) :
  never_assigned (snd (extract_regular_profile d)).
Proof.
  apply regular_result.
  - repeat split.
  - unfold_methods. walk same_side.
  - intros p H. exact H.
Qed.

Lemma never_assigned_search (d : driver) :
  Forall never_assigned (snd (extract_sales_navigator_search_results d)).
Proof.
  apply search_result. intros card d'. apply card_result.
  - repeat split.
  - unfold_methods. walk same_side.
Qed.

(** X2.  Whatever [extract_profile] returns, a profile or each profile of
    a list, has no social links, no addresses, no headline, no date
    added, no company address and no connection count: no extraction
    method assigns these fields. *)
Theorem extraction_never_assigns_six_fields (url : option string) (d : driver) :
  every_profile never_assigned (snd (extract_profile url d)).
Proof.
  apply extract_profile_result.
  - apply never_assigned_sales_navigator.
  - apply never_assigned_regular.
  - apply never_assigned_search.
  - intros now. repeat split.
Qed.

(** *** The tests on the text of a field *)
Ltac use_tests :=
  repeat match goal with
         | H : andb _ _ = true |- _ =>
             apply andb_true_iff in H; destruct H
         | H : negb _ = true |- _ => apply negb_true_iff in H
         | H : Nat.ltb _ _ = true |- _ => apply Nat.ltb_lt in H
         end.

Ltac filter_side :=
  idtac;
  match goal with
  | H : regular_fields_filtered ?p |- _ =>
      first
        [ exact H
        | let Hr := fresh "Hr" in
          let Hl := fresh "Hl" in
          let Ha := fresh "Ha" in
          destruct H as (Hr & Hl & Ha); use_tests;
          split; [|split];
          first [ assumption
                | right; unfold role_plausible; simpl; repeat split; assumption ] ]
  end.

Lemma regular_fields_filtered_result (d : driver) :
  regular_fields_filtered (snd (extract_regular_profile d)).
Proof.
  apply regular_result.
  - unfold regular_fields_filtered. simpl. auto.
  - unfold_methods. unfold extend_emails, extend_phones, extend_websites.
    walk filter_side.
  - intros p H. exact H.
Qed.

Lemma about_filtered_sales_navigator (d : driver) :
  about (snd (extract_sales_navigator_profile d)) = EmptyString \/
  20 < String.length (about (snd (extract_sales_navigator_profile d))).
Proof.
  apply (@sales_navigator_result
           (fun p => about p = EmptyString \/ 20 < String.length (about p))).
  - left. reflexivity.
  - unfold_methods.
    walk ltac:(idtac;
               match goal with
               | H : _ \/ _ |- _ =>
                   first [exact H | use_tests; right; simpl; assumption]
               end).
  - intros p H. exact H.
Qed.

(** X3.  A role kept by [extract_regular_profile] is longer than 10 and
    shorter than 200 characters and holds none of the words [contact
    info], [message], [connect], [follow] in any letter case; a location
    it keeps is shorter than 100 characters; an about text kept by either
    profile method is longer than 20 characters.  A field that found no
    such text is left empty. *)
Theorem profile_fields_pass_their_filters (d : driver) :
  (role (snd (extract_regular_profile d)) = EmptyString \/
   role_plausible (role (snd (extract_regular_profile d)))) /\
  (location (snd (extract_regular_profile d)) = EmptyString \/
   String.length (location (snd (extract_regular_profile d))) < 100) /\
  (about (snd (extract_regular_profile d)) = EmptyString \/
   20 < String.length (about (snd (extract_regular_profile d)))) /\
  (about (snd (extract_sales_navigator_profile d)) = EmptyString \/
   20 < String.length (about (snd (extract_sales_navigator_profile d)))).
Proof.
  destruct (regular_fields_filtered_result d) as (Hr & Hl & Ha).
  repeat split; try assumption. apply about_filtered_sales_navigator.
Qed.

(** *** The address and the category of a record *)
Ltac as_keeps :=
  match goal with
  | |- triple ?P ?m _ _ => change (keeps P m)
  end.

Lemma sales_navigator_profile_type (d : driver) :
  profile_type (snd (extract_sales_navigator_profile d)) = "sales_navigator".
Proof.
  apply (@sales_navigator_result (fun p => profile_type p = "sales_navigator")).
  - reflexivity.
  - unfold_methods. walk same_side.
  - intros p H. exact H.
Qed.

Lemma sales_navigator_linkedin_url (d : driver) :
  linkedin_url (snd (extract_sales_navigator_profile d)) = current_url d \/
  str_in "/in/" (linkedin_url (snd (extract_sales_navigator_profile d))) = true.
Proof.
  apply (@sales_navigator_result
           (fun p => linkedin_url p = current_url d \/
                     str_in "/in/" (linkedin_url p) = true)).
  - left. reflexivity.
  - unfold_methods.
    walk ltac:(idtac;
               match goal with
               | H : _ \/ _ |- _ =>
                   first [exact H | use_tests; right; simpl; assumption]
               end).
  - intros p H. exact H.
Qed.

Lemma regular_linkedin_url (d : driver) :
  linkedin_url (snd (extract_regular_profile d)) = current_url d.
Proof.
  apply (@regular_result (fun p => linkedin_url p = current_url d)).
  - reflexivity.
  - unfold_methods. walk same_side.
  - intros p H. exact H.
Qed.

Lemma regular_body_records_page_type (d : driver) :
  triple (fun s => session s = d /\ profile_type (profile s) = "unknown")
         regular_body
         (fun _ => on_profile (fun p => profile_type p = recorded_page_type d))
         (fun _ => on_profile (fun p => profile_type p = recorded_page_type d)).
Proof.
  unfold regular_body.
  apply triple_bind with (R := fun t _ => detect_page_type d = Ok t).
  { intros s [Hs Ht]. unfold ask. rewrite Hs. unfold on_profile, recorded_page_type.
    destruct (detect_page_type d) as [t|e]; [reflexivity | exact Ht]. }
  intros t.
  apply triple_bind
    with (R := fun _ => on_profile (fun p => profile_type p = recorded_page_type d)).
  { apply triple_modify. intros s Hdet. unfold on_profile, recorded_page_type.
    rewrite Hdet. reflexivity. }
  intros _. as_keeps. unfold_methods. walk same_side.
Qed.

Lemma regular_profile_type (d : driver) :
  profile_type (snd (extract_regular_profile d)) = recorded_page_type d.
Proof.
  unfold extract_regular_profile.
  change (mkState (set_linkedin_url (current_url d)
            (new_profile (utcnow_isoformat d))) d)
    with (regular_start d).
  pose proof (@regular_body_records_page_type d) as Hb. unfold triple in Hb.
  specialize (Hb (regular_start d) (conj eq_refl eq_refl)).
  unfold try_except.
  destruct (regular_body (regular_start d)) as [s [a|e]]; exact Hb.
Qed.

Lemma card_body_profile_type (card : web_element) (d : driver) :
  profile_type (profile (fst (card_body card (card_start d))))
  = "sales_navigator_search".
Proof.
  assert (H : triple (fun _ : state => True) (card_body card)
                (fun _ => on_profile (fun p => profile_type p = "sales_navigator_search"))
                (fun _ => on_profile (fun p => profile_type p = "sales_navigator_search"))).
  { unfold card_body.
    apply triple_bind
      with (R := fun _ => on_profile (fun p => profile_type p = "sales_navigator_search")).
    - apply triple_modify. intros s _. reflexivity.
    - intros _. as_keeps. unfold_methods. walk same_side. }
  unfold triple in H. specialize (H (card_start d) I).
  destruct (card_body card (card_start d)) as [s [a|e]]; exact H.
Qed.

(** X4.  A Sales Navigator profile is tagged [sales_navigator] and its
    address is the location of the page or an address holding [/in/]; a
    regular profile carries the location of the page and the category
    that was detected ([unknown] when detection failed); every record of
    the search collector is tagged [sales_navigator_search]. *)
Theorem records_carry_address_and_category (d : driver) :
  profile_type (snd (extract_sales_navigator_profile d)) = "sales_navigator" /\
  (linkedin_url (snd (extract_sales_navigator_profile d)) = current_url d \/
   str_in "/in/" (linkedin_url (snd (extract_sales_navigator_profile d))) = true) /\
  linkedin_url (snd (extract_regular_profile d)) = current_url d /\
  profile_type (snd (extract_regular_profile d)) = recorded_page_type d /\
  Forall (fun p => profile_type p = "sales_navigator_search")
         (snd (extract_sales_navigator_search_results d)).
Proof.
  split; [apply sales_navigator_profile_type|].
  split; [apply sales_navigator_linkedin_url|].
  split; [apply regular_linkedin_url|].
  split; [apply regular_profile_type|].
  apply search_result. intros card d'. apply card_body_profile_type.
Qed.

(** X5.  No record of the search collector carries an email, a phone, a
    website, an about text or a location: a card gives the name, the
    role, the company, the geography and the link only. *)
Theorem search_records_carry_no_contacts (d : driver) :
  Forall card_record (snd (extract_sales_navigator_search_results d)).
Proof.
  apply search_result. intros card d'. apply card_result.
  - repeat split.
  - unfold_methods. walk same_side.
Qed.
End Methods.

End MethodFacts.

(** ** Clicks and visits *)

Module CountFacts.
Import PyStr Re Patterns Contact Profile Exn Exn.Notations Browser Extractor.
Import Logic LogicFacts Spec StrFacts ExtractorFacts Coverage Instrumented.

Section Counting.
Context {base : Selenium}.

Lemma spends_le {A : Type} (a b : nat) (m : @X (counting base) A) :
  spends a m -> a <= b -> spends b m.
Proof. intros H Hab s. destruct (H s) as [Hc Hv]. split; [lia | exact Hv]. Qed.

Lemma spends_still {A : Type} (m : @X (counting base) A) :
  (forall t, keeps (fun s => tally_of (session s) = t) m) -> spends 0 m.
Proof.
  intros H s. specialize (H (tally_of (session s)) s eq_refl).
  destruct (m s) as [s' [a|e]]; simpl; rewrite H; split; [lia | reflexivity | lia | reflexivity].
Qed.

Lemma spends_bind {A B : Type} (a b : nat) (m : @X (counting base) A) (f : A -> @X (counting base) B) :
  spends a m -> (forall x, spends b (f x)) -> spends (a + b) (bind m f).
Proof.
  intros Hm Hf s. unfold bind. specialize (Hm s).
  destruct (m s) as [s' [x|e]]; simpl in Hm.
  - destruct (Hf x s') as [Hc Hv]. destruct Hm as [Hc' Hv']. split; [lia | congruence].
  - simpl. destruct Hm as [Hc' Hv']. split; [lia | exact Hv'].
Qed.

Lemma spends_try {A : Type} (a b : nat) (m h : @X (counting base) A) (catches : exn -> bool) :
  spends a m -> spends b h -> spends (a + b) (try_except m catches h).
Proof.
  intros Hm Hh s. unfold try_except. specialize (Hm s).
  destruct (m s) as [s' [x|e]]; simpl in Hm; destruct Hm as [Hc Hv].
  - simpl. split; [lia | exact Hv].
  - destruct (catches e).
    + destruct (Hh s') as [Hc' Hv']. split; [lia | congruence].
    + simpl. split; [lia | exact Hv].
Qed.

Lemma spends_for_each {A : Type} (a : nat) (l : list A) (body : A -> @X (counting base) bool) :
  (forall x, spends a (body x)) -> spends (a * length l) (for_each l body).
Proof.
  intros Hb. induction l as [|x l IH]; simpl.
  - intros s. simpl. split; [lia | reflexivity].
  - eapply spends_le.
    + apply spends_bind with (a := a) (b := a * length l); [apply Hb|].
      intros [|]; [|exact IH].
      intros s. simpl. split; [lia | reflexivity].
    + lia.
Qed.

Lemma spends_for_each_firstn {A : Type} (a k : nat) (l : list A)
    (body : A -> @X (counting base) bool) :
  (forall x, spends a (body x)) -> spends (a * k) (for_each (firstn k l) body).
Proof.
  intros Hb. eapply spends_le; [apply spends_for_each; exact Hb|].
  apply Nat.mul_le_mono_l. apply firstn_le_length.
Qed.

Lemma spends_click (e : @web_element (counting base)) :
  spends 1 (click (selenium := counting base) e).
Proof.
  intros s. unfold click. simpl.
  destruct (@element_click base (fst (session s)) e) as [d' r]. simpl.
  unfold tally_of. split; [lia | reflexivity].
Qed.

Lemma spends_when (a : nat) (c : bool) (m : @X (counting base) unit) :
  spends a m -> spends a (when c m).
Proof.
  intros H. destruct c; simpl; [exact H|].
  intros s. simpl. split; [lia | reflexivity].
Qed.

Ltac unfold_primitives :=
  unfold update, attr, sleep, get_page_source, driver_find_element,
    driver_find_elements, card_find_element, text, get_attribute,
    continue, break, pass.

(** A program without a click keeps the tally. *)
Ltac hold :=
  unfold_primitives;
  repeat first
    [ apply keeps_ret
    | apply keeps_gets
    | apply keeps_ask
    | apply keeps_modify; (let H := fresh in intros ? H; exact H)
    | apply keeps_bind; [| intros ?]
    | apply keeps_try
    | apply keeps_for_each; intros ?
    | apply keeps_when; intros ?
    | match goal with
      | |- keeps _ (if ?c then _ else _) => destruct c
      | |- keeps _ (match ?x with _ => _ end) => destruct x
      end ].

Ltac still := apply spends_still; intros ?; hold.

(** A program with clicks: add up what its parts spend. *)
Ltac tot :=
  repeat first
    [ apply spends_click
    | eapply spends_for_each_firstn; intros ?
    | eapply spends_bind; [| intros ?]
    | eapply spends_try
    | solve [still] ].

Lemma spends_close_modal (sel : string) :
  spends 1 (close_modal (selenium := counting base) sel).
Proof.
  unfold close_modal. eapply spends_le; [tot | simpl; lia].
Qed.

Lemma spends_sales_navigator_contact_info :
  spends 4 (_extract_sales_navigator_contact_info (selenium := counting base)).
Proof.
  unfold _extract_sales_navigator_contact_info.
  eapply spends_le.
  - eapply spends_try; [|solve [still]].
    eapply spends_bind; [solve [still] | intros _].
    eapply spends_bind; [solve [still] | intros page_source].
    eapply spends_bind; [solve [still] | intros _].
    eapply spends_bind; [solve [still] | intros _].
    eapply spends_bind; [solve [still] | intros _].
    eapply spends_try; [|solve [still]].
    eapply spends_bind; [solve [still] | intros contact_buttons].
    eapply spends_bind; [|intros _; solve [still]].
    eapply spends_for_each_firstn. intros button.
    eapply spends_try; [|solve [still]].
    eapply spends_bind; [apply spends_click | intros _].
    eapply spends_bind; [solve [still] | intros _].
    eapply spends_bind; [unfold scan_contact_modal; solve [still] | intros _].
    eapply spends_bind; [apply spends_close_modal | intros _].
    solve [still].
  - simpl. lia.
Qed.

Lemma spends_contact_info :
  spends 2 (_extract_contact_info (selenium := counting base)).
Proof.
  unfold _extract_contact_info.
  eapply spends_le.
  - eapply spends_try; [|solve [still]].
    eapply spends_try; [|solve [still]].
    eapply spends_bind; [solve [still] | intros contact_button].
    eapply spends_bind; [apply spends_click | intros _].
    eapply spends_bind; [solve [still] | intros _].
    eapply spends_bind; [solve [still] | intros page_source].
    eapply spends_bind; [solve [still] | intros _].
    eapply spends_bind; [solve [still] | intros _].
    eapply spends_bind; [solve [still] | intros _].
    apply spends_close_modal.
  - simpl. lia.
Qed.

Lemma spends_sales_navigator_body :
  spends 4 (sales_navigator_body (selenium := counting base)).
Proof.
  unfold sales_navigator_body. eapply spends_le.
  - eapply spends_bind; [solve [still] | intros _].
    eapply spends_bind; [solve [still] | intros page_source].
    eapply spends_bind; [unfold soup_first_text; solve [still] | intros _].
    eapply spends_bind; [unfold soup_first_text; solve [still] | intros _].
    eapply spends_bind; [unfold soup_first_text; solve [still] | intros _].
    eapply spends_bind; [unfold soup_first_text; solve [still] | intros _].
    eapply spends_bind; [apply spends_sales_navigator_contact_info | intros _].
    eapply spends_bind; [unfold _extract_about_section; solve [still] | intros _].
    eapply spends_bind;
      [unfold _extract_linkedin_profile_url; solve [still] | intros _].
    unfold derive_success. solve [still].
  - simpl. lia.
Qed.

Lemma spends_regular_body :
  spends 2 (regular_body (selenium := counting base)).
Proof.
  unfold regular_body. eapply spends_le.
  - eapply spends_bind; [solve [still] | intros page_type].
    eapply spends_bind; [solve [still] | intros _].
    eapply spends_bind; [solve [still] | intros _].
    eapply spends_bind; [unfold regular_name; solve [still] | intros _].
    eapply spends_bind; [unfold regular_role; solve [still] | intros _].
    eapply spends_bind; [unfold regular_company; solve [still] | intros _].
    eapply spends_bind; [unfold regular_location; solve [still] | intros _].
    eapply spends_bind; [unfold _extract_about_section; solve [still] | intros _].
    eapply spends_bind; [solve [still] | intros t].
    eapply spends_bind; [apply spends_when; apply spends_contact_info | intros _].
    unfold derive_success. solve [still].
  - simpl. lia.
Qed.

Lemma spends_on_error : spends 0 (on_error (selenium := counting base)).
Proof. unfold on_error. solve [still]. Qed.

Lemma sales_navigator_profile_spends (d : @driver (counting base)) :
  clicks (tally_of (fst (extract_sales_navigator_profile d)))
    <= clicks (tally_of d) + 4 /\
  visits (tally_of (fst (extract_sales_navigator_profile d))) = visits (tally_of d).
Proof.
  unfold extract_sales_navigator_profile.
  pose proof (spends_try any_exception spends_sales_navigator_body spends_on_error)
    as H.
  match goal with
  | |- context [try_except _ _ _ ?s0] => specialize (H s0);
      destruct (try_except sales_navigator_body any_exception on_error s0) as [s r]
  end.
  simpl in *. destruct H as [Hc Hv]. split; [lia | exact Hv].
Qed.

Lemma regular_profile_spends (d : @driver (counting base)) :
  clicks (tally_of (fst (extract_regular_profile d))) <= clicks (tally_of d) + 2 /\
  visits (tally_of (fst (extract_regular_profile d))) = visits (tally_of d).
Proof.
  unfold extract_regular_profile.
  pose proof (spends_try any_exception spends_regular_body spends_on_error) as H.
  match goal with
  | |- context [try_except _ _ _ ?s0] => specialize (H s0);
      destruct (try_except regular_body any_exception on_error s0) as [s r]
  end.
  simpl in *. destruct H as [Hc Hv]. split; [lia | exact Hv].
Qed.

Lemma card_body_keeps_tally (card : @web_element (counting base)) (t : tally) :
  keeps (fun s => tally_of (session s) = t)
        (card_body (selenium := counting base) card).
Proof.
  unfold card_body, card_first_text, card_link, derive_success. hold.
Qed.

Lemma collect_cards_still (cards : list (@web_element (counting base)))
    (d : @driver (counting base)) (profiles : list LinkedInProfile) :
  tally_of (fst (collect_cards cards d profiles)) = tally_of d.
Proof.
  revert d profiles. induction cards as [|card cards IH]; intros d profiles;
    cbn [collect_cards].
  - reflexivity.
  - pose proof (@card_body_keeps_tally card (tally_of d)) as Hk.
    unfold keeps, triple in Hk.
    specialize (Hk (mkState (new_profile (utcnow_isoformat d)) d) eq_refl).
    unfold tally_of in *.
    destruct (card_body card (mkState (new_profile (utcnow_isoformat d)) d))
      as [s [a|e]].
    + destruct (extraction_success (profile s)); rewrite IH; exact Hk.
    + rewrite IH. exact Hk.
Qed.

Lemma search_results_still (d : @driver (counting base)) :
  tally_of (fst (extract_sales_navigator_search_results d)) = tally_of d.
Proof.
  unfold extract_sales_navigator_search_results. cbv zeta.
  destruct (find_profile_cards (time_sleep d)) as [cards|e].
  - rewrite collect_cards_still. reflexivity.
  - reflexivity.
Qed.

(** The page visits of [extract_profile]: one when an address is given. *)
Lemma navigate_visits (url : option string) (d : @driver (counting base)) :
  tally_of (fst (navigate url d)) =
  mkTally (clicks (tally_of d))
          (visits (tally_of d) +
           match url with
           | Some u => if truthy u then 1 else 0
           | None => 0
           end).
Proof.
  unfold navigate. destruct url as [u|].
  - destruct (truthy u).
    + simpl. destruct (@driver_get base (fst d) u) as [d' [[]|e]]; simpl;
        unfold tally_of; simpl; f_equal; lia.
    + simpl. destruct d as [d0 [c v]]. unfold tally_of. simpl. f_equal. lia.
  - simpl. destruct d as [d0 [c v]]. unfold tally_of. simpl. f_equal. lia.
Qed.

(** X6.  Run on any browser with a tally of clicks and page visits:
    [extract_sales_navigator_profile] makes at most four clicks,
    [extract_regular_profile] at most two, the search collector none, and
    none of the three visits a page; [extract_profile] makes at most four
    clicks and visits one page when it is given an address, none
    otherwise. *)
Theorem methods_click_and_visit_bounds (url : option string)
    (d : @driver (counting base)) :
  (clicks (tally_of (fst (extract_sales_navigator_profile d)))
     <= clicks (tally_of d) + 4 /\
   visits (tally_of (fst (extract_sales_navigator_profile d))) = visits (tally_of d)) /\
  (clicks (tally_of (fst (extract_regular_profile d))) <= clicks (tally_of d) + 2 /\
   visits (tally_of (fst (extract_regular_profile d))) = visits (tally_of d)) /\
  tally_of (fst (extract_sales_navigator_search_results d)) = tally_of d /\
  (clicks (tally_of (fst (extract_profile url d))) <= clicks (tally_of d) + 4 /\
   visits (tally_of (fst (extract_profile url d))) =
   visits (tally_of d) +
   match url with
   | Some u => if truthy u then 1 else 0
   | None => 0
   end).
Proof.
  split; [apply sales_navigator_profile_spends|].
  split; [apply regular_profile_spends|].
  split; [apply search_results_still|].
  unfold extract_profile.
  pose proof (navigate_visits url d) as Hn.
  destruct (navigate url d) as [d1 arrived]. cbn [fst] in Hn.
  assert (Hc1 : clicks (tally_of d1) = clicks (tally_of d))
    by (rewrite Hn; reflexivity).
  assert (Hv1 : visits (tally_of d1) =
                visits (tally_of d) +
                match url with
                | Some u => if truthy u then 1 else 0
                | None => 0
                end)
    by (rewrite Hn; reflexivity).
  clear Hn.
  destruct arrived as [[]|e]; [|cbn [fst]; split; [lia | exact Hv1]].
  destruct (detect_page_type d1) as [t|e]; [|cbn [fst]; split; [lia | exact Hv1]].
  unfold dispatch.
  destruct (String.eqb t "sales_navigator_profile").
  { pose proof (sales_navigator_profile_spends d1) as [Hc Hv].
    destruct (extract_sales_navigator_profile d1) as [d2 p]. cbn [fst] in *.
    split; [lia | congruence]. }
  destruct (String.eqb t "sales_navigator_search").
  { pose proof (search_results_still d1) as Hs.
    destruct (extract_sales_navigator_search_results d1) as [d2 l]. cbn [fst] in *.
    rewrite Hs. split; [lia | exact Hv1]. }
  destruct (list_in t ["authenticated_profile"; "public_profile"]).
  { pose proof (regular_profile_spends d1) as [Hc Hv].
    destruct (extract_regular_profile d1) as [d2 p]. cbn [fst] in *.
    split; [lia | congruence]. }
  cbn [fst]. split; [lia | exact Hv1].
Qed.

(** *** Without the authenticated-only panel, no click *)
Lemma contact_flow_skipped_still (t : string) (t0 : tally) :
  t <> "authenticated_profile" ->
  keeps (fun s => tally_of (session s) = t0 /\ profile_type (profile s) = t)
        (profile_type_now <- attr (selenium := counting base) profile_type ;;
         when (String.eqb profile_type_now "authenticated_profile")
              _extract_contact_info ;;;
         derive_success).
Proof.
  intros Hne s [Htally Ht]. unfold bind at 1. unfold attr, gets.
  rewrite Ht. apply String.eqb_neq in Hne. rewrite Hne. simpl.
  split; [exact Htally | exact Ht].
Qed.

Lemma regular_body_without_click (d : @driver (counting base)) :
  detect_page_type d <> Ok "authenticated_profile" ->
  triple (fun s => session s = d)
         (regular_body (selenium := counting base))
         (fun _ s => tally_of (session s) = tally_of d)
         (fun _ s => tally_of (session s) = tally_of d).
Proof.
  intros Hne. unfold regular_body.
  apply triple_bind
    with (R := fun t s => tally_of (session s) = tally_of d /\
                          t <> "authenticated_profile").
  { intros s Hs. unfold ask. rewrite Hs.
    destruct (detect_page_type d) as [t|e] eqn:Hdet.
    - split; [reflexivity|]. intros ->. apply Hne. reflexivity.
    - reflexivity. }
  intros t.
  apply triple_bind
    with (R := fun _ s => (tally_of (session s) = tally_of d /\
                           profile_type (profile s) = t) /\
                          t <> "authenticated_profile").
  { apply triple_modify. intros s [Htally Hne']. split; [|exact Hne'].
    split; [exact Htally | reflexivity]. }
  intros _.
  destruct (String.eqb_spec t "authenticated_profile") as [Heq | Hne'].
  { intros s [_ Hne']. contradiction. }
  apply triple_conseq
    with (P := fun s => tally_of (session s) = tally_of d /\
                        profile_type (profile s) = t)
         (Q := fun (_ : unit) s => tally_of (session s) = tally_of d /\
                                   profile_type (profile s) = t)
         (E := fun (_ : exn) s => tally_of (session s) = tally_of d /\
                                  profile_type (profile s) = t).
  - apply keeps_bind; [hold | intros _].
    apply keeps_bind; [unfold regular_name; hold | intros _].
    apply keeps_bind; [unfold regular_role; hold | intros _].
    apply keeps_bind; [unfold regular_company; hold | intros _].
    apply keeps_bind; [unfold regular_location; hold | intros _].
    apply keeps_bind; [unfold _extract_about_section; hold | intros _].
    apply contact_flow_skipped_still. exact Hne'.
  - intros s [H _]. exact H.
  - intros a s [H _]. exact H.
  - intros e s [H _]. exact H.
Qed.

(** X7.  On a page that is not detected as an authenticated profile,
    [extract_regular_profile] makes no click and visits no page: the
    contact modal is never opened. *)
Theorem regular_profile_without_panel_makes_no_click (d : @driver (counting base)) :
  detect_page_type d <> Ok "authenticated_profile" ->
  tally_of (fst (extract_regular_profile d)) = tally_of d.
Proof.
  intros Hne. unfold extract_regular_profile.
  pose proof (regular_body_without_click Hne) as Hb. unfold triple in Hb.
  match goal with
  | |- context [try_except _ _ _ ?s0] =>
      specialize (Hb s0 eq_refl); unfold try_except;
      destruct (regular_body s0) as [s [a|e]]
  end.
  - exact Hb.
  - exact Hb.
Qed.
End Counting.

Lemma regular_profile_without_panel_makes_no_click_witness :
  tally_of (fst (extract_regular_profile (selenium := counting Scripted.scripted)
                   (Samples.public_alice, mkTally 0 0)))
  = mkTally 0 0.
Proof.
  apply (@regular_profile_without_panel_makes_no_click Scripted.scripted
           (Samples.public_alice, mkTally 0 0)).
  vm_compute. intros H. discriminate H.
Defined.

End CountFacts.

(** * The callers: [main.py] and [contact_extraction_demo.py] *)

Module CallerFacts.
Import PyStr Profile Exn Browser Extractor Spec Logic LogicFacts StrFacts
  ExtractorFacts Coverage MethodFacts Sink Demo Main Logged Callers.

(** ** The quality score *)

Lemma nonempty_length {A : Type} (l : list A) :
  nonempty l = negb (Nat.eqb (length l) 0).
Proof. destruct l; reflexivity. Qed.

Lemma quality_closed_form (c : contact_information) :
  _calculate_contact_quality c =
    Nat.min (length (info_emails c) * 3) 5 + Nat.min (length (info_phones c) * 2) 3 +
    Nat.min (length (info_websites c)) 1 + Nat.min (length (info_social_links c)) 1.
Proof.
  unfold _calculate_contact_quality. rewrite !nonempty_length.
  destruct (info_emails c), (info_phones c), (info_websites c), (info_social_links c);
    cbn [length Nat.eqb negb]; lia.
Qed.

(** X8.  The quality score is the sum of four capped terms: the guards
    on empty lists and the final cap at ten never change it.  It is ten
    exactly when there are two emails, two phones, a website and a social
    link, and zero exactly when all four lists are empty; addresses never
    count. *)
Theorem contact_quality_score (c : contact_information) :
  _calculate_contact_quality c =
    Nat.min (length (info_emails c) * 3) 5 + Nat.min (length (info_phones c) * 2) 3 +
    Nat.min (length (info_websites c)) 1 + Nat.min (length (info_social_links c)) 1 /\
  _calculate_contact_quality c <= 10 /\
  (_calculate_contact_quality c = 10 <->
     2 <= length (info_emails c) /\ 2 <= length (info_phones c) /\
     1 <= length (info_websites c) /\ 1 <= length (info_social_links c)) /\
  (_calculate_contact_quality c = 0 <->
     info_emails c = [] /\ info_phones c = [] /\ info_websites c = [] /\
     info_social_links c = []).
Proof.
  rewrite quality_closed_form.
  split; [reflexivity|]. split; [lia|]. split.
  - lia.
  - rewrite <- !length_zero_iff_nil. lia.
Qed.


(** ** Reading the list of addresses *)

Lemma rstrip_cons (c : ascii) (s : string) :
  rstrip (String c s) =
    match rstrip s with
    | EmptyString => if is_space c then EmptyString else String c EmptyString
    | r => String c r
    end.
Proof. reflexivity. Qed.

Lemma rstrip_idempotent (s : string) : rstrip (rstrip s) = rstrip s.
Proof.
  induction s as [|c s IH]; [reflexivity|]. rewrite rstrip_cons.
  destruct (rstrip s) as [|c' r] eqn:Hr.
  - destruct (is_space c) eqn:Hc; [reflexivity|]. cbn [rstrip]. rewrite Hc. reflexivity.
  - rewrite rstrip_cons, IH. reflexivity.
Qed.

Lemma lstrip_head (s : string) :
  match lstrip s with
  | EmptyString => True
  | String c _ => is_space c = false
  end.
Proof.
  induction s as [|c s IH]; [exact I|]. cbn [lstrip].
  destruct (is_space c) eqn:Hc; [exact IH | exact Hc].
Qed.

Lemma lstrip_rstrip (s : string) :
  match s with
  | EmptyString => True
  | String c _ => is_space c = false
  end ->
  lstrip (rstrip s) = rstrip s.
Proof.
  destruct s as [|c s]; [reflexivity|]. intros Hc. rewrite rstrip_cons.
  destruct (rstrip s); rewrite ?Hc; cbn [lstrip]; rewrite Hc; reflexivity.
Qed.

Lemma strip_idempotent (s : string) : strip (strip s) = strip s.
Proof.
  unfold strip. rewrite (lstrip_rstrip (lstrip s) (lstrip_head s)).
  apply rstrip_idempotent.
Qed.

(** X13.  [load_urls_from_file] returns, in the order of the file, lines
    without surrounding white space, none of them empty and never more
    than the file has; it returns nothing when the file cannot be read.
    The comment test looks at the unstripped line: an indented comment is
    kept, so a returned entry can start with the comment sign. *)
Theorem loaded_addresses_are_stripped (lines : list string) :
  Forall (fun url => url <> EmptyString /\ strip url = url)
         (load_urls_from_file (Some lines)) /\
  length (load_urls_from_file (Some lines)) <= length lines /\
  load_urls_from_file None = [] /\
  load_urls_from_file (Some (lines ++ ["  # note"])) =
    load_urls_from_file (Some lines) ++ ["# note"].
Proof.
  unfold load_urls_from_file. split; [|split; [|split]].
  - apply Forall_forall. intros url Hin. apply in_map_iff in Hin.
    destruct Hin as [line [<- Hline]]. apply filter_In in Hline.
    destruct Hline as [_ Hkeep]. apply andb_prop in Hkeep. destruct Hkeep as [Ht _].
    split; [apply truthy_true_iff; exact Ht | apply strip_idempotent].
  - rewrite length_map. apply filter_length_le.
  - reflexivity.
  - rewrite filter_app, map_app. reflexivity.
Qed.

(** ** What the extractor hands to its callers *)

Section Callers.
Context {selenium : Selenium} {storage : Storage}.

Lemma extract_profile_handed_over (url : option string) (d : driver) :
  every_profile handed_over (snd (extract_profile url d)).
Proof.
  apply extract_profile_result.
  - intros d'. split; [|apply never_assigned_sales_navigator].
    pose proof (derived_success_iff_name (extract_sales_navigator_profile_derived d')) as H.
    apply H.
  - intros d'. split; [|apply never_assigned_regular].
    apply (proj1 (extract_regular_profile_flag d')).
  - intros d'. pose proof (proj2 (search_results_spec d')) as Hn.
    pose proof (never_assigned_search d') as Hd.
    rewrite Forall_forall in *. intros p Hp. split.
    + intros _. apply (Hn p Hp).
    + apply (Hd p Hp).
  - intros now. split; [intros H; discriminate H | repeat split].
Qed.

Lemma extract_profile_many (url : option string) (d : driver) :
  match snd (extract_profile url d) with
  | Ok (Many profiles) => length profiles <= 10 /\ Forall named profiles
  | _ => True
  end.
Proof.
  unfold extract_profile.
  destruct (navigate url d) as [d1 [[]|e]]; [|exact I].
  destruct (detect_page_type d1) as [t|e]; [|exact I].
  unfold dispatch.
  destruct (String.eqb t "sales_navigator_profile").
  { destruct (extract_sales_navigator_profile d1). exact I. }
  destruct (String.eqb t "sales_navigator_search").
  { pose proof (search_results_spec d1) as H.
    destruct (extract_sales_navigator_search_results d1). exact H. }
  destruct (list_in t ["authenticated_profile"; "public_profile"]).
  { destruct (extract_regular_profile d1). exact I. }
  exact I.
Qed.

(** ** The demo *)

Lemma data_sources_without_social (p : LinkedInProfile) :
  social_links p = [] ->
  _identify_data_sources p <> [] /\
  ~ In "LinkedIn Social Media Links" (_identify_data_sources p).
Proof.
  intros Hs. unfold _identify_data_sources. rewrite Hs.
  destruct (emails p), (phones p), (websites p), (about p); cbn; split;
    try discriminate; intros H; repeat (destruct H as [H|H]; [discriminate H|]);
    exact H.
Qed.

Lemma build_contact_data_record (p : LinkedInProfile) (profile_id : Z) :
  extraction_success p = true -> handed_over p ->
  demo_record (build_contact_data p profile_id).
Proof.
  intros Hs [Hn [Hsocial [Haddr _]]].
  destruct (data_sources_without_social p Hsocial) as [Hne Hnot].
  unfold demo_record, build_contact_data. cbn.
  repeat split; auto.
  rewrite quality_closed_form. cbn. rewrite Hsocial. cbn. lia.
Qed.

Lemma demonstrate_spec (profile_url : string) (w : world) :
  demonstrated w (demonstrate_contact_extraction profile_url w).
Proof.
  unfold demonstrated, demonstrate_contact_extraction.
  pose proof (extract_profile_handed_over (Some profile_url) (browser w)) as H.
  destruct (extract_profile (Some profile_url) (browser w)) as [d [[p|l]|e]];
    cbn in H |- *; try reflexivity.
  destruct (extraction_success p) eqn:Hs; cbn; [|reflexivity].
  destruct (save_profile (store w) p) as [db [profile_id|]]; cbn; [|exact I].
  apply build_contact_data_record; assumption.
Qed.

Lemma bulk_demo_loop_spec (profile_urls : list string) :
  forall (i n : nat) (w : world) (results : list contact_data),
    Forall demo_record results ->
    Forall demo_record (snd (bulk_demo_loop i n profile_urls w results)) /\
    length (snd (bulk_demo_loop i n profile_urls w results))
      <= length results + length profile_urls.
Proof.
  induction profile_urls as [|url rest IH]; intros i n w results Hr; cbn [bulk_demo_loop].
  - split; [exact Hr | cbn; lia].
  - pose proof (demonstrate_spec url w) as Hd. unfold demonstrated in Hd.
    destruct (demonstrate_contact_extraction url w) as [w1 [[data|]|f]]; cbn in Hd.
    + match goal with |- context [bulk_demo_loop _ _ _ ?w2 ?r2] =>
        destruct (IH (S i) n w2 r2) as [Ha Hl] end.
      { apply Forall_app; split; [exact Hr | constructor; [exact Hd | constructor]]. }
      split; [exact Ha|]. rewrite length_app in Hl. cbn [length] in *. lia.
    + match goal with |- context [bulk_demo_loop _ _ _ ?w2 ?r2] =>
        destruct (IH (S i) n w2 r2 Hr) as [Ha Hl] end.
      split; [exact Ha | cbn [length]; lia].
    + destruct (IH (S i) n w1 results Hr) as [Ha Hl].
      split; [exact Ha | cbn [length]; lia].
Qed.

(** X9.  A dictionary returned by [demonstrate_contact_extraction] that is
    not empty describes a named profile; its count of contact points is
    the number of its emails, phones and websites; it has no social link
    and no address, so its quality score is at most nine and the social
    media label is never among its data sources, which are never empty.
    When the dictionary is empty, or the extractor raised, nothing was
    stored.  [bulk_contact_extraction_demo] returns only such
    dictionaries, at most one for each address. *)
Theorem demo_dictionaries (profile_url : string) (profile_urls : list string)
    (w : world) :
  demonstrated w (demonstrate_contact_extraction profile_url w) /\
  Forall demo_record (snd (bulk_contact_extraction_demo profile_urls w)) /\
  length (snd (bulk_contact_extraction_demo profile_urls w)) <= length profile_urls.
Proof.
  split; [apply demonstrate_spec|].
  unfold bulk_contact_extraction_demo.
  destruct (bulk_demo_loop_spec profile_urls 1 (length profile_urls) w
              (@Forall_nil _ demo_record)) as [Ha Hl].
  split; [exact Ha | exact Hl].
Qed.

(** ** The entry points of [main.py] *)

Lemma single_profile_spec (profile_url : string) (w : world) :
  match snd (extract_single_profile profile_url w) with
  | Some p => named p /\ never_assigned p
  | None => True
  end.
Proof.
  unfold extract_single_profile.
  pose proof (extract_profile_handed_over (Some profile_url) (browser w)) as H.
  destruct (extract_profile (Some profile_url) (browser w)) as [d [[p|l]|e]];
    cbn in H |- *; try exact I.
  destruct (extraction_success p) eqn:Hs; cbn; [|exact I].
  destruct (save_profile (store w) p) as [db [profile_id|]]; cbn; [|exact I].
  destruct H as [Hn Hd]. split; [split; [exact Hs | exact (Hn Hs)] | exact Hd].
Qed.

Lemma bulk_loop_spec (profile_urls : list string) :
  forall (i n : nat) (w : world) (results : list LinkedInProfile),
    Forall named results ->
    Forall named (snd (bulk_loop i n profile_urls w results)) /\
    length (snd (bulk_loop i n profile_urls w results))
      <= length results + length profile_urls.
Proof.
  induction profile_urls as [|url rest IH]; intros i n w results Hr; cbn [bulk_loop].
  - split; [exact Hr | cbn [snd length]; lia].
  - pose proof (single_profile_spec url w) as Hs.
    destruct (extract_single_profile url w) as [w1 [p|]]; cbn in Hs.
    + match goal with |- context [bulk_loop _ _ _ ?w2 ?r2] =>
        destruct (IH (S i) n w2 r2) as [Ha Hl] end.
      { apply Forall_app; split; [exact Hr | constructor; [apply Hs | constructor]]. }
      split; [exact Ha|]. rewrite length_app in Hl. cbn [length] in *. lia.
    + match goal with |- context [bulk_loop _ _ _ ?w2 ?r2] =>
        destruct (IH (S i) n w2 r2 Hr) as [Ha Hl] end.
      split; [exact Ha | cbn [length]; lia].
Qed.

Lemma single_profile_exactly (profile_url : string) (w : world) (p : LinkedInProfile) :
  snd (extract_single_profile profile_url w) = Some p <->
  snd (extract_profile (Some profile_url) (browser w)) = Ok (One p) /\
  extraction_success p = true /\
  snd (save_profile (store w) p) <> None.
Proof.
  unfold extract_single_profile.
  destruct (extract_profile (Some profile_url) (browser w)) as [d [[p0|l]|e]];
    cbn [snd]; try (split; [intros H; discriminate H | intros [H _]; discriminate H]).
  destruct (extraction_success p0) eqn:Hs; cbn [snd].
  - destruct (save_profile (store w) p0) as [db [profile_id|]] eqn:Hsave; cbn [snd]; split.
    + intros H. injection H as <-. rewrite Hsave. cbn [snd].
      split; [reflexivity | split; [exact Hs | discriminate]].
    + intros [H _]. injection H as <-. reflexivity.
    + intros H. discriminate H.
    + intros (H & _ & Hid). injection H as <-. rewrite Hsave in Hid.
      exfalso. apply Hid. reflexivity.
  - split; [intros H; discriminate H|].
    intros (H & Hflag & _). injection H as <-. rewrite Hs in Hflag. discriminate Hflag.
Qed.

Lemma single_profile_on_other_pages (profile_url : string) (w : world) (d1 : driver)
    (page_type : string) :
  navigate (Some profile_url) (browser w) = (d1, Ok tt) ->
  detect_page_type d1 = Ok page_type ->
  page_type = "sales_navigator_search" \/ unsupported page_type ->
  snd (extract_single_profile profile_url w) = None.
Proof.
  intros Hnav Hdet Hcat. unfold extract_single_profile, extract_profile.
  rewrite Hnav, Hdet. unfold dispatch.
  destruct Hcat as [-> | [-> | ->]]; cbn [String.eqb Ascii.eqb Bool.eqb list_in existsb orb].
  - destruct (extract_sales_navigator_search_results d1). reflexivity.
  - reflexivity.
  - reflexivity.
Qed.

(** X10.  [extract_single_profile] returns a profile exactly when the
    extractor returned that one profile, flagged successful, and the
    storage saved it; the profile then has a name.  It returns none when
    the extractor raised or returned a list, when the flag is false or
    when the save raised; in particular none for a search page and none
    for a page outside the dispatch table.
    [extract_sales_navigator_search] returns at most ten profiles, all of
    them named. *)
Theorem entry_points_return_named_profiles (url : string) (w : world) :
  (forall p,
     snd (extract_single_profile url w) = Some p <->
     snd (extract_profile (Some url) (browser w)) = Ok (One p) /\
     extraction_success p = true /\
     snd (save_profile (store w) p) <> None) /\
  (forall p,
     snd (extract_single_profile url w) = Some p -> named p /\ never_assigned p) /\
  (forall d1 page_type,
     navigate (Some url) (browser w) = (d1, Ok tt) ->
     detect_page_type d1 = Ok page_type ->
     page_type = "sales_navigator_search" \/ unsupported page_type ->
     snd (extract_single_profile url w) = None) /\
  length (snd (extract_sales_navigator_search url w)) <= 10 /\
  Forall named (snd (extract_sales_navigator_search url w)).
Proof.
  split; [intros p; apply single_profile_exactly|].
  split.
  { intros p Hp. pose proof (single_profile_spec url w) as H. rewrite Hp in H. exact H. }
  split; [intros d1 page_type; apply single_profile_on_other_pages|].
  unfold extract_sales_navigator_search.
  pose proof (extract_profile_many (Some url) (browser w)) as H.
  destruct (extract_profile (Some url) (browser w)) as [d [[p|l]|e]];
    cbn in H |- *; try (split; [apply Nat.le_0_l | constructor]).
  destruct (save_all l (store w)) as [db [[]|]]; cbn.
  - exact H.
  - split; [apply Nat.le_0_l | constructor].
Qed.

(** X11.  [extract_bulk_profiles] on an empty list raises
    [ZeroDivisionError], the success rate being computed after the loop;
    on any other list it returns, never more profiles than addresses,
    every one of them named. *)
Theorem bulk_extraction_outcome (profile_urls : list string) (w : world) :
  match profile_urls with
  | [] => extract_bulk_profiles profile_urls w = (w, Failed ZeroDivisionError)
  | _ :: _ =>
      exists results,
        snd (extract_bulk_profiles profile_urls w) = Done results /\
        length results <= length profile_urls /\
        Forall named results
  end.
Proof.
  destruct profile_urls as [|url rest]; [reflexivity|].
  unfold extract_bulk_profiles.
  destruct (bulk_loop_spec (url :: rest) 1 (length (url :: rest)) w
              (@Forall_nil _ named)) as [Ha Hl].
  destruct (bulk_loop 1 (length (url :: rest)) (url :: rest) w []) as [w' results].
  cbn [length Nat.eqb snd] in *. exists results. auto.
Qed.
End Callers.

(** ** What reaches the storage *)

Section Saved.
Context {selenium : Selenium} {base : Storage}.

Lemma stored_nothing (w w' : @world selenium (logging base)) :
  store w' = store w -> stored (log_of (store w)) 0 w' [].
Proof.
  intros H. unfold stored. rewrite H, app_nil_r. repeat split; constructor.
Qed.

Lemma stored_le (before : list LinkedInProfile) (n n' : nat) (w' : @world selenium (logging base))
    (added : list LinkedInProfile) :
  n <= n' -> stored before n w' added -> stored before n' w' added.
Proof. unfold stored. intros Hle (H1 & H2 & H3). repeat split; auto. lia. Qed.

Lemma stored_trans (before : list LinkedInProfile) (n1 n2 : nat) (w1 w2 : @world selenium (logging base))
    (added1 added2 : list LinkedInProfile) :
  stored before n1 w1 added1 ->
  stored (log_of (store w1)) n2 w2 added2 ->
  stored before (n1 + n2) w2 (added1 ++ added2).
Proof.
  unfold stored. intros (H1 & H2 & H3) (K1 & K2 & K3).
  rewrite K1, H1, app_assoc, length_app. repeat split; [lia|].
  apply Forall_app. split; assumption.
Qed.

Lemma single_profile_stored (profile_url : string) (w : @world selenium (logging base)) :
  exists added,
    stored (log_of (store w)) 1 (fst (extract_single_profile profile_url w)) added /\
    forall p, snd (extract_single_profile profile_url w) = Some p -> added = [p].
Proof.
  unfold extract_single_profile.
  pose proof (extract_profile_handed_over (Some profile_url) (browser w)) as H.
  destruct (extract_profile (Some profile_url) (browser w)) as [d [[p|l]|e]];
    cbn [snd every_profile] in H;
    try (exists []; split;
         [apply stored_le with (n := 0); [lia | apply stored_nothing; reflexivity]
         | cbn; intros p' Hp; discriminate Hp]).
  destruct (extraction_success p) eqn:Hs;
    [|exists []; split;
      [apply stored_le with (n := 0); [lia | apply stored_nothing; reflexivity]
      | cbn; intros p' Hp; discriminate Hp]].
  exists [p]. cbn [save_profile logging].
  destruct (@save_profile base (fst (store w)) p) as [db saved].
  assert (Hst : forall d' : driver,
            stored (log_of (store w)) 1
              (mkWorld (storage := logging base) d' (db, snd (store w) ++ [p])) [p]).
  { intros d'. unfold stored, log_of. cbn. repeat split; [lia|].
    constructor; [split; [exact Hs | exact (proj1 H Hs)] | constructor]. }
  destruct saved as [profile_id|]; cbn [fst snd]; split; try apply Hst.
  - intros p' Hp. injection Hp as <-. reflexivity.
  - intros p' Hp. discriminate Hp.
Qed.

Lemma bulk_loop_stored (profile_urls : list string) :
  forall (i n : nat) (w : @world selenium (logging base)) (results : list LinkedInProfile),
  exists added extra,
    stored (log_of (store w)) (length profile_urls)
      (fst (bulk_loop i n profile_urls w results)) added /\
    snd (bulk_loop i n profile_urls w results) = results ++ extra /\
    incl extra added.
Proof.
  induction profile_urls as [|url rest IH]; intros i n w results; cbn [bulk_loop].
  - exists [], []. rewrite app_nil_r.
    split; [apply stored_nothing; reflexivity | split; [reflexivity | apply incl_refl]].
  - destruct (single_profile_stored url w) as [added1 [H1 Hret]].
    destruct (extract_single_profile url w) as [w1 found]. cbn [fst snd] in *.
    match goal with |- context [bulk_loop _ _ _ ?w2 ?r2] =>
      assert (Hw : store w2 = store w1) by (destruct (Nat.ltb i n); reflexivity);
      destruct (IH (S i) n w2 r2) as [added2 [extra2 (H2 & Hres & Hincl)]];
      rewrite Hw in H2
    end.
    exists (added1 ++ added2).
    destruct found as [p|].
    + exists (p :: extra2). split; [|split].
      * apply (stored_trans H1 H2).
      * rewrite Hres, <- app_assoc. reflexivity.
      * rewrite (Hret p eq_refl). intros x [<-|Hx]; [left; reflexivity|].
        right. apply Hincl. exact Hx.
    + exists extra2. split; [|split].
      * apply (stored_trans H1 H2).
      * exact Hres.
      * intros x Hx. apply in_or_app. right. apply Hincl. exact Hx.
Qed.

Lemma save_all_stored (profiles : list LinkedInProfile) :
  forall db : @database (logging base),
    Forall named profiles ->
    exists added,
      log_of (fst (save_all profiles db)) = log_of db ++ added /\
      (exists rest, profiles = added ++ rest) /\
      (snd (save_all profiles db) = Some tt -> added = profiles).
Proof.
  induction profiles as [|p rest IH]; intros db Hn; cbn [save_all].
  - exists []. rewrite app_nil_r. repeat split. exists []. reflexivity.
  - inversion Hn as [|? ? [Hs Hname] Hrest]; subst. rewrite Hs.
    cbn [save_profile logging].
    destruct (@save_profile base (fst db) p) as [db1 [profile_id|]].
    + destruct (IH (db1, snd db ++ [p]) Hrest) as [added (Hlog & [rest' Hpre] & Hall)].
      exists (p :: added). split; [|split].
      * rewrite Hlog. unfold log_of. cbn [snd]. rewrite <- app_assoc. reflexivity.
      * exists rest'. cbn. rewrite <- Hpre. reflexivity.
      * intros Hok. rewrite (Hall Hok). reflexivity.
    + exists [p]. split; [|split].
      * reflexivity.
      * exists rest. reflexivity.
      * intros Hok. discriminate Hok.
Qed.

Lemma search_stored (search_url : string) (w : @world selenium (logging base)) :
  exists added,
    stored (log_of (store w)) 10 (fst (extract_sales_navigator_search search_url w)) added /\
    (snd (extract_sales_navigator_search search_url w) = [] \/
     snd (extract_sales_navigator_search search_url w) = added).
Proof.
  unfold extract_sales_navigator_search.
  pose proof (extract_profile_many (Some search_url) (browser w)) as H.
  destruct (extract_profile (Some search_url) (browser w)) as [d [[p|l]|e]];
    cbn [snd] in H;
    try (exists []; split;
         [apply stored_le with (n := 0); [lia | apply stored_nothing; reflexivity]
         | left; reflexivity]).
  destruct H as [Hlen Hn].
  destruct (save_all_stored (store w) Hn) as [added (Hlog & [rest Hpre] & Hall)].
  exists added.
  assert (Hst : forall d' : driver,
            stored (log_of (store w)) 10
              (mkWorld (storage := logging base) d' (fst (save_all l (store w)))) added).
  { intros d'. unfold stored. cbn [store]. split; [exact Hlog|]. split.
    - rewrite Hpre, length_app in Hlen. lia.
    - rewrite Hpre in Hn. apply Forall_app in Hn. apply Hn. }
  destruct (save_all l (store w)) as [db [[]|]]; cbn [fst snd] in *.
  - split; [apply Hst | right; symmetry; apply Hall; reflexivity].
  - split; [apply Hst | left; reflexivity].
Qed.

Lemma demonstrate_stored (profile_url : string) (w : @world selenium (logging base)) :
  exists added,
    stored (log_of (store w)) 1 (fst (demonstrate_contact_extraction profile_url w)) added.
Proof.
  unfold demonstrate_contact_extraction.
  pose proof (extract_profile_handed_over (Some profile_url) (browser w)) as H.
  destruct (extract_profile (Some profile_url) (browser w)) as [d [[p|l]|e]];
    cbn [snd every_profile] in H;
    try (exists [];
         apply stored_le with (n := 0); [lia | apply stored_nothing; reflexivity]).
  destruct (extraction_success p) eqn:Hs; cbn [negb];
    [|exists []; apply stored_le with (n := 0); [lia | apply stored_nothing; reflexivity]].
  exists [p]. cbn [save_profile logging].
  destruct (@save_profile base (fst (store w)) p) as [db saved].
  assert (Hst : forall d' : driver,
            stored (log_of (store w)) 1
              (mkWorld (storage := logging base) d' (db, snd (store w) ++ [p])) [p]).
  { intros d'. unfold stored, log_of. cbn. repeat split; [lia|].
    constructor; [split; [exact Hs | exact (proj1 H Hs)] | constructor]. }
  destruct saved as [profile_id|]; cbn [fst snd]; apply Hst.
Qed.

Lemma bulk_demo_loop_stored (profile_urls : list string) :
  forall (i n : nat) (w : @world selenium (logging base)) (results : list contact_data),
  exists added,
    stored (log_of (store w)) (length profile_urls)
      (fst (bulk_demo_loop i n profile_urls w results)) added.
Proof.
  induction profile_urls as [|url rest IH]; intros i n w results; cbn [bulk_demo_loop].
  - exists []. apply stored_nothing. reflexivity.
  - destruct (demonstrate_stored url w) as [added1 H1].
    destruct (demonstrate_contact_extraction url w) as [w1 [found|f]]; cbn [fst snd] in *.
    + match goal with |- context [bulk_demo_loop _ _ _ ?w2 ?r2] =>
        assert (Hw : store w2 = store w1) by (destruct (Nat.ltb i n); reflexivity);
        destruct (IH (S i) n w2 r2) as [added2 H2];
        rewrite Hw in H2
      end.
      exists (added1 ++ added2). apply (stored_trans H1 H2).
    + destruct (IH (S i) n w1 results) as [added2 H2].
      exists (added1 ++ added2). apply (stored_trans H1 H2).
Qed.

(** X12.  Recording every call of [save_profile]: whatever the pages
    show and whatever the storage answers, the entry points of [main.py]
    and the demo pass only named, successful profiles to the storage;
    one call at most for a single address, ten at most for a search and
    one at most for each address of a bulk run.  A profile returned by
    [extract_single_profile] or [extract_bulk_profiles] is one that was
    saved, and the list returned by [extract_sales_navigator_search] is
    empty or exactly what was saved. *)
Theorem only_named_profiles_are_saved (url : string) (urls : list string)
    (w : @world selenium (logging base)) :
  (exists added,
     stored (log_of (store w)) 1 (fst (extract_single_profile url w)) added /\
     forall p, snd (extract_single_profile url w) = Some p -> added = [p]) /\
  (exists added,
     stored (log_of (store w)) (length urls) (fst (extract_bulk_profiles urls w)) added /\
     forall results, snd (extract_bulk_profiles urls w) = Done results ->
                     incl results added) /\
  (exists added,
     stored (log_of (store w)) 10 (fst (extract_sales_navigator_search url w)) added /\
     (snd (extract_sales_navigator_search url w) = [] \/
      snd (extract_sales_navigator_search url w) = added)) /\
  (exists added,
     stored (log_of (store w)) 1 (fst (demonstrate_contact_extraction url w)) added) /\
  (exists added,
     stored (log_of (store w)) (length urls)
       (fst (bulk_contact_extraction_demo urls w)) added).
Proof.
  split; [apply single_profile_stored|].
  split.
  { unfold extract_bulk_profiles.
    destruct (bulk_loop_stored urls 1 (length urls) w [])
      as [added [extra (H & Hres & Hincl)]].
    destruct (bulk_loop 1 (length urls) urls w []) as [w' results].
    cbn [fst snd app] in *. subst extra. exists added.
    destruct (Nat.eqb (length urls) 0); cbn [fst snd]; (split; [exact H|]).
    - intros results' Hr. discriminate Hr.
    - intros results' Hr. injection Hr as <-. exact Hincl. }
  split; [apply search_stored|].
  split; [apply demonstrate_stored|].
  apply bulk_demo_loop_stored.
Qed.
End Saved.

End CallerFacts.

(** * The storage: [database_storage.py] *)

Module DatabaseFacts.
Import PyStr Profile Coverage Samples Database.

(** ** Contact rows, written and read back *)

Lemma file_contact_written (socials : list string) (t v : string) :
  In t written_types ->
  file_contact (only_social socials) (t, v) =
    only_social (if String.eqb t "social" then socials ++ [v] else socials).
Proof.
  intros H. unfold written_types in H.
  repeat (destruct H as [<-|H]; [reflexivity|]). destruct H.
Qed.

Lemma file_contacts_written (rows : list (string * string)) :
  forall socials,
    Forall (fun row => In (fst row) written_types) rows ->
    fold_left file_contact rows (only_social socials) =
      only_social (socials ++ map snd (filter is_social rows)).
Proof.
  induction rows as [|[t v] rows IH]; intros socials Hall; cbn [fold_left filter map].
  - rewrite app_nil_r. reflexivity.
  - inversion Hall as [|? ? Ht Hrest]; subst. cbn [fst] in Ht.
    rewrite (file_contact_written socials v Ht), (IH _ Hrest).
    unfold is_social at 2. cbn [fst].
    destruct (String.eqb t "social"); cbn [map snd].
    + rewrite <- app_assoc. reflexivity.
    + reflexivity.
Qed.

Lemma selected_rows (profile_id : Z) (p : LinkedInProfile) (row : string * string) :
  In row (map selected (contact_data_rows profile_id p)) ->
  In (fst row) written_types /\
  (is_social row = true -> In (snd row) (social_links p)).
Proof.
  unfold contact_data_rows. rewrite !map_app, !map_map. unfold selected.
  cbn [contact_type contact_value fst snd].
  intros H. repeat (apply in_app_or in H; destruct H as [H|H]);
    apply in_map_iff in H; destruct H as [x [<- Hx]]; cbn [fst snd]; unfold is_social;
    cbn [fst]; (split; [cbn; tauto|]); intros Hs; try discriminate Hs.
  exact Hx.
Qed.

(** X14.  Of the storage module with its quotes repaired.  The rows
    [_save_contact_info] writes carry the types email,
    phone, website, social and address, while [_get_profile_contacts]
    files a row under its type only if that type is one of the plural
    keys of its dictionary.  So of whatever it fetches back of a saved
    profile, only the social links are returned; emails, phones, websites
    and addresses always come back empty, and a profile without social
    links reads back as the empty dictionary. *)
Theorem saved_contacts_read_back_without_emails (profile_id : Z) (p : LinkedInProfile)
    (rows : list (string * string)) :
  incl rows (map selected (contact_data_rows profile_id p)) ->
  _get_profile_contacts (Some rows) = only_social (map snd (filter is_social rows)) /\
  incl (map snd (filter is_social rows)) (social_links p) /\
  (social_links p = [] -> _get_profile_contacts (Some rows) = no_contacts).
Proof.
  intros Hincl.
  assert (Hall : Forall (fun row => In (fst row) written_types) rows).
  { apply Forall_forall. intros row Hrow.
    apply (proj1 (selected_rows profile_id p row (Hincl row Hrow))). }
  assert (Hsoc : incl (map snd (filter is_social rows)) (social_links p)).
  { intros v Hv. apply in_map_iff in Hv. destruct Hv as [row [<- Hrow]].
    apply filter_In in Hrow. destruct Hrow as [Hrow Hs].
    apply (proj2 (selected_rows profile_id p row (Hincl row Hrow)) Hs). }
  assert (Hget : _get_profile_contacts (Some rows)
                 = only_social (map snd (filter is_social rows))).
  { unfold _get_profile_contacts.
    change no_contacts with (only_social []).
    rewrite (file_contacts_written [] Hall). reflexivity. }
  split; [exact Hget|]. split; [exact Hsoc|].
  intros Hnone. rewrite Hget. rewrite Hnone in Hsoc.
  destruct (map snd (filter is_social rows)) as [|v l]; [reflexivity|].
  destruct (Hsoc v (or_introl eq_refl)).
Qed.

Lemma saved_contacts_read_back_without_emails_witness :
  _get_profile_contacts
    (Some (map selected (contact_data_rows 7 (construct clock john_doe_args))))
  = no_contacts.
Proof.
  refine (proj2 (proj2 (@saved_contacts_read_back_without_emails 7
                          (construct clock john_doe_args)
                          (map selected (contact_data_rows 7 (construct clock john_doe_args)))
                          _)) _).
  - apply incl_refl.
  - reflexivity.
Defined.

(** ** Looking a profile up *)

Lemma select_by_url_unique (linkedin_url : string) (table : list profile_row) :
  NoDup (map (column "linkedin_url") table) ->
  length (select_by_url linkedin_url table) <= 1.
Proof.
  unfold select_by_url.
  induction table as [|row table IH]; intros Hnd; cbn [filter map length] in *.
  - lia.
  - inversion Hnd as [|? ? Hnotin Hrest]; subst.
    destruct (column "linkedin_url" row) as [v|] eqn:Hc; [|apply IH; exact Hrest].
    destruct (String.eqb v linkedin_url) eqn:Hv; [|apply IH; exact Hrest].
    apply String.eqb_eq in Hv. subst v. cbn [length].
    assert (Hnone : filter (fun row0 : profile_row =>
              match column "linkedin_url" row0 with
              | Some v => String.eqb v linkedin_url
              | None => false
              end) table = []).
    { destruct (filter _ table) as [|row' l] eqn:Hf; [reflexivity|].
      exfalso. apply Hnotin.
      assert (Hin : In row' (filter (fun row0 : profile_row =>
                match column "linkedin_url" row0 with
                | Some v => String.eqb v linkedin_url
                | None => false
                end) table)) by (rewrite Hf; left; reflexivity).
      apply filter_In in Hin. destruct Hin as [Hin Hm].
      destruct (column "linkedin_url" row') as [v'|] eqn:Hc'; [|discriminate Hm].
      apply String.eqb_eq in Hm. subst v'.
      apply in_map_iff. exists row'. split; [exact Hc' | exact Hin]. }
    rewrite Hnone. cbn. lia.
Qed.

Lemma get_profile_by_url_short {V : Type} (cursor : list (list (string * V))) :
  length cursor <= 1 -> get_profile_by_url (Some cursor) = None.
Proof.
  destruct cursor as [|row [|row' rest]]; cbn; intros H.
  - reflexivity.
  - destruct row; reflexivity.
  - lia.
Qed.

(** X15.  Of the storage module with its quotes repaired.
    [get_profile_by_url] fetches twice: the row tested is not the
    row returned.  On a table that respects the uniqueness of
    [linkedin_url] it therefore returns no profile for any address, stored
    or not; in general what it returns is the second match. *)
Theorem lookup_by_url_finds_nothing (linkedin_url : string) (table : list profile_row) :
  unique_urls table ->
  get_profile_by_url (Some (select_by_url linkedin_url table)) = None /\
  (forall row, In row table -> column "linkedin_url" row = Some linkedin_url ->
               select_by_url linkedin_url table = [row]).
Proof.
  intros [Hnn Hnd].
  pose proof (select_by_url_unique linkedin_url table Hnd) as Hlen.
  split; [apply get_profile_by_url_short; exact Hlen|].
  intros row Hin Hc.
  assert (Hsel : In row (select_by_url linkedin_url table)).
  { unfold select_by_url. apply filter_In. split; [exact Hin|].
    rewrite Hc. apply String.eqb_refl. }
  destruct (select_by_url linkedin_url table) as [|r [|r' l]]; cbn in Hlen, Hsel.
  - destruct Hsel.
  - destruct Hsel as [<-|[]]. reflexivity.
  - lia.
Qed.

Lemma lookup_by_url_finds_nothing_witness :
  get_profile_by_url
    (Some (select_by_url "https://linkedin.com/in/testuser"
             [[("id", "1"); ("full_name", "Test User");
               ("linkedin_url", "https://linkedin.com/in/testuser")]])) = None.
Proof.
  refine (proj1 (@lookup_by_url_finds_nothing "https://linkedin.com/in/testuser"
                   [[("id", "1"); ("full_name", "Test User");
                     ("linkedin_url", "https://linkedin.com/in/testuser")]] _)).
  split.
  - constructor; [simpl; discriminate | constructor].
  - constructor; [simpl; tauto | constructor].
Defined.

(** ** The search query *)

Ltac by_flags f :=
  unfold where_clause, conditions_and_params, no_filter_given;
  destruct (given (by_company f)), (given (by_role f)), (given (by_location f)),
    (given (by_profile_type f)), (by_has_contact_info f) as [[|]|].

(** X16.  Of the storage module with its quotes repaired.  In
    [search_profiles] the [WHERE] clause has exactly as many
    placeholders as there are parameters; it is empty exactly when no
    filter is given; and it depends only on which filters are given, their
    texts going to the parameters and never into the clause. *)
Theorem where_clause_matches_params (f : filters) :
  placeholders (where_clause f) = length (snd (conditions_and_params f)) /\
  (where_clause f = EmptyString <-> no_filter_given f) /\
  (forall g, same_filters_given f g -> where_clause g = where_clause f).
Proof.
  split; [|split].
  - by_flags f; reflexivity.
  - by_flags f; cbn; split; intros H; try discriminate H; try reflexivity;
      try (repeat split; (reflexivity || discriminate));
      try (destruct H as (H1 & H2 & H3 & H4 & H5); try discriminate;
           exfalso; apply H5; reflexivity).
  - intros g (H1 & H2 & H3 & H4 & H5).
    assert (H6 : match by_has_contact_info g with Some true => true | _ => false end
                 = match by_has_contact_info f with Some true => true | _ => false end).
    { destruct (by_has_contact_info g) as [[|]|], (by_has_contact_info f) as [[|]|];
        try reflexivity;
        try (destruct H5 as [H5 _]; discriminate (H5 eq_refl));
        try (destruct H5 as [_ H5]; discriminate (H5 eq_refl)). }
    unfold where_clause, conditions_and_params. rewrite H1, H2, H3, H4.
    destruct (given (by_company f)), (given (by_role f)), (given (by_location f)),
      (given (by_profile_type f));
      destruct (by_has_contact_info g) as [[|]|], (by_has_contact_info f) as [[|]|];
      try discriminate H6; reflexivity.
Qed.

End DatabaseFacts.

(** * What the patterns let into the contact lists *)

Module ShapeFacts.
Import PyStr Re Patterns Contact Shape.

Local Open Scope string_scope.

(** ** Words *)

Lemma append_assoc (a b c : string) : (a ++ b) ++ c = a ++ (b ++ c).
Proof. induction a as [|x a IH]; cbn; [reflexivity | rewrite IH; reflexivity]. Qed.

Lemma append_nil_r (a : string) : a ++ "" = a.
Proof. induction a as [|x a IH]; cbn; [reflexivity | rewrite IH; reflexivity]. Qed.

Lemma length_append (a b : string) :
  String.length (a ++ b) = String.length a + String.length b.
Proof. induction a as [|x a IH]; cbn; [reflexivity | rewrite IH; reflexivity]. Qed.

Lemma take_append (w t : string) :
  take (String.length (w ++ t) - String.length t) (w ++ t) = w.
Proof.
  rewrite length_append.
  replace (String.length w + String.length t - String.length t) with (String.length w)
    by lia.
  induction w as [|x w IH]; cbn.
  - destruct t; reflexivity.
  - rewrite IH. reflexivity.
Qed.

Lemma all_chars_append (p : ascii -> bool) (a b : string) :
  all_chars p (a ++ b) = all_chars p a && all_chars p b.
Proof.
  induction a as [|x a IH]; cbn; [reflexivity|]. rewrite IH. apply andb_assoc.
Qed.

Lemma count_chars_append (p : ascii -> bool) (a b : string) :
  count_chars p (a ++ b) = count_chars p a + count_chars p b.
Proof. induction a as [|x a IH]; cbn; [reflexivity | rewrite IH; lia]. Qed.

Lemma lower_append (a b : string) : lower (a ++ b) = lower a ++ lower b.
Proof. induction a as [|x a IH]; cbn; [reflexivity | rewrite IH; reflexivity]. Qed.

Lemma occurs_in_refl (w : string) : occurs_in w w.
Proof. exists "", "". rewrite append_nil_r. reflexivity. Qed.

Lemma occurs_in_trans (a b c : string) : occurs_in a b -> occurs_in b c -> occurs_in a c.
Proof.
  intros [x [y ->]] [u [v ->]]. exists (u ++ x), (y ++ v).
  rewrite !append_assoc. reflexivity.
Qed.

Lemma occurs_in_cons (w s : string) (c : ascii) : occurs_in w s -> occurs_in w (String c s).
Proof. intros [x [y ->]]. exists (String c x), y. reflexivity. Qed.

(** ** The matcher only finds what the pattern derives *)

Lemma rep_sound (p : ascii -> bool) (s : string) :
  forall lo hi pv k out,
    rep p lo hi pv s k = Some out ->
    exists w s' pv',
      s = w ++ s' /\ all_chars p w = true /\ lo <= String.length w /\
      within hi (String.length w) /\ k pv' s' = Some out.
Proof.
  assert (Hstop : forall (lo : nat) (hi : option nat) (pv : option ascii) (s0 : string)
                     (k : option ascii -> string -> option mstate) (out : mstate),
            (if Nat.eqb lo 0 then k pv s0 else None) = Some out ->
            exists w s' pv',
              s0 = w ++ s' /\ all_chars p w = true /\ lo <= String.length w /\
              within hi (String.length w) /\ k pv' s' = Some out).
  { intros lo hi pv s0 k out H. destruct lo; [|discriminate H].
    exists "", s0, pv. cbn. repeat split; [lia | destruct hi; cbn; lia | exact H]. }
  induction s as [|c s IH]; intros lo hi pv k out H; cbn [rep] in H.
  - apply Hstop with (pv := pv). exact H.
  - destruct (p c && hi_allows hi) eqn:Hc; [|apply Hstop with (pv := pv); exact H].
    destruct (rep p (Nat.pred lo) (option_map Nat.pred hi) (Some c) s k) as [r|] eqn:Hr;
      [|apply Hstop with (pv := pv); exact H].
    injection H as <-. apply andb_prop in Hc. destruct Hc as [Hp Hhi].
    destruct (IH _ _ _ _ _ Hr) as (w & s' & pv' & -> & Hall & Hlo & Hin & Hk).
    exists (String c w), s', pv'. cbn [String.length all_chars]. rewrite Hp, Hall.
    repeat split; [lia | | exact Hk].
    destruct hi as [[|h]|]; cbn in *; [discriminate Hhi | lia | exact I].
Qed.

Lemma run_sound (r : regex) :
  forall st k out,
    run r st k = Some out ->
    exists w st',
      derives r w (cap st) (cap st') /\ rest st = w ++ rest st' /\ k st' = Some out.
Proof.
  induction r as [|p|p lo hi|r1 IH1|r1 IH1 r2 IH2|r1 IH1|]; intros st k out H;
    cbn [run] in H.
  - exists "", st. repeat split; [constructor | exact H].
  - destruct (rest st) as [|c s'] eqn:Hs; [discriminate H|].
    destruct (p c) eqn:Hp; [|discriminate H].
    exists (String c ""), (MState (Some c) s' (cap st)). cbn.
    repeat split; [constructor; exact Hp | exact H].
  - apply rep_sound in H. destruct H as (w & s' & pv' & Hs & Hall & Hlo & Hin & Hk).
    exists w, (MState pv' s' (cap st)). cbn.
    repeat split; [constructor; assumption | exact Hs | exact Hk].
  - destruct (run r1 st k) as [x|] eqn:Hr.
    + injection H as <-. destruct (IH1 _ _ _ Hr) as (w & st' & Hd & Hs & Hk).
      exists w, st'. repeat split; [apply derives_Opt_take; exact Hd | exact Hs | exact Hk].
    + exists "", st. repeat split; [constructor | exact H].
  - destruct (IH1 _ _ _ H) as (w1 & st1 & Hd1 & Hs1 & Hk1).
    destruct (IH2 _ _ _ Hk1) as (w2 & st2 & Hd2 & Hs2 & Hk2).
    exists (w1 ++ w2), st2. repeat split.
    + apply derives_Seq with (c1 := cap st1); assumption.
    + rewrite Hs1, Hs2, append_assoc. reflexivity.
    + exact Hk2.
  - destruct (IH1 _ _ _ H) as (w & st1 & Hd & Hs & Hk).
    rewrite Hs, take_append in Hk.
    exists w, (MState (prev st1) (rest st1) (Some w)). cbn.
    repeat split; [apply derives_Grp with (c' := cap st1); exact Hd | exact Hs | exact Hk].
  - destruct (xorb (word_at (prev st)) (word_at (next_char (rest st)))); [|discriminate H].
    exists "", st. repeat split; [constructor | exact H].
Qed.

Lemma match_here_sound (r : regex) (pv : option ascii) (s : string) (st : mstate) :
  match_here r pv s = Some st ->
  exists w, derives r w None (cap st) /\ s = w ++ rest st.
Proof.
  unfold match_here. intros H. apply run_sound in H.
  destruct H as (w & st' & Hd & Hs & Hk). injection Hk as <-.
  exists w. split; [exact Hd | exact Hs].
Qed.

Lemma scan_sound (r : regex) (s : string) :
  forall pv skip x,
    In x (scan r pv s skip) ->
    exists w c, derives r w None c /\ occurs_in w s /\ x = item_of r w c.
Proof.
  induction s as [|a s IH]; intros pv skip x Hin.
  - destruct skip as [|n]; [|destruct Hin].
    cbn [scan] in Hin. destruct (match_here r pv "") as [st|] eqn:Hm; [|destruct Hin].
    destruct Hin as [<-|[]].
    destruct (match_here_sound _ _ _ Hm) as (w & Hd & Hs).
    exists w, (cap st). split; [exact Hd|]. split.
    + exists "", (rest st). exact Hs.
    + unfold item, item_of. destruct (has_group r); [reflexivity|].
      rewrite Hs at 1 2. rewrite take_append. reflexivity.
  - destruct skip as [|n].
    + cbn [scan] in Hin. destruct (match_here r pv (String a s)) as [st|] eqn:Hm.
      * destruct Hin as [<-|Hin].
        -- destruct (match_here_sound _ _ _ Hm) as (w & Hd & Hs).
           exists w, (cap st). split; [exact Hd|]. split.
           ++ exists "", (rest st). exact Hs.
           ++ unfold item, item_of. destruct (has_group r); [reflexivity|].
              rewrite Hs at 1 2. rewrite take_append. reflexivity.
        -- destruct (IH _ _ _ Hin) as (w & c & Hd & Ho & Hx).
           exists w, c. repeat split; [exact Hd | apply occurs_in_cons; exact Ho | exact Hx].
      * destruct (IH _ _ _ Hin) as (w & c & Hd & Ho & Hx).
        exists w, c. repeat split; [exact Hd | apply occurs_in_cons; exact Ho | exact Hx].
    + cbn [scan] in Hin. destruct (IH _ _ _ Hin) as (w & c & Hd & Ho & Hx).
      exists w, c. repeat split; [exact Hd | apply occurs_in_cons; exact Ho | exact Hx].
Qed.

Lemma findall_sound (r : regex) (s x : string) :
  In x (findall r s) ->
  exists w c, derives r w None c /\ occurs_in w s /\ x = item_of r w c.
Proof. apply scan_sound. Qed.

(** ** Bounds read off a pattern *)

Lemma in_every_ascii (c : ascii) : In c every_ascii.
Proof.
  unfold every_ascii. apply in_map_iff. exists (nat_of_ascii c).
  split; [apply ascii_nat_embedding|].
  apply in_seq. pose proof (nat_ascii_bounded c). lia.
Qed.

Lemma subclass_sound (p q : ascii -> bool) :
  subclass p q = true -> forall c, p c = true -> q c = true.
Proof.
  unfold subclass. intros H c Hp. rewrite forallb_forall in H.
  specialize (H c (in_every_ascii c)). rewrite Hp in H. exact H.
Qed.

Lemma disjoint_sound (p q : ascii -> bool) :
  disjoint p q = true -> forall c, p c = true -> q c = false.
Proof.
  unfold disjoint. intros H c Hp. rewrite forallb_forall in H.
  specialize (H c (in_every_ascii c)). rewrite Hp in H.
  destruct (q c); [discriminate H | reflexivity].
Qed.

Lemma all_chars_weaken (p q : ascii -> bool) (w : string) :
  (forall c, p c = true -> q c = true) -> all_chars p w = true -> all_chars q w = true.
Proof.
  intros Hpq. induction w as [|a w IH]; cbn; [reflexivity|].
  intros H. apply andb_prop in H. destruct H as [Ha Hw].
  rewrite (Hpq a Ha), (IH Hw). reflexivity.
Qed.

Lemma count_chars_le (q : ascii -> bool) (w : string) :
  count_chars q w <= String.length w.
Proof. induction w as [|a w IH]; cbn; [lia | destruct (q a); lia]. Qed.

Lemma count_chars_all (p q : ascii -> bool) (w : string) :
  (forall c, p c = true -> q c = true) -> all_chars p w = true ->
  count_chars q w = String.length w.
Proof.
  intros Hpq. induction w as [|a w IH]; cbn; [reflexivity|].
  intros H. apply andb_prop in H. destruct H as [Ha Hw].
  rewrite (Hpq a Ha), (IH Hw). reflexivity.
Qed.

Lemma count_chars_none (p q : ascii -> bool) (w : string) :
  (forall c, p c = true -> q c = false) -> all_chars p w = true ->
  count_chars q w = 0.
Proof.
  intros Hpq. induction w as [|a w IH]; cbn; [reflexivity|].
  intros H. apply andb_prop in H. destruct H as [Ha Hw].
  rewrite (Hpq a Ha), (IH Hw). reflexivity.
Qed.

Lemma derives_alphabet (r : regex) (w : string) (c c' : option string) :
  derives r w c c' -> all_chars (alphabet r) w = true.
Proof.
  induction 1 as [c|p a c Hp|p lo hi w c Hall Hlo Hhi|r c|r w c c' H IH
                  |r1 r2 w1 w2 c c1 c2 H1 IH1 H2 IH2|r w c c' H IH|c]; cbn [alphabet].
  - reflexivity.
  - cbn. rewrite Hp. reflexivity.
  - exact Hall.
  - reflexivity.
  - exact IH.
  - rewrite all_chars_append. apply andb_true_intro. split.
    + apply (all_chars_weaken (alphabet r1)); [|exact IH1].
      intros x Hx. rewrite Hx. reflexivity.
    + apply (all_chars_weaken (alphabet r2)); [|exact IH2].
      intros x Hx. rewrite Hx. apply orb_true_r.
  - exact IH.
  - reflexivity.
Qed.

Lemma derives_least (q : ascii -> bool) (r : regex) (w : string) (c c' : option string) :
  derives r w c c' -> least q r <= count_chars q w.
Proof.
  induction 1 as [c|p a c Hp|p lo hi w c Hall Hlo Hhi|r c|r w c c' H IH
                  |r1 r2 w1 w2 c c1 c2 H1 IH1 H2 IH2|r w c c' H IH|c]; cbn [least].
  - apply Nat.le_0_l.
  - destruct (subclass p q) eqn:Hs; [|apply Nat.le_0_l].
    cbn. rewrite (subclass_sound _ _ Hs a Hp). lia.
  - destruct (subclass p q) eqn:Hs; [|apply Nat.le_0_l].
    rewrite (count_chars_all p q w (subclass_sound _ _ Hs) Hall). exact Hlo.
  - apply Nat.le_0_l.
  - apply Nat.le_0_l.
  - rewrite count_chars_append. lia.
  - exact IH.
  - apply Nat.le_0_l.
Qed.

Lemma within_zero (h : option nat) : within h 0.
Proof. destruct h; cbn; [apply Nat.le_0_l | exact I]. Qed.

Lemma derives_most (q : ascii -> bool) (r : regex) (w : string) (c c' : option string) :
  derives r w c c' -> within (most q r) (count_chars q w).
Proof.
  induction 1 as [c|p a c Hp|p lo hi w c Hall Hlo Hhi|r c|r w c c' H IH
                  |r1 r2 w1 w2 c c1 c2 H1 IH1 H2 IH2|r w c c' H IH|c]; cbn [most].
  - cbn. lia.
  - destruct (disjoint p q) eqn:Hd; cbn.
    + rewrite (disjoint_sound _ _ Hd a Hp). lia.
    + destruct (q a); lia.
  - destruct (disjoint p q) eqn:Hd.
    + rewrite (count_chars_none p q w (disjoint_sound _ _ Hd) Hall). cbn. lia.
    + pose proof (count_chars_le q w). destruct hi; cbn in *; [lia | exact I].
  - apply within_zero.
  - exact IH.
  - rewrite count_chars_append.
    destruct (most q r1), (most q r2); cbn in *; try exact I. lia.
  - exact IH.
  - cbn. lia.
Qed.

Lemma count_chars_everything (w : string) :
  count_chars (fun _ => true) w = String.length w.
Proof. induction w as [|a w IH]; cbn; [reflexivity | rewrite IH; reflexivity]. Qed.

(** ** Phones *)

Lemma cleaned_phone_length (p : string) :
  String.length (cleaned_phone p) <= count_chars is_digit p + count_chars is_plus p.
Proof.
  unfold cleaned_phone, not_digit_plus, is_plus.
  induction p as [|a p IH]; cbn [sub_class_empty count_chars String.length]; [lia|].
  destruct (is_digit a), (one_of "+" a); cbn [negb orb String.length]; lia.
Qed.

Lemma cleaned_phone_digits (p : string) :
  count_chars is_digit p <= String.length (cleaned_phone p).
Proof.
  unfold cleaned_phone, not_digit_plus.
  induction p as [|a p IH]; cbn [sub_class_empty count_chars String.length]; [lia|].
  destruct (is_digit a), (one_of "+" a); cbn [negb orb String.length]; lia.
Qed.

Lemma phone_entry_of_match (r : regex) (p : string) (c c' : option string) :
  phone_bounds r = true -> derives r p c c' ->
  10 <= String.length (cleaned_phone p) -> phone_entry p.
Proof.
  unfold phone_bounds. intros Hb Hd Hlen. apply andb_prop in Hb. destruct Hb as [Hsub Hb].
  pose proof (derives_most is_digit Hd) as Hdig.
  pose proof (derives_most is_plus Hd) as Hplus.
  pose proof (derives_most (fun _ => true) Hd) as Hall.
  rewrite count_chars_everything in Hall.
  destruct (most is_digit r) as [digits|]; [|discriminate Hb].
  destruct (most is_plus r) as [plus|]; [|discriminate Hb].
  destruct (most (fun _ => true) r) as [chars|]; [|discriminate Hb].
  apply andb_prop in Hb. destruct Hb as [Hb H17]. apply andb_prop in Hb.
  destruct Hb as [H15 H1].
  apply Nat.leb_le in H15, H1, H17. cbn in Hdig, Hplus, Hall.
  pose proof (cleaned_phone_length p).
  unfold phone_entry. repeat split; try lia.
  apply (all_chars_weaken (alphabet r)); [apply subclass_sound; exact Hsub|].
  apply (derives_alphabet Hd).
Qed.

Lemma phone_patterns_bounds : forallb phone_bounds phone_patterns = true.
Proof. vm_compute. reflexivity. Qed.

Lemma phone_patterns_plain : forallb (fun r => negb (has_group r)) phone_patterns = true.
Proof. vm_compute. reflexivity. Qed.

Lemma phone_us_least : least is_digit (phone_us false) = 10.
Proof. vm_compute. reflexivity. Qed.

Lemma phone_us_ten_digits (p : string) (c c' : option string) :
  derives (phone_us false) p c c' -> 10 <= String.length (cleaned_phone p).
Proof.
  intros Hd. pose proof (derives_least is_digit Hd) as H.
  rewrite phone_us_least in H.
  pose proof (cleaned_phone_digits p). lia.
Qed.

Lemma append_phones_In (found : list string) :
  forall phones p,
    In p (append_phones found phones) ->
    In p phones \/ (In p found /\ 10 <= String.length (cleaned_phone p)).
Proof.
  induction found as [|x found IH]; intros phones p H; cbn [append_phones] in H.
  - left. exact H.
  - destruct (Nat.leb 10 (String.length (cleaned_phone x))
              && negb (list_in (cleaned_phone x) phones)) eqn:Hc.
    + apply andb_prop in Hc. destruct Hc as [Hlen _]. apply Nat.leb_le in Hlen.
      destruct (IH _ _ H) as [Hin|[Hin Hl]].
      * apply in_app_or in Hin. destruct Hin as [Hin|[<-|[]]].
        -- left. exact Hin.
        -- right. split; [left; reflexivity | exact Hlen].
      * right. split; [right; exact Hin | exact Hl].
    + destruct (IH _ _ H) as [Hin|[Hin Hl]].
      * left. exact Hin.
      * right. split; [right; exact Hin | exact Hl].
Qed.

Lemma found_phone (r : regex) (page_source p : string) :
  has_group r = false -> In p (findall r page_source) ->
  occurs_in p page_source /\ exists c, derives r p None c.
Proof.
  intros Hg Hin. destruct (findall_sound _ _ _ Hin) as (w & c & Hd & Ho & ->).
  unfold item_of. rewrite Hg. split; [exact Ho | exists c; exact Hd].
Qed.

Lemma found_phones_entries (r : regex) (page_source : string) :
  phone_bounds r = true -> has_group r = false ->
  forall phones p,
    In p (append_phones (findall r page_source) phones) ->
    In p phones \/
    (occurs_in p page_source /\ phone_entry p /\ 10 <= String.length (cleaned_phone p)).
Proof.
  intros Hb Hg phones p H. destruct (append_phones_In _ _ _ H) as [Hin|[Hin Hlen]].
  - left. exact Hin.
  - right. destruct (found_phone _ _ _ Hg Hin) as [Ho [c Hd]].
    split; [exact Ho|]. split; [|exact Hlen].
    apply (phone_entry_of_match Hb Hd Hlen).
Qed.

Lemma extract_phones_In (page_source : string) (phones : list string) (p : string) :
  In p (extract_phones page_source phones) ->
  In p phones \/
  (occurs_in p page_source /\ phone_entry p /\ 10 <= String.length (cleaned_phone p)).
Proof.
  unfold extract_phones, phone_patterns. cbn [fold_left]. intros H.
  apply found_phones_entries in H; [|reflexivity|reflexivity].
  destruct H as [H|H]; [|right; exact H].
  apply found_phones_entries in H; [|reflexivity|reflexivity].
  destruct H as [H|H]; [|right; exact H].
  apply found_phones_entries in H; [|reflexivity|reflexivity].
  exact H.
Qed.

(** ** Emails *)

Ltac split_seq :=
  match goal with
  | H : derives (Seq _ _) _ _ _ |- _ => inversion H; subst; clear H
  end.

Lemma ch_inv (b : bool) (c : ascii) (w : string) (k k' : option string) :
  derives (ch b c) w k k' ->
  exists a, w = String a "" /\ lower_char a = lower_char c /\ k' = k.
Proof.
  unfold ch, ilit, lit. intros H. destruct b; inversion H; subst; clear H.
  - match goal with Hp : Ascii.eqb _ _ = true |- _ => apply Ascii.eqb_eq in Hp;
      eexists; repeat split; exact Hp end.
  - match goal with Hp : Ascii.eqb _ _ = true |- _ => apply Ascii.eqb_eq in Hp;
      subst; eexists; repeat split end.
Qed.

Lemma lower_char_at (a : ascii) : lower_char a = "@"%char -> a = "@"%char.
Proof.
  destruct a as [[|] [|] [|] [|] [|] [|] [|] [|]]; vm_compute; intros H;
    first [reflexivity | discriminate H].
Qed.

Lemma lower_char_dot (a : ascii) : lower_char a = "."%char -> a = "."%char.
Proof.
  destruct a as [[|] [|] [|] [|] [|] [|] [|] [|]]; vm_compute; intros H;
    first [reflexivity | discriminate H].
Qed.

Lemma email_classes_whatever_the_case :
  subclass (icase email_local) email_local = true /\
  subclass (icase email_domain) email_domain = true /\
  subclass (icase email_tld) email_tld = true.
Proof. vm_compute. repeat split. Qed.

Lemma all_chars_cls (b : bool) (p : ascii -> bool) (w : string) :
  subclass (icase p) p = true -> all_chars (cls b p) w = true -> all_chars p w = true.
Proof.
  intros Hs. destruct b; cbn [cls]; [|trivial].
  apply all_chars_weaken. apply subclass_sound. exact Hs.
Qed.

Lemma email_body_shape (b : bool) (w : string) (c c' : option string) :
  derives (email_body b) w c c' -> address_shape w.
Proof.
  unfold email_body. cbn [seqs]. intros H.
  do 4 split_seq.
  repeat match goal with
  | H : derives (ch _ _) _ _ _ |- _ => apply ch_inv in H; destruct H as (? & -> & ? & ?)
  | H : derives (Rep _ _ _) _ _ _ |- _ => inversion H; subst; clear H
  end.
  destruct email_classes_whatever_the_case as (Hl & Hd & Ht).
  repeat match goal with
  | H : lower_char _ = lower_char "@" |- _ => apply lower_char_at in H; subst
  | H : lower_char _ = lower_char "." |- _ => apply lower_char_dot in H; subst
  | H : all_chars (cls _ email_local) _ = true |- _ => apply (all_chars_cls _ _ _ Hl) in H
  | H : all_chars (cls _ email_domain) _ = true |- _ => apply (all_chars_cls _ _ _ Hd) in H
  | H : all_chars (cls _ email_tld) _ = true |- _ => apply (all_chars_cls _ _ _ Ht) in H
  end.
  unfold address_shape. do 3 eexists. split; [reflexivity|]. repeat split; assumption.
Qed.

Lemma found_email_word (b : bool) (page_source x : string) :
  In x (findall (email_word b) page_source) ->
  occurs_in x page_source /\ address_shape x.
Proof.
  intros Hin. destruct (findall_sound _ _ _ Hin) as (w & c & Hd & Ho & ->).
  assert (Hg : has_group (email_word b) = false) by (destruct b; reflexivity).
  unfold item_of. rewrite Hg. split; [exact Ho|].
  unfold email_word in Hd. cbn [seqs] in Hd. do 2 split_seq.
  repeat match goal with
  | H : derives WordB _ _ _ |- _ => inversion H; subst; clear H
  end.
  cbn [append]. rewrite append_nil_r. eapply email_body_shape. eassumption.
Qed.

Lemma found_email_mailto (b : bool) (page_source x : string) :
  In x (findall (email_mailto b) page_source) ->
  occurs_in x page_source /\ address_shape x.
Proof.
  intros Hin. destruct (findall_sound _ _ _ Hin) as (w & c & Hd & Ho & ->).
  assert (Hg : has_group (email_mailto b) = true) by (destruct b; reflexivity).
  unfold item_of. rewrite Hg.
  unfold email_mailto in Hd. cbn [seqs] in Hd. split_seq.
  match goal with
  | H : derives (Grp _) _ _ _ |- _ => inversion H; subst; clear H
  end.
  split.
  - apply occurs_in_trans with (b := (w1 ++ w2)%string); [|exact Ho].
    exists w1, "". rewrite append_nil_r. reflexivity.
  - eapply email_body_shape. eassumption.
Qed.

Lemma append_emails_In (found : list string) :
  forall emails e,
    In e (append_emails found emails) ->
    In e emails \/ exists x, In x found /\ e = lower x.
Proof.
  induction found as [|x found IH]; intros emails e H; cbn [append_emails] in H.
  - left. exact H.
  - destruct (negb (list_in x emails) && str_in "@" x).
    + destruct (IH _ _ H) as [Hin|[y [Hy He]]].
      * apply in_app_or in Hin. destruct Hin as [Hin|[<-|[]]].
        -- left. exact Hin.
        -- right. exists x. split; [left; reflexivity | reflexivity].
      * right. exists y. split; [right; exact Hy | exact He].
    + destruct (IH _ _ H) as [Hin|[y [Hy He]]].
      * left. exact Hin.
      * right. exists y. split; [right; exact Hy | exact He].
Qed.

Lemma append_modal_emails_In (found : list string) :
  forall emails e,
    In e (append_modal_emails found emails) ->
    In e emails \/ exists x, In x found /\ e = lower x.
Proof.
  induction found as [|x found IH]; intros emails e H; cbn [append_modal_emails] in H.
  - left. exact H.
  - destruct (negb (list_in x emails)).
    + destruct (IH _ _ H) as [Hin|[y [Hy He]]].
      * apply in_app_or in Hin. destruct Hin as [Hin|[<-|[]]].
        -- left. exact Hin.
        -- right. exists x. split; [left; reflexivity | reflexivity].
      * right. exists y. split; [right; exact Hy | exact He].
    + destruct (IH _ _ H) as [Hin|[y [Hy He]]].
      * left. exact Hin.
      * right. exists y. split; [right; exact Hy | exact He].
Qed.

Lemma extract_emails_In (page_source : string) (emails : list string) (e : string) :
  In e (extract_emails page_source emails) ->
  In e emails \/ exists w, e = lower w /\ occurs_in w page_source /\ address_shape w.
Proof.
  unfold extract_emails, email_patterns. cbn [fold_left]. intros H.
  apply append_emails_In in H. destruct H as [H|[x [Hx ->]]].
  - apply append_emails_In in H. destruct H as [H|[x [Hx ->]]]; [left; exact H|].
    right. exists x. split; [reflexivity | apply (found_email_word _ _ _ Hx)].
  - right. exists x. split; [reflexivity | apply (found_email_mailto _ _ _ Hx)].
Qed.

(** ** Websites *)

Lemma str_lower (b : bool) (s : string) :
  forall w c c', derives (str b s) w c c' -> lower w = lower s.
Proof.
  unfold str. induction s as [|a s IH]; intros w c c' H.
  - inversion H; subst. reflexivity.
  - destruct s as [|a' s'].
    + cbn [seq_of] in H. apply ch_inv in H. destruct H as (x & -> & Hx & _).
      cbn. rewrite Hx. reflexivity.
    + change (seq_of (ch b) (String a (String a' s')))
        with (Seq (ch b a) (seq_of (ch b) (String a' s'))) in H.
      split_seq.
      match goal with
      | H : derives (ch _ _) _ _ _ |- _ => apply ch_inv in H; destruct H as (x & -> & Hx & _)
      end.
      match goal with
      | H : derives _ _ _ _ |- _ => apply IH in H; rename H into Hrest
      end.
      cbn [append lower]. rewrite Hx, Hrest. reflexivity.
Qed.

Lemma url_http_prefix (b : bool) (w : string) (c c' : option string) :
  derives (url_http b) w c c' ->
  (startswith "http://" (lower w) || startswith "https://" (lower w)) = true.
Proof.
  unfold url_http. cbn [seqs]. intros H. do 3 split_seq.
  repeat match goal with
  | H : derives (str _ _) _ _ _ |- _ => apply str_lower in H
  end.
  match goal with
  | H : derives (Opt _) _ _ _ |- _ => inversion H; subst; clear H
  end.
  - rewrite !lower_append.
    repeat match goal with H : lower _ = _ |- _ => rewrite H; clear H end.
    reflexivity.
  - match goal with
    | H : derives (ch _ _) _ _ _ |- _ => apply ch_inv in H; destruct H as (x & -> & Hx & _)
    end.
    rewrite !lower_append.
    repeat match goal with H : lower _ = _ |- _ => rewrite H; clear H end.
    cbn. rewrite Hx. reflexivity.
Qed.

Lemma url_www_prefix (b : bool) (w : string) (c c' : option string) :
  derives (url_www b) w c c' -> startswith "www." (lower w) = true.
Proof.
  unfold url_www. cbn [seqs]. intros H. do 2 split_seq.
  repeat match goal with
  | H : derives (str _ _) _ _ _ |- _ => apply str_lower in H
  | H : derives (ch _ _) _ _ _ |- _ => apply ch_inv in H; destruct H as (x & -> & Hx & _)
  end.
  rewrite !lower_append.
  repeat match goal with H : lower _ = _ |- _ => rewrite H; clear H end.
  cbn. rewrite Hx. reflexivity.
Qed.

Lemma found_url_http (b : bool) (page_source x : string) :
  In x (findall (url_http b) page_source) ->
  occurs_in x page_source /\
  (startswith "http://" (lower x) || startswith "https://" (lower x)
   || startswith "www." (lower x)) = true.
Proof.
  intros Hin. destruct (findall_sound _ _ _ Hin) as (w & c & Hd & Ho & ->).
  assert (Hg : has_group (url_http b) = false) by (destruct b; reflexivity).
  unfold item_of. rewrite Hg. split; [exact Ho|].
  rewrite (url_http_prefix Hd). reflexivity.
Qed.

Lemma found_url_www (b : bool) (page_source x : string) :
  In x (findall (url_www b) page_source) ->
  occurs_in x page_source /\
  (startswith "http://" (lower x) || startswith "https://" (lower x)
   || startswith "www." (lower x)) = true.
Proof.
  intros Hin. destruct (findall_sound _ _ _ Hin) as (w & c & Hd & Ho & ->).
  assert (Hg : has_group (url_www b) = false) by (destruct b; reflexivity).
  unfold item_of. rewrite Hg. split; [exact Ho|].
  rewrite (url_www_prefix Hd). apply orb_true_r.
Qed.

Lemma append_websites_In (found : list string) :
  forall websites w,
    In w (append_websites found websites) ->
    In w websites \/ (In w found /\ str_in "linkedin.com" w = false).
Proof.
  induction found as [|x found IH]; intros websites w H; cbn [append_websites] in H.
  - left. exact H.
  - destruct (negb (list_in x websites) && negb (str_in "linkedin.com" x)) eqn:Hc.
    + apply andb_prop in Hc. destruct Hc as [_ Hl]. apply negb_true_iff in Hl.
      destruct (IH _ _ H) as [Hin|[Hin Hn]].
      * apply in_app_or in Hin. destruct Hin as [Hin|[<-|[]]].
        -- left. exact Hin.
        -- right. split; [left; reflexivity | exact Hl].
      * right. split; [right; exact Hin | exact Hn].
    + destruct (IH _ _ H) as [Hin|[Hin Hn]].
      * left. exact Hin.
      * right. split; [right; exact Hin | exact Hn].
Qed.

Lemma extract_websites_In (page_source : string) (websites : list string) (w : string) :
  In w (extract_websites page_source websites) ->
  In w websites \/ (occurs_in w page_source /\ website_entry w).
Proof.
  unfold extract_websites, url_patterns, website_entry. cbn [fold_left]. intros H.
  apply append_websites_In in H. destruct H as [H|[Hx Hn]].
  - apply append_websites_In in H. destruct H as [H|[Hx Hn]]; [left; exact H|].
    right. destruct (found_url_http _ _ _ Hx) as [Ho Hp]. auto.
  - right. destruct (found_url_www _ _ _ Hx) as [Ho Hp]. auto.
Qed.

(** X17.  What a scan of a page of ASCII text can add to the three lists.
    A new
    email is the lower-case form of a text of the page of the shape
    local part, at sign, domain, dot, two or more letters.  A new phone is
    a text of the page made of digits, [+ ( ) - .] and white space, with
    nine to fifteen digits and seventeen characters at most.  A new
    website is a text of the page that starts, in any letter case, with
    [http://], [https://] or [www.] and does not contain [linkedin.com]. *)
Theorem page_scan_adds_only_matches (page_source : string)
    (emails phones websites : list string) :
  (forall e, In e (extract_emails page_source emails) ->
     In e emails \/
     exists w, e = lower w /\ occurs_in w page_source /\ address_shape w) /\
  (forall p, In p (extract_phones page_source phones) ->
     In p phones \/
     (occurs_in p page_source /\ phone_entry p /\
      10 <= String.length (cleaned_phone p))) /\
  (forall w, In w (extract_websites page_source websites) ->
     In w websites \/ (occurs_in w page_source /\ website_entry w)).
Proof.
  split; [|split].
  - intros e. apply extract_emails_In.
  - intros p. apply extract_phones_In.
  - intros w. apply extract_websites_In.
Qed.

(** ** The lists of a returned profile *)

Lemma extract_emails_entries (page_source : string) (emails : list string) :
  Forall email_entry emails -> Forall email_entry (extract_emails page_source emails).
Proof.
  rewrite !Forall_forall. intros Hold e He.
  destruct (extract_emails_In _ _ _ He) as [Hin|[w (-> & _ & Hw)]].
  - apply Hold. exact Hin.
  - exists w. split; [reflexivity | exact Hw].
Qed.

Lemma append_modal_emails_entries (b : bool) (page_source : string) (emails : list string) :
  Forall email_entry emails ->
  Forall email_entry (append_modal_emails (findall (email_word b) page_source) emails).
Proof.
  rewrite !Forall_forall. intros Hold e He.
  destruct (append_modal_emails_In _ _ _ He) as [Hin|[w (Hw & ->)]].
  - apply Hold. exact Hin.
  - exists w. split; [reflexivity | apply (found_email_word _ _ _ Hw)].
Qed.

Lemma extend_emails_entries (b : bool) (page_source : string) (emails : list string) :
  Forall email_entry emails ->
  Forall email_entry (extend_emails (findall (email_word b) page_source) emails).
Proof.
  unfold extend_emails. intros Hold. apply Forall_app. split; [exact Hold|].
  apply Forall_forall. intros e He. apply in_map_iff in He.
  destruct He as [w [<- Hw]]. apply filter_In in Hw. destruct Hw as [Hw _].
  exists w. split; [reflexivity | apply (found_email_word _ _ _ Hw)].
Qed.

Lemma extract_phones_entries (page_source : string) (phones : list string) :
  Forall phone_entry phones -> Forall phone_entry (extract_phones page_source phones).
Proof.
  rewrite !Forall_forall. intros Hold p Hp.
  destruct (extract_phones_In _ _ _ Hp) as [Hin|(_ & He & _)].
  - apply Hold. exact Hin.
  - exact He.
Qed.

Lemma extend_phones_entries (page_source : string) (phones : list string) :
  Forall phone_entry phones ->
  Forall phone_entry (extend_phones (findall (phone_us false) page_source) phones).
Proof.
  unfold extend_phones. intros Hold. apply Forall_app. split; [exact Hold|].
  apply Forall_forall. intros p Hp. apply filter_In in Hp. destruct Hp as [Hp _].
  destruct (found_phone _ _ _ (eq_refl : has_group (phone_us false) = false) Hp)
    as [_ [c Hd]].
  apply (@phone_entry_of_match (phone_us false) p None c); [reflexivity | exact Hd|].
  apply (phone_us_ten_digits Hd).
Qed.

Lemma extract_websites_entries (page_source : string) (websites : list string) :
  Forall website_entry websites ->
  Forall website_entry (extract_websites page_source websites).
Proof.
  rewrite !Forall_forall. intros Hold w Hw.
  destruct (extract_websites_In _ _ _ Hw) as [Hin|[_ He]].
  - apply Hold. exact Hin.
  - exact He.
Qed.

Lemma extend_websites_entries (b : bool) (page_source : string) (websites : list string) :
  Forall website_entry websites ->
  Forall website_entry (extend_websites (findall (url_http b) page_source) websites).
Proof.
  unfold extend_websites. intros Hold. apply Forall_app. split; [exact Hold|].
  apply Forall_forall. intros w Hw. apply filter_In in Hw. destruct Hw as [Hw Hc].
  apply andb_prop in Hc. destruct Hc as [_ Hl]. apply negb_true_iff in Hl.
  destruct (found_url_http _ _ _ Hw) as [_ Hp]. split; assumption.
Qed.

Ltac entries_side :=
  idtac;
  match goal with
  | H : contact_entries _ |- contact_entries _ =>
      destruct H as (He & Hp & Hw); unfold contact_entries;
      cbn [Profile.emails Profile.phones Profile.websites
           Profile.set_full_name Profile.set_linkedin_url Profile.set_role
           Profile.set_company Profile.set_geography Profile.set_about
           Profile.set_location Profile.set_emails Profile.set_phones
           Profile.set_websites Profile.set_profile_type
           Profile.set_extraction_success];
      repeat split;
      first [ assumption
            | apply extract_emails_entries; assumption
            | apply append_modal_emails_entries; assumption
            | apply extend_emails_entries; assumption
            | apply extract_phones_entries; assumption
            | apply extend_phones_entries; assumption
            | apply extract_websites_entries; assumption
            | apply extend_websites_entries; assumption ]
  end.

Import Profile Exn Browser Extractor Logic LogicFacts Spec ExtractorFacts Coverage
  MethodFacts.

Ltac open_methods :=
  unfold sales_navigator_body, regular_body, card_body, soup_first_text,
    card_first_text, card_link, regular_name, regular_role, regular_company,
    regular_location, _extract_about_section, _extract_linkedin_profile_url,
    _extract_sales_navigator_contact_info, _extract_contact_info,
    scan_contact_modal, close_modal, derive_success, on_error.

Section Methods.
Context {selenium : Selenium}.

Lemma contact_entries_new (now : string) : contact_entries (new_profile now).
Proof. repeat split; constructor. Qed.

Lemma contact_entries_sales_navigator (d : driver) :
  contact_entries (snd (extract_sales_navigator_profile d)).
Proof.
  apply sales_navigator_result.
  - repeat split; constructor.
  - open_methods. walk entries_side.
  - intros p H. entries_side.
Qed.

Lemma contact_entries_regular (d : driver) :
  contact_entries (snd (extract_regular_profile d)).
Proof.
  apply regular_result.
  - repeat split; constructor.
  - open_methods. walk entries_side.
  - intros p H. entries_side.
Qed.

Lemma contact_entries_search (d : driver) :
  Forall contact_entries (snd (extract_sales_navigator_search_results d)).
Proof.
  apply search_result. intros card d'. apply card_result.
  - repeat split; constructor.
  - open_methods. walk entries_side.
Qed.

(** X18.  For a browser that shows pages of ASCII text, the scope of the
    character classes: in whatever [extract_profile] returns, a profile or
    each profile of a list, every email is the lower-case form of a text
    of the address shape, every phone is made of digits and phone
    punctuation with nine to fifteen digits, and every website starts like
    an address of the web and does not contain [linkedin.com].  On pages
    with other characters the classes of Python are wider than those of
    the model, and this is not claimed. *)
Theorem returned_contacts_are_well_shaped (url : option string) (d : driver) :
  every_profile contact_entries (snd (extract_profile url d)).
Proof.
  apply extract_profile_result.
  - apply contact_entries_sales_navigator.
  - apply contact_entries_regular.
  - apply contact_entries_search.
  - apply contact_entries_new.
Qed.
End Methods.

End ShapeFacts.

(** * Starting the browser: [stealth_browser.py] *)

Module StealthFacts.
Import PyStr Shape Stealth.

Local Open Scope string_scope.

(** ** The window size *)

Lemma split_on_pieces (sep : ascii) (s : string) :
  length (split_on sep s) = S (count_chars (fun c => Ascii.eqb c sep) s).
Proof.
  induction s as [|c s IH]; [reflexivity|]. cbn [split_on count_chars].
  destruct (Ascii.eqb c sep).
  - cbn [length]. rewrite IH. reflexivity.
  - destruct (split_on sep s) as [|piece pieces]; [discriminate IH|].
    cbn [length] in *. rewrite IH. reflexivity.
Qed.

Lemma concat_cons (sep x : string) (l : list string) :
  String.concat sep (x :: l) =
    match l with
    | [] => x
    | _ :: _ => x ++ sep ++ String.concat sep l
    end.
Proof. destruct l; reflexivity. Qed.

Lemma split_on_join (sep : ascii) (s : string) :
  String.concat (String sep "") (split_on sep s) = s.
Proof.
  induction s as [|c s IH]; [reflexivity|]. cbn [split_on].
  pose proof (split_on_pieces sep s) as Hlen.
  destruct (Ascii.eqb c sep) eqn:Hc.
  - apply Ascii.eqb_eq in Hc. subst c. rewrite concat_cons.
    destruct (split_on sep s) as [|piece pieces]; [discriminate Hlen|].
    cbn [append] in *. rewrite IH. reflexivity.
  - destruct (split_on sep s) as [|piece pieces]; [discriminate Hlen|].
    rewrite concat_cons in *. destruct pieces; cbn [append] in *; rewrite IH; reflexivity.
Qed.

Lemma window_size_argument_spec (config : BrowserConfig) :
  window_size_argument config =
    if Nat.eqb (count_chars is_comma (window_size config)) 1
    then Some ("--window-size=" ++ window_size config)
    else None.
Proof.
  unfold window_size_argument.
  pose proof (split_on_pieces "," (window_size config)) as Hlen.
  pose proof (split_on_join "," (window_size config)) as Hjoin.
  change (fun c => Ascii.eqb c ",") with is_comma in Hlen.
  destruct (split_on "," (window_size config)) as [|width [|height [|third rest]]];
    cbn [length] in Hlen; try discriminate Hlen; injection Hlen as Hlen;
    rewrite <- Hlen; cbn [Nat.eqb];
    try reflexivity.
  rewrite <- Hjoin. reflexivity.
Qed.

Section Functions.
Context {launcher : Launcher}.

Lemma malformed_original (config : BrowserConfig) (m : machine) :
  window_size_argument config = None ->
  create_in_mode false config m = (m, Failed ValueError).
Proof.
  intros H. unfold create_in_mode, get_original_selenium_driver, original_arguments.
  rewrite H. reflexivity.
Qed.

(** X19.  The window size is split at its commas and put together again:
    with exactly one comma the argument is the text itself after
    [--window-size=], whatever stands around the comma.  With any other
    number of commas the unpacking raises, in the undetected start, and
    again in the standard start the handler falls back to: whatever mode
    is asked for, [create_enhanced_browser] ends in [ValueError], and the
    machine is as it was. *)
Theorem window_size_decides_before_any_start (config : BrowserConfig) :
  (count_chars is_comma (window_size config) = 1 ->
   window_size_argument config = Some ("--window-size=" ++ window_size config)) /\
  (count_chars is_comma (window_size config) <> 1 ->
   forall use_stealth m,
     create_enhanced_browser use_stealth config m = (m, Failed ValueError)).
Proof.
  pose proof (window_size_argument_spec config) as Hspec. split.
  - intros H. rewrite H in Hspec. exact Hspec.
  - intros H use_stealth m. apply Nat.eqb_neq in H. rewrite H in Hspec.
    unfold create_enhanced_browser.
    destruct (settled_stealth use_stealth config) eqn:Hset.
    + assert (Hav : STEALTH_AVAILABLE = true).
      { unfold settled_stealth in Hset.
        destruct use_stealth as [[|]|]; destruct STEALTH_AVAILABLE;
          try reflexivity; discriminate Hset. }
      unfold create_in_mode at 1. unfold get_undetected_chrome_driver.
      rewrite Hav, Hspec. cbn [negb]. apply (malformed_original _ _ Hspec).
    + rewrite (malformed_original _ _ Hspec). reflexivity.
Qed.
End Functions.

Lemma window_size_decides_before_any_start_witness :
  create_enhanced_browser (launcher := plain_launcher) None
    (mkBrowserConfig false 30 true true "1920x1080" false) tt
  = (tt, Failed ValueError).
Proof.
  apply (proj2 (@window_size_decides_before_any_start plain_launcher
                  (mkBrowserConfig false 30 true true "1920x1080" false))).
  vm_compute. intros H. discriminate H.
Defined.

(** ** How many browsers are started *)

Section Counting.
Context {base : Launcher}.

Ltac run_start :=
  match goal with
  | |- context [@uc_Chrome base ?m ?a] =>
      destruct (@uc_Chrome base m a) as [? [?|]]
  | |- context [@ChromeDriverManager_install base ?m] =>
      destruct (@ChromeDriverManager_install base m) as [? [?|]]
  | |- context [@which_chromedriver base ?m] =>
      destruct (@which_chromedriver base m) as [? [?|]]
  | |- context [@webdriver_Chrome base ?m ?p ?a] =>
      destruct (@webdriver_Chrome base m p a) as [? [?|]]
  | |- context [@set_timeouts base ?m ?d ?t] =>
      destruct (@set_timeouts base m d t) as [? [?|]]
  | |- context [@get_random_user_agent base ?m] =>
      destruct (@get_random_user_agent base m) as [? ?]
  end; cbn.

Ltac count_up :=
  repeat split; try lia; try discriminate; try congruence.

(** X20.  Counting the browsers asked for on any machine:
    [create_enhanced_browser] asks for at most one undetected browser
    and at most two standard ones, the driver of the manager and then
    the driver of the system; for no undetected one when the mode settled
    is the standard one, and for exactly one in stealth mode unless the
    window size stops it.  It never ends in [ImportError]; it ends in
    [ValueError] with no start made; and when it returns a browser, or
    fails on a browser that was started, a start was made. *)
Theorem starts_of_create_enhanced_browser (use_stealth : option bool)
    (config : BrowserConfig) (m : @machine base) (s : starts) :
  starts_accounted (settled_stealth (launcher := counting_starts base) use_stealth config)
    s (create_enhanced_browser (launcher := counting_starts base) use_stealth config (m, s)).
Proof.
  unfold starts_accounted, create_enhanced_browser, create_in_mode,
    get_undetected_chrome_driver, get_original_selenium_driver, original_arguments,
    managed_or_system_chromedriver, system_chromedriver.
  destruct (settled_stealth (launcher := counting_starts base) use_stealth config) eqn:Hset.
  - assert (Hav : @STEALTH_AVAILABLE base = true).
    { unfold settled_stealth in Hset. cbn in Hset.
      destruct use_stealth as [[|]|]; destruct (@STEALTH_AVAILABLE base);
        try reflexivity; discriminate Hset. }
    cbn [STEALTH_AVAILABLE counting_starts]. rewrite Hav. cbn [negb].
    destruct (window_size_argument config) as [size|]; cbn; [|count_up].
    destruct (rotate_user_agent config); cbn; repeat run_start; count_up.
  - destruct (window_size_argument config) as [size|]; cbn; [|count_up].
    repeat run_start; count_up.
Qed.
End Counting.

(** On the launcher of the definitions all three starts are made: the
    undetected one, the standard one on the driver of the manager, and
    the one on the driver of the system, which is returned. *)
Example three_starts_for_one_browser :
  create_enhanced_browser (launcher := counting_starts plain_launcher) None
    (mkBrowserConfig false 30 true true "1920,1080" false) (tt, mkStarts 0 0)
  = ((tt, mkStarts 1 2),
     Started ["--no-sandbox"; "--disable-dev-shm-usage"; "--window-size=1920,1080"]).
Proof. vm_compute. reflexivity. Qed.

End StealthFacts.
